(** * pz-utils: the Fluent (.ftl) analyzer

    A shallow embedding of [src/node/ftl/analyzer] (helpers.ts,
    FtlAnalyzer.ts and discover.ts, and of report.ts and cli.ts the split of
    the diagnostics and the exit code) and the properties of the
    discovery-to-diagnostics pipeline.

    Conventions of the embedding.
    - JavaScript strings are [string]s (sequences of 8-bit characters); the
      case conversions and [trim] act on the ASCII range.
    - A [Set<string>] that is only queried ([has]/[add]/[delete]) is a
      [gset string]; one that is iterated is a duplicate-free list in
      insertion order.
    - A [Map<string, T>] is an insertion-ordered association list. So are the
      own properties of a [Record<string, T>], which is a plain object: a
      read [rec[k]] that finds no own property goes on to [Object.prototype]
      and finds its member of that name ([constructor], [toString], ...), a
      truthy value that is no [T]. [objGet] is that read. The keys written
      into such records are identifiers of the Fluent grammar and parameter
      names matched by [REGEXP_PARAM], which start with a letter, so
      [__proto__] is not among them; file names are not restricted and
      [compareGroups] treats that key.
    - [Object.prototype] is the one the runtime provides. A call that assigns
      a property to one of its members changes an object shared by every
      record; the state modelled here holds no such object, and the model
      follows the call up to that assignment and no further ([Stopped
      PrototypeWrite]).
    - Methods that push diagnostics return the list of diagnostics pushed, in
      order; [addDiagnostics] replays them on the store. *)

From Stdlib Require Import String Ascii List ZArith Bool Lia.
From stdpp Require Import base decidable option list strings gmap.

Import ListNotations.
Set Warnings "-register-all,-clear-no-such-hyp".

Local Open Scope string_scope.
Local Open Scope list_scope.

(** ** String primitives of the JavaScript runtime *)
Module Js.

(** [s.indexOf(c)] for a one-character needle; [None] stands for [-1]. *)
Fixpoint indexOf (c : ascii) (s : string) : option nat :=
  match s with
  | EmptyString => None
  | String a rest =>
      if Ascii.eqb a c then Some 0
      else match indexOf c rest with
           | Some n => Some (S n)
           | None => None
           end
  end.

(** [s.slice(0, n)]. *)
Fixpoint take (n : nat) (s : string) : string :=
  match n, s with
  | S k, String a rest => String a (take k rest)
  | _, _ => EmptyString
  end.

(** [s.slice(n)]. *)
Fixpoint drop (n : nat) (s : string) : string :=
  match n, s with
  | S k, String _ rest => drop k rest
  | _, _ => s
  end.

Definition isSpace (a : ascii) : bool :=
  let n := nat_of_ascii a in
  Nat.eqb n 32 || (Nat.leb 9 n && Nat.leb n 13).

Fixpoint trimStart (s : string) : string :=
  match s with
  | String a rest => if isSpace a then trimStart rest else s
  | EmptyString => EmptyString
  end.

Fixpoint trimEnd (s : string) : string :=
  match s with
  | EmptyString => EmptyString
  | String a rest =>
      match trimEnd rest with
      | EmptyString => if isSpace a then EmptyString else String a EmptyString
      | r => String a r
      end
  end.

Definition trim (s : string) : string := trimEnd (trimStart s).

(** [s.split(c)] for a one-character separator. *)
Fixpoint split (c : ascii) (s : string) : list string :=
  match s with
  | EmptyString => [EmptyString]
  | String a rest =>
      if Ascii.eqb a c then EmptyString :: split c rest
      else match split c rest with
           | w :: ws => String a w :: ws
           | [] => [String a EmptyString]
           end
  end.

Definition startsWith (p s : string) : bool := String.prefix p s.

Definition endsWith (p s : string) : bool :=
  String.eqb (drop (String.length s - String.length p) s) p
  && Nat.leb (String.length p) (String.length s).

Definition upperChar (a : ascii) : ascii :=
  let n := nat_of_ascii a in
  if Nat.leb 97 n && Nat.leb n 122 then ascii_of_nat (n - 32) else a.

Definition lowerChar (a : ascii) : ascii :=
  let n := nat_of_ascii a in
  if Nat.leb 65 n && Nat.leb n 90 then ascii_of_nat (n + 32) else a.

Fixpoint mapChars (f : ascii -> ascii) (s : string) : string :=
  match s with
  | EmptyString => EmptyString
  | String a rest => String (f a) (mapChars f rest)
  end.

Definition toUpperCase : string -> string := mapChars upperChar.
Definition toLowerCase : string -> string := mapChars lowerChar.

(** [xs.join(sep)]. *)
Fixpoint join (sep : string) (xs : list string) : string :=
  match xs with
  | [] => EmptyString
  | [x] => x
  | x :: rest => x +:+ sep +:+ join sep rest
  end.

(** Truthiness of a string: only the empty string is falsy. *)
Definition truthy (s : string) : bool := negb (String.eqb s EmptyString).

End Js.

(** ** The syntax tree handed over by the parser (@fluent/syntax)

    [ASTNode] is the union the analyzer walks: pattern elements, expressions,
    variants and call arguments.  A [Pattern] is its list of elements. *)
Inductive ASTNode : Type :=
| TextElement (value : string)
| Placeable (expression : ASTNode)
| StringLiteral (value : string)
| NumberLiteral (value : string)
| MessageReference (id : string) (attribute : option string)
| TermReference (id : string) (attribute : option string)
    (arguments : option ASTNode)
| VariableReference (id : string)
| FunctionReference (id : string) (arguments : ASTNode)
| SelectExpression (selector : ASTNode) (variants : list ASTNode)
| Variant (key : ASTNode) (value : list ASTNode) (default : bool)
| CallArguments (positional : list ASTNode) (named : list ASTNode)
| NamedArgument (name : string) (value : ASTNode)
| Identifier (name : string).

Record Pattern : Type := mkPattern { pat_elements : list ASTNode }.

(** A value of type [ast.Pattern | null | undefined]. *)
Inductive Nullable (A : Type) : Type :=
| Undefined
| Null
| Present (a : A).
Arguments Undefined {A}.
Arguments Null {A}.
Arguments Present {A} a.

Definition all2 {A B : Type} (f : A -> B -> bool) : list A -> list B -> bool :=
  fix go xs ys :=
    match xs, ys with
    | [], [] => true
    | x :: xs', y :: ys' => f x y && go xs' ys'
    | _, _ => false
    end.

Definition optEqb {A : Type} (f : A -> A -> bool) (x y : option A) : bool :=
  match x, y with
  | None, None => true
  | Some a, Some b => f a b
  | _, _ => false
  end.

(** Modelled from the spec: the structural-equality predicate that patterns
    expose ([BaseNode.equals] of the external parser library): same node type,
    scalar fields equal, child nodes equal, arrays equal element by element. *)
Fixpoint equals (a b : ASTNode) : bool :=
  match a, b with
  | TextElement v, TextElement w => String.eqb v w
  | Placeable e, Placeable f => equals e f
  | StringLiteral v, StringLiteral w => String.eqb v w
  | NumberLiteral v, NumberLiteral w => String.eqb v w
  | MessageReference i x, MessageReference j y =>
      String.eqb i j && optEqb String.eqb x y
  | TermReference i x u, TermReference j y v =>
      String.eqb i j && optEqb String.eqb x y
      && match u, v with
         | None, None => true
         | Some c, Some d => equals c d
         | _, _ => false
         end
  | VariableReference i, VariableReference j => String.eqb i j
  | FunctionReference i u, FunctionReference j v =>
      String.eqb i j && equals u v
  | SelectExpression s vs, SelectExpression t ws =>
      equals s t && all2 equals vs ws
  | Variant k v d, Variant l w e =>
      equals k l && all2 equals v w && Bool.eqb d e
  | CallArguments p n, CallArguments q m =>
      all2 equals p q && all2 equals n m
  | NamedArgument n v, NamedArgument m w => String.eqb n m && equals v w
  | Identifier n, Identifier m => String.eqb n m
  | _, _ => false
  end.

Definition patternEquals (p q : Pattern) : bool :=
  all2 equals (pat_elements p) (pat_elements q).

(** helpers.ts, [patternsEqual]: when either side is falsy the result is the
    strict identity of the two values, otherwise [pattern.equals(other)]. *)
Definition patternsEqual (pattern other : Nullable Pattern) : bool :=
  match pattern, other with
  | Present p, Present q => patternEquals p q
  | Undefined, Undefined => true
  | Null, Null => true
  | _, _ => false
  end.

(** The callers hold [ast.Pattern | undefined]. *)
Definition ofOption {A : Type} (o : option A) : Nullable A :=
  match o with
  | Some a => Present a
  | None => Undefined
  end.

(** ** Variable collection (FtlAnalyzer.ts, [collectVariables]) *)

(** [vars.add(x)] on a [Set<string>] kept in insertion order. *)
Definition setAdd (x : string) (xs : list string) : list string :=
  if existsb (String.eqb x) xs then xs else xs ++ [x].

Definition setHas (x : string) (xs : list string) : bool :=
  existsb (String.eqb x) xs.

(** [el.arguments.positional]. *)
Definition positionalOf (args : ASTNode) : list ASTNode :=
  match args with
  | CallArguments p _ => p
  | _ => []
  end.

(** The body of the [while] loop after [stack.pop()]: the [switch] on
    [el.type].  The head of the list is the top of the JavaScript array, so
    [stack.push(...xs)] prepends [rev xs]. *)
Definition collectStep (el : ASTNode) (stack : list ASTNode)
    (vars : list string) : list ASTNode * list string :=
  match el with
  | VariableReference id => (stack, setAdd id vars)
  | Placeable e => (e :: stack, vars)
  | FunctionReference _ args => (rev (positionalOf args) ++ stack, vars)
  | SelectExpression sel variants => (rev variants ++ sel :: stack, vars)
  | _ => (stack, vars)
  end.

Fixpoint collectLoop (fuel : nat) (stack : list ASTNode) (vars : list string)
    : option (list string) :=
  match stack with
  | [] => Some vars
  | el :: rest =>
      match fuel with
      | 0 => None
      | S fuel' =>
          let '(stack', vars') := collectStep el rest vars in
          collectLoop fuel' stack' vars'
      end
  end.

Fixpoint nodeSize (n : ASTNode) : nat :=
  match n with
  | Placeable e => S (nodeSize e)
  | TermReference _ _ (Some a) => S (nodeSize a)
  | FunctionReference _ a => S (nodeSize a)
  | SelectExpression s vs => S (nodeSize s + list_sum (map nodeSize vs))
  | Variant k v _ => S (nodeSize k + list_sum (map nodeSize v))
  | CallArguments p n =>
      S (list_sum (map nodeSize p) + list_sum (map nodeSize n))
  | NamedArgument _ v => S (nodeSize v)
  | _ => 1
  end.

Definition stackSize (stack : list ASTNode) : nat :=
  list_sum (map nodeSize stack).

(** The loop always empties the stack ([collectLoop_total] below), so the
    [None] branch is never taken. *)
Definition collectVariables (pattern : Nullable Pattern) : list string :=
  match pattern with
  | Present p =>
      let stack := rev (pat_elements p) in
      match collectLoop (stackSize stack) stack [] with
      | Some vars => vars
      | None => []
      end
  | _ => []
  end.

(** Specification side: [x] is the identifier of a variable reference
    somewhere in the tree below [n]. *)
Fixpoint occursVar (x : string) (n : ASTNode) : bool :=
  match n with
  | VariableReference id => String.eqb id x
  | Placeable e => occursVar x e
  | TermReference _ _ (Some a) => occursVar x a
  | FunctionReference _ a => occursVar x a
  | SelectExpression s vs => occursVar x s || existsb (occursVar x) vs
  | Variant k v _ => occursVar x k || existsb (occursVar x) v
  | CallArguments p n => existsb (occursVar x) p || existsb (occursVar x) n
  | NamedArgument _ v => occursVar x v
  | _ => false
  end.

Definition occursInPattern (x : string) (p : Pattern) : bool :=
  existsb (occursVar x) (pat_elements p).

(** ** Data model (types.ts) *)

Inductive TranslateType : Type := Required | Optional | Disallowed.

Definition TranslateType_eqb (a b : TranslateType) : bool :=
  match a, b with
  | Required, Required | Optional, Optional | Disallowed, Disallowed => true
  | _, _ => false
  end.

Inductive DiagnosticSeverity : Type := Error | Warning.

Record ISpan : Type := mkSpan { spanStart : Z; spanEnd : Z }.

Record IReportable : Type := mkReport {
  rep_code : string;
  rep_message : string;
  rep_span : ISpan
}.

Record DiagnosticRangeElement : Type := mkPos {
  line : Z;
  column : Z;
  index : Z
}.

Record DiagnosticRange : Type := mkRange {
  rangeStart : DiagnosticRangeElement;
  rangeEnd : DiagnosticRangeElement
}.

Record DiagnosticInfo : Type := mkDiag {
  severity : DiagnosticSeverity;
  message : string;
  code : string;
  uri : string;
  range : DiagnosticRange
}.

Record ParamInfo : Type := mkParam {
  param_id : string;
  param_required : bool;
  param_type : option string;
  param_comment : option string
}.

(** [Record<string, T>]: own properties in insertion order. *)
Definition Rec (T : Type) : Type := list (string * T).

Fixpoint recGet {T : Type} (k : string) (r : Rec T) : option T :=
  match r with
  | [] => None
  | (k', v) :: rest => if String.eqb k' k then Some v else recGet k rest
  end.

(** [r[k] = v]: an existing key keeps its position. *)
Fixpoint recSet {T : Type} (k : string) (v : T) (r : Rec T) : Rec T :=
  match r with
  | [] => [(k, v)]
  | (k', v') :: rest =>
      if String.eqb k' k then (k, v) :: rest else (k', v') :: recSet k v rest
  end.

Definition recValues {T : Type} (r : Rec T) : list T := map snd r.

Fixpoint recDelete {T : Type} (k : string) (r : Rec T) : Rec T :=
  match r with
  | [] => []
  | (k', v) :: rest =>
      if String.eqb k' k then recDelete k rest else (k', v) :: recDelete k rest
  end.

(** The property names of [Object.prototype]; each holds a function, but
    [__proto__], an accessor that returns [Object.prototype] itself when read
    on a plain object: all are truthy. *)
Definition protoMembers : list string :=
  ["constructor"; "__defineGetter__"; "__defineSetter__"; "hasOwnProperty";
   "__lookupGetter__"; "__lookupSetter__"; "isPrototypeOf";
   "propertyIsEnumerable"; "toString"; "valueOf"; "__proto__";
   "toLocaleString"].

Definition protoMember (k : string) : bool :=
  existsb (String.eqb k) protoMembers.

(** What [rec[k]] evaluates to on a plain object with the own properties
    [r]: an own value, a member of [Object.prototype], or [undefined]. *)
Inductive Lookup (T : Type) : Type :=
| Own (v : T)
| Inherited
| Missing.
Arguments Own {T} v.
Arguments Inherited {T}.
Arguments Missing {T}.

Definition objGet {T : Type} (k : string) (r : Rec T) : Lookup T :=
  match recGet k r with
  | Some v => Own v
  | None => if protoMember k then Inherited else Missing
  end.

(** The truthiness of [rec[k]]; the own values are objects. *)
Definition objHas {T : Type} (k : string) (r : Rec T) : bool :=
  match objGet k r with
  | Missing => false
  | _ => true
  end.

(** [ElementInfo<T>]: what attributes, messages and terms share. *)
Record ElementInfo (V : Type) : Type := mkElement {
  el_id : string;
  el_name : string;
  el_value : V;
  el_idSpan : ISpan;
  el_translate : TranslateType;
  el_expectIdentical : option bool;
  el_params : Rec ParamInfo;
  el_variables : list string
}.
Arguments mkElement {V}.
Arguments el_id {V}.
Arguments el_name {V}.
Arguments el_value {V}.
Arguments el_idSpan {V}.
Arguments el_translate {V}.
Arguments el_expectIdentical {V}.
Arguments el_params {V}.
Arguments el_variables {V}.

Definition AttributeInfo : Type := ElementInfo Pattern.

(** [BaseMessageInfo]: a message ([isTerm = false]) or a term. *)
Record MessageInfo : Type := mkMessage {
  base : ElementInfo (option Pattern);
  isTerm : bool;
  comment : option string;
  attributes : Rec AttributeInfo;
  ignoreAll : option bool;
  ignore : gset string
}.

Definition TermInfo : Type := MessageInfo.

(** [EntryInfo = MessageInfo | TermInfo | AttributeInfo]; only the first two
    carry the [isTerm] property. *)
Inductive EntryInfo : Type :=
| OfMessage (m : MessageInfo)
| OfAttribute (a : AttributeInfo).

Definition entry_id (e : EntryInfo) : string :=
  match e with OfMessage m => el_id (base m) | OfAttribute a => el_id a end.
Definition entry_name (e : EntryInfo) : string :=
  match e with OfMessage m => el_name (base m) | OfAttribute a => el_name a end.
Definition entry_idSpan (e : EntryInfo) : ISpan :=
  match e with
  | OfMessage m => el_idSpan (base m)
  | OfAttribute a => el_idSpan a
  end.
Definition entry_params (e : EntryInfo) : Rec ParamInfo :=
  match e with
  | OfMessage m => el_params (base m)
  | OfAttribute a => el_params a
  end.
Definition entry_variables (e : EntryInfo) : list string :=
  match e with
  | OfMessage m => el_variables (base m)
  | OfAttribute a => el_variables a
  end.

Record PathInfo : Type := mkPath {
  path_uri : string;
  absolute : string;
  relative : string
}.

Record FileInfo : Type := mkFile {
  file_name : string;
  file_path : PathInfo;
  content : string;
  terms : list TermInfo;
  messages : list MessageInfo;
  bundle : option string;
  file_ignore : option (gset string);
  hash : option Z
}.

Record FileGroup : Type := mkGroup {
  locale : string;
  files : Rec FileInfo
}.

Record FileCollection : Type := mkCollection {
  coll_path : PathInfo;
  groups : Rec FileGroup
}.

Record AnnotationItem : Type := mkAnnot {
  annot_name : string;
  annot_value : string
}.

Record ExtractedComment : Type := mkExtracted {
  ex_comment : string;
  ex_annotations : list AnnotationItem
}.

(** ** helpers.ts *)

(** [WarnCode = keyof typeof WARN_STRINGS]. *)
Inductive WarnCode : Type :=
| DoNotTranslate
| Identical
| Duplicate
| MismatchIdentical
| MismatchFileBundle
| UnknownFile
| UnknownMessage
| UnknownAttribute
| UnknownVariable
| MissingFile
| MissingMessage
| MissingAttribute
| MissingRequiredVariable
| AnnotationMissing
| AnnotationTypeMismatch.

Definition codeName (c : WarnCode) : string :=
  match c with
  | DoNotTranslate => "do-not-translate"
  | Identical => "identical"
  | Duplicate => "duplicate"
  | MismatchIdentical => "mismatch-identical"
  | MismatchFileBundle => "mismatch-file-bundle"
  | UnknownFile => "unknown-file"
  | UnknownMessage => "unknown-message"
  | UnknownAttribute => "unknown-attribute"
  | UnknownVariable => "unknown-variable"
  | MissingFile => "missing-file"
  | MissingMessage => "missing-message"
  | MissingAttribute => "missing-attribute"
  | MissingRequiredVariable => "missing-required-variable"
  | AnnotationMissing => "annotation-missing"
  | AnnotationTypeMismatch => "annotation-type-mismatch"
  end.

(** A template of [WARN_STRINGS], cut at its [{n}] placeholders. *)
Inductive Segment : Type :=
| Lit (s : string)
| Hole (n : nat).

Definition quote : string := String (ascii_of_nat 34) EmptyString.

Definition WARN_STRINGS (c : WarnCode) : list Segment :=
  match c with
  | DoNotTranslate =>
      [Hole 0; Lit (" " +:+ quote); Hole 1;
       Lit (quote +:+ " should not be translated")]
  | Identical =>
      [Hole 0; Lit (" " +:+ quote); Hole 1;
       Lit (quote +:+ " is identical to the source locale "); Hole 2]
  | Duplicate => [Lit "Duplicate "; Hole 0; Lit (" " +:+ quote); Hole 1; Lit quote]
  | MismatchIdentical =>
      [Hole 0; Lit (" " +:+ quote); Hole 1;
       Lit (quote +:+ " should be identical to the source locale "); Hole 2]
  | MismatchFileBundle =>
      [Lit "File "; Hole 0; Lit " is assigned to the "; Hole 1;
       Lit " bundle, but to the "; Hole 2; Lit " bundle in the source locale"]
  | UnknownFile =>
      [Lit "File "; Hole 0;
       Lit " does not have a corresponding file in the source locale"]
  | UnknownMessage =>
      [Lit ("Message " +:+ quote); Hole 0;
       Lit (quote +:+ " is defined here, but is not defined in the source locale")]
  | UnknownAttribute =>
      [Lit ("Attribute " +:+ quote); Hole 0;
       Lit (quote +:+ " is defined here, but is not defined in the source locale")]
  | UnknownVariable =>
      [Lit ("Variable " +:+ quote); Hole 0;
       Lit (quote +:+ " is used here, but is not used or declared in the source locale ");
       Hole 1]
  | MissingFile => [Lit "File "; Hole 0; Lit " is missing"]
  | MissingMessage =>
      [Lit ("Message " +:+ quote); Hole 0; Lit (quote +:+ " is missing")]
  | MissingAttribute =>
      [Lit ("Attribute " +:+ quote); Hole 0; Lit (quote +:+ " is missing")]
  | MissingRequiredVariable =>
      [Lit "Variable "; Hole 0; Lit " is required, but missing in "; Hole 1;
       Lit (" " +:+ quote); Hole 2; Lit quote]
  | AnnotationMissing =>
      [Lit ("Annotation " +:+ quote); Hole 0; Lit (quote +:+ " is missing for ");
       Hole 1; Lit (" " +:+ quote); Hole 2; Lit quote]
  | AnnotationTypeMismatch =>
      [Lit ("Annotation " +:+ quote); Hole 0;
       Lit (quote +:+ " type does not match the source locale for "); Hole 1;
       Lit (" " +:+ quote); Hole 2; Lit quote]
  end.

Definition WARN_ADD_LOWER (c : WarnCode) : bool :=
  match c with
  | Identical | MismatchIdentical => true
  | _ => false
  end.

Definition digit (n : nat) : string :=
  String (ascii_of_nat (48 + n)) EmptyString.

(** The replacer [(match, index) => args[parseInt(index)] || match]. *)
Definition fillHole (args : list string) (n : nat) : string :=
  match nth_error args n with
  | Some a => if Js.truthy a then a else "{" +:+ digit n +:+ "}"
  | None => "{" +:+ digit n +:+ "}"
  end.

Definition render (args : list string) (t : list Segment) : string :=
  fold_right
    (fun seg acc =>
       match seg with
       | Lit s => s +:+ acc
       | Hole n => fillHole args n +:+ acc
       end) EmptyString t.

Definition createWarning (c : WarnCode) (span : ISpan) (args : list string)
    : IReportable :=
  let args :=
    if WARN_ADD_LOWER c
    then args ++ [Js.toLowerCase (nth 0 args EmptyString)]
    else args in
  mkReport (codeName c) (render args (WARN_STRINGS c)) span.

Definition getBundleDisplay (bundle : option string) : string :=
  match bundle with
  | Some EmptyString => "global"
  | None => "default"
  | Some b => quote +:+ b +:+ quote
  end.

Definition dashChar : ascii := ascii_of_nat 45.
Definition spaceChar : ascii := ascii_of_nat 32.
Definition hashChar : ascii := ascii_of_nat 35.
Definition commaChar : ascii := ascii_of_nat 44.
Definition newlineChar : ascii := ascii_of_nat 10.

Definition getWarningCategory (code : string) : string :=
  if String.eqb code "do-not-translate" then code
  else match Js.indexOf dashChar code with
       | None => code
       | Some dash => Js.take dash code
       end.

(** The matches of [REGEXP_LINE = /[^\n]*\n|[^\n]+/g]: every line with its
    terminating newline, and a last unterminated line when it is not empty. *)
Fixpoint matchLines (s : string) : list string :=
  match s with
  | EmptyString => []
  | String c rest =>
      if Ascii.eqb c newlineChar then String c EmptyString :: matchLines rest
      else match matchLines rest with
           | [] => [String c EmptyString]
           | l :: ls => String c l :: ls
           end
  end.

Definition readAnnotsStep (acc : list string * list AnnotationItem)
    (m : string) : list string * list AnnotationItem :=
  let '(lines, annotations) := acc in
  if negb (Js.startsWith "@" m) then (lines ++ [m], annotations)
  else
    let space := Js.indexOf spaceChar m in
    let name :=
      match space with
      | Some n => Js.take n m
      | None => Js.trimEnd m
      end in
    let value :=
      match space with
      | Some n => Js.trim (Js.drop (n + 1) m)
      | None => EmptyString
      end in
    (lines, annotations ++ [mkAnnot name value]).

Definition readAnnots (content : string) : ExtractedComment :=
  let '(lines, annotations) :=
    fold_left readAnnotsStep (matchLines content) ([], []) in
  let comment :=
    match lines with
    | [] => EmptyString
    | _ => Js.trim (Js.join (String newlineChar EmptyString) lines)
    end in
  mkExtracted comment annotations.

(** The loop of [getLineAndCol], run for [n] indices from the head of
    [text]; beyond the end of the text only the column advances. *)
Fixpoint lineAndColLoop (n : nat) (text : string) (ln col : Z) : Z * Z :=
  match n with
  | 0 => (ln, col)
  | S k =>
      match text with
      | String c rest =>
          if Ascii.eqb c newlineChar
          then lineAndColLoop k rest (ln + 1) 1
          else lineAndColLoop k rest ln (col + 1)
      | EmptyString => lineAndColLoop k EmptyString ln (col + 1)
      end
  end.

Definition getLineAndCol (text : string) (idx : Z) : Z * Z :=
  lineAndColLoop (Z.to_nat idx) text 1 1.

Definition spanToRange (span : ISpan) (content : string) : DiagnosticRange :=
  let len := Z.of_nat (String.length content) in
  let start :=
    if (spanStart span <? 0)%Z then (len + spanStart span)%Z
    else spanStart span in
  let end_ :=
    if (spanEnd span <? 0)%Z then (len + spanEnd span)%Z else spanEnd span in
  let '(startLine, startCol) := getLineAndCol content start in
  let '(endLine, endCol) := getLineAndCol content end_ in
  mkRange (mkPos startLine startCol start) (mkPos endLine endCol end_).

(** ** The diagnostic store ([FtlAnalyzer.diagnostics]) *)

Definition Store : Type := Rec (list DiagnosticInfo).

(** [getOrDefault(this.diagnostics, uri, []).push(d)]. *)
Definition addDiagnosticTo (d : DiagnosticInfo) (m : Store) : Store :=
  match recGet (uri d) m with
  | Some l => recSet (uri d) (l ++ [d]) m
  | None => recSet (uri d) [d] m
  end.

Definition addDiagnostics (ds : list DiagnosticInfo) (m : Store) : Store :=
  fold_left (fun acc d => addDiagnosticTo d acc) ds m.

Record Analyzer : Type := mkAnalyzer {
  sourceLocale : string;
  diagnostics : Store;
  engineIgnore : gset string;
  useRelativePaths : bool
}.

Definition withDiagnostics (a : Analyzer) (m : Store) : Analyzer :=
  mkAnalyzer (sourceLocale a) m (engineIgnore a) (useRelativePaths a).

Definition emit (ds : list DiagnosticInfo) (a : Analyzer) : Analyzer :=
  withDiagnostics a (addDiagnostics ds (diagnostics a)).

Definition getDiagnostics (a : Analyzer) : list DiagnosticInfo :=
  concat (recValues (diagnostics a)).

Definition getDiagnosticsForUri (a : Analyzer) (u : string)
    : list DiagnosticInfo :=
  match recGet u (diagnostics a) with
  | Some l => l
  | None => []
  end.

(** [addDiagnostic]: the record pushed for a report on a file. *)
Definition addDiagnostic (sev : DiagnosticSeverity) (file : FileInfo)
    (report : IReportable) : DiagnosticInfo :=
  mkDiag sev (rep_message report) (rep_code report)
    (path_uri (file_path file))
    (spanToRange (rep_span report) (content file)).

Definition addError (file : FileInfo) (report : IReportable)
    : list DiagnosticInfo :=
  [addDiagnostic Error file report].

Definition addWarning (file : FileInfo) (c : WarnCode) (span : ISpan)
    (args : list string) : list DiagnosticInfo :=
  [addDiagnostic Warning file (createWarning c span args)].

(** [shouldIgnore(code, ...ignoreSets)] after [ignoreSets.push(this.ignore)]. *)
Definition shouldIgnore (a : Analyzer) (code : string)
    (ignoreSets : list (gset string)) : bool :=
  let cat := getWarningCategory code in
  existsb (fun s => bool_decide (code ∈ s) || bool_decide (cat ∈ s))
    (ignoreSets ++ [engineIgnore a]).

Definition isTrue (o : option bool) : bool :=
  match o with
  | Some b => b
  | None => false
  end.

(** [addEntryWarning]: the ignore checks apply to entries that have an
    [isTerm] property, that is to messages and terms. *)
Definition addEntryWarning (a : Analyzer) (file : FileInfo) (entry : EntryInfo)
    (c : WarnCode) (args : list string) : list DiagnosticInfo :=
  let push :=
    [addDiagnostic Warning file (createWarning c (entry_idSpan entry) args)] in
  match entry with
  | OfMessage m =>
      if isTrue (ignoreAll m) then []
      else if shouldIgnore a (codeName c) [ignore m] then []
      else push
  | OfAttribute _ => push
  end.

(** ** What the analyzer consumes from its environment *)

Record IdNode : Type := mkId { id_name : string; id_span : ISpan }.

Record AttributeNode : Type := mkAttrNode {
  an_id : IdNode;
  an_value : Pattern
}.

(** A parsed [ast.Message] or [ast.Term]: [en_value] is [null] for a message
    without a value, [en_comment] is the content of the attached comment. *)
Record EntryNode : Type := mkEntryNode {
  en_id : IdNode;
  en_value : option Pattern;
  en_attributes : list AttributeNode;
  en_comment : option string
}.

Inductive Entry : Type :=
| MessageEntry (n : EntryNode)
| TermEntry (n : EntryNode)
| ResourceCommentEntry (content : string)
| JunkEntry (annotations : list IReportable)
| CommentEntry (content : string).

(** The captures of a successful match of [REGEXP_PARAM] or
    [REGEXP_PARAM_ATTR]; the type capture sits in an optional group and is
    [undefined] when that group does not take part in the match. *)
Record ParamMatch : Type := mkParamMatch {
  pm_attr : string;
  pm_id : string;
  pm_optional : string;
  pm_type : option string;
  pm_rest : string
}.

(** Services of the runtime and of the libraries the analyzer imports:
    [fs.readFile] addressed by file URI ([None] when it throws),
    [ast.parse(content, {withSpans: true}).body], [murmurhash.v3],
    [value.match] against the two parameter patterns, [path.dirname] and the
    three-argument [path.join]. *)
Record Host : Type := mkHost {
  readFile : string -> option string;
  parseResource : string -> list Entry;
  murmurhash : string -> Z;
  matchParam : bool -> string -> option ParamMatch;
  dirname : string -> string;
  join3 : string -> string -> string -> string
}.

Record AnnotationState : Type := mkState {
  st_translate : TranslateType;
  st_bundle : option string;
  st_global : option bool;
  st_ignore : gset string;
  st_ignoreAll : option bool
}.

(** ** Field updates *)

Definition setTranslate {V : Type} (t : TranslateType) (e : ElementInfo V)
    : ElementInfo V :=
  mkElement (el_id e) (el_name e) (el_value e) (el_idSpan e) t
    (el_expectIdentical e) (el_params e) (el_variables e).

Definition setExpectIdentical {V : Type} (b : bool) (e : ElementInfo V)
    : ElementInfo V :=
  mkElement (el_id e) (el_name e) (el_value e) (el_idSpan e) (el_translate e)
    (Some b) (el_params e) (el_variables e).

Definition setParam {V : Type} (k : string) (p : ParamInfo) (e : ElementInfo V)
    : ElementInfo V :=
  mkElement (el_id e) (el_name e) (el_value e) (el_idSpan e) (el_translate e)
    (el_expectIdentical e) (recSet k p (el_params e)) (el_variables e).

Definition withBase (f : ElementInfo (option Pattern) ->
                         ElementInfo (option Pattern))
    (m : MessageInfo) : MessageInfo :=
  mkMessage (f (base m)) (isTerm m) (comment m) (attributes m) (ignoreAll m)
    (ignore m).

Definition withAttributes (attrs : Rec AttributeInfo) (m : MessageInfo)
    : MessageInfo :=
  mkMessage (base m) (isTerm m) (comment m) attrs (ignoreAll m) (ignore m).

Definition withComment (c : string) (m : MessageInfo) : MessageInfo :=
  mkMessage (base m) (isTerm m) (Some c) (attributes m) (ignoreAll m)
    (ignore m).

Definition withIgnore (i : gset string) (all : option bool) (m : MessageInfo)
    : MessageInfo :=
  mkMessage (base m) (isTerm m) (comment m) (attributes m) all i.

Definition stateWithIgnore (i : gset string) (all : option bool)
    (s : AnnotationState) : AnnotationState :=
  mkState (st_translate s) (st_bundle s) (st_global s) i all.

Definition stateWithTranslate (t : TranslateType) (s : AnnotationState)
    : AnnotationState :=
  mkState t (st_bundle s) (st_global s) (st_ignore s) (st_ignoreAll s).

Definition stateWithBundle (b : option string) (s : AnnotationState)
    : AnnotationState :=
  mkState (st_translate s) b (st_global s) (st_ignore s) (st_ignoreAll s).

Definition stateWithGlobal (s : AnnotationState) : AnnotationState :=
  mkState (st_translate s) (st_bundle s) (Some true) (st_ignore s)
    (st_ignoreAll s).

(** ** How a call of the first pass ended

    [Normal a]: the call returned, in state [a]. [Stopped Exception a]: it
    threw, in state [a]. [Stopped PrototypeWrite a]: in state [a] it assigned
    a property to a member of [Object.prototype]; what the program does from
    there on is not described. *)
Inductive Reason : Type :=
| Exception
| PrototypeWrite.

Inductive Completion (A : Type) : Type :=
| Normal (a : A)
| Stopped (why : Reason) (a : A).
Arguments Normal {A} a.
Arguments Stopped {A} why a.

Definition outcome {A : Type} (c : Completion A) : A :=
  match c with
  | Normal a => a
  | Stopped _ a => a
  end.

(** ** Annotation handling (FtlAnalyzer.ts) *)

(** [handleDiagnosticAnnotation] on the two fields of the target it touches,
    [ignore] and [ignoreAll]. *)
Definition handleDiagnosticAnnotation (target : gset string * option bool)
    (annot : AnnotationItem) : gset string * option bool :=
  let value := annot_value annot in
  let space := Js.indexOf spaceChar value in
  let firstWord :=
    match space with
    | Some n => Js.take n value
    | None => value
    end in
  let enable := String.eqb firstWord "enable" in
  let value :=
    Js.trim (Js.drop (match space with Some n => n + 1 | None => 0 end) value) in
  if negb enable && negb (String.eqb firstWord "disable") then target
  else
    let sliceEnd := Js.indexOf hashChar value in
    let value :=
      Js.trim (match sliceEnd with
               | Some n => Js.take n value
               | None => value
               end) in
    let all :=
      if String.eqb value EmptyString then Some (negb enable)
      else snd target in
    let list := List.filter Js.truthy
                  (map Js.trim (Js.split commaChar value)) in
    if enable
    then (fold_left (fun s x => {[x]} ∪ s) list (fst target), all)
    else (fold_left (fun s x => s ∖ {[x]}) list (fst target), all).

Definition emptyToNone (s : string) : option string :=
  if String.eqb s EmptyString then None else Some s.

(** [handleParamAnnotation]. It throws a [TypeError] in two places: [trim]
    called on an [undefined] capture, and [attr.params[id] = param] when
    [info.attributes[attrName]] is a member of [Object.prototype], which has
    no [params]. *)
Definition handleParamAnnotation (h : Host) (info : MessageInfo)
    (annot : AnnotationItem) : Completion MessageInfo :=
  let isAttr := String.eqb (annot_name annot) "@param-attribute" in
  match matchParam h isAttr (annot_value annot) with
  | None => Normal info
  | Some matches =>
      let id := pm_id matches in
      let required := negb (String.eqb (pm_optional matches) "?") in
      match pm_type matches with
      | None => Stopped Exception info
      | Some ty =>
          let type := Js.trim ty in
          let cmt := Js.trim (pm_rest matches) in
          let param := mkParam id required (emptyToNone type) (emptyToNone cmt) in
          if negb isAttr || negb (Js.truthy (pm_attr matches))
          then Normal (withBase (setParam id param) info)
          else
            match objGet (pm_attr matches) (attributes info) with
            | Own attr =>
                Normal (withAttributes
                          (recSet (pm_attr matches) (setParam id param attr)
                             (attributes info)) info)
            | Inherited => Stopped Exception info
            | Missing => Normal info
            end
      end
  end.

(** The property written by [handleTargetedAnnotation]. *)
Inductive TargetedProp : Type :=
| PropExpectIdentical
| PropTranslate (t : TranslateType).

Definition setProp {V : Type} (p : TargetedProp) (e : ElementInfo V)
    : ElementInfo V :=
  match p with
  | PropExpectIdentical => setExpectIdentical true e
  | PropTranslate t => setTranslate t e
  end.

Definition targetedProp (name : string) : option TargetedProp :=
  if String.eqb name "@expect-identical" then Some PropExpectIdentical
  else if String.eqb name "@translate" then Some (PropTranslate Required)
  else if String.eqb name "@do-not-translate" then Some (PropTranslate Disallowed)
  else if String.eqb name "@translate-optional" then Some (PropTranslate Optional)
  else None.

(** [handleTargetedAnnotation]. An unknown annotation name raises the
    [Bad argument] error. For a target that names no attribute of the entry
    but a member of [Object.prototype], [attr] is what the entry inherits
    under that name, and [attr[prop] = value] writes to it. *)
Definition handleTargetedAnnotation (info : MessageInfo)
    (annot : AnnotationItem) : Completion MessageInfo :=
  match targetedProp (annot_name annot) with
  | None => Stopped Exception info
  | Some prop =>
      let annotValue := annot_value annot in
      let annotValue :=
        Js.trim (match Js.indexOf hashChar annotValue with
                 | Some n => Js.take n annotValue
                 | None => annotValue
                 end) in
      if String.eqb annotValue EmptyString
      then Normal (withBase (setProp prop) info)
      else if String.eqb annotValue "*"
      then Normal (withAttributes
                     (map (fun kv => (fst kv, setProp prop (snd kv)))
                        (attributes info)) info)
      else match objGet annotValue (attributes info) with
           | Own attr =>
               Normal (withAttributes
                         (recSet annotValue (setProp prop attr)
                            (attributes info))
                         info)
           | Inherited => Stopped PrototypeWrite info
           | Missing => Normal info
           end
  end.

Definition handleEntryAnnotation (h : Host) (info : MessageInfo)
    (annot : AnnotationItem) : Completion MessageInfo :=
  let name := annot_name annot in
  if String.eqb name "@diagnostic" then
    let '(i, all) :=
      handleDiagnosticAnnotation (ignore info, ignoreAll info) annot in
    Normal (withIgnore i all info)
  else if String.eqb name "@param" || String.eqb name "@param-attribute" then
    handleParamAnnotation h info annot
  else if String.eqb name "@expect-identical" then
    handleTargetedAnnotation info annot
  else if String.eqb name "@translate" || String.eqb name "@do-not-translate"
          || String.eqb name "@translate-optional" then
    handleTargetedAnnotation info annot
  else Normal info.

Fixpoint handleEntryAnnotations (h : Host) (info : MessageInfo)
    (annotations : list AnnotationItem) : Completion MessageInfo :=
  match annotations with
  | [] => Normal info
  | annot :: rest =>
      match handleEntryAnnotation h info annot with
      | Normal info' => handleEntryAnnotations h info' rest
      | Stopped why info' => Stopped why info'
      end
  end.

Definition handleResourceAnnotation (state : AnnotationState)
    (annot : AnnotationItem) : AnnotationState :=
  let name := annot_name annot in
  if String.eqb name "@diagnostic" then
    let '(i, all) :=
      handleDiagnosticAnnotation (st_ignore state, st_ignoreAll state) annot in
    stateWithIgnore i all state
  else if String.eqb name "@global" then stateWithGlobal state
  else if String.eqb name "@bundle" then
    stateWithBundle (emptyToNone (annot_value annot)) state
  else if String.eqb name "@translate" then stateWithTranslate Required state
  else if String.eqb name "@do-not-translate" then
    stateWithTranslate Disallowed state
  else if String.eqb name "@translate-optional" then
    stateWithTranslate Optional state
  else state.

Definition handleResourceAnnotations (state : AnnotationState)
    (annotations : list AnnotationItem) : AnnotationState :=
  fold_left handleResourceAnnotation annotations state.

(** ** The first pass: [convertMessage], [parse], [read], [readGroup] *)

Definition ofNull {A : Type} (o : option A) : Nullable A :=
  match o with
  | Some a => Present a
  | None => Null
  end.

Definition convertAttribute (name : string) (state : AnnotationState)
    (attr : AttributeNode) : AttributeInfo :=
  mkElement (id_name (an_id attr))
    (name +:+ "." +:+ id_name (an_id attr))
    (an_value attr)
    (id_span (an_id attr))
    (st_translate state)
    None
    []
    (collectVariables (Present (an_value attr))).

(** The reducer over [entry.attributes]: the record built so far and the
    duplicate warnings pushed so far. *)
Definition convertAttributesStep (a : Analyzer) (file : FileInfo)
    (name : string) (state : AnnotationState)
    (acc : Rec AttributeInfo * list DiagnosticInfo) (attr : AttributeNode)
    : Rec AttributeInfo * list DiagnosticInfo :=
  let '(rec, ds) := acc in
  let attrInfo := convertAttribute name state attr in
  let warn :=
    if objHas (el_id attrInfo) rec
    then addEntryWarning a file (OfAttribute attrInfo) Duplicate
           ["attribute"; el_name attrInfo]
    else [] in
  (recSet (el_id attrInfo) attrInfo rec, ds ++ warn).

(** [convertMessage]: the diagnostics pushed, and the record built, or the
    record as it was when an annotation handler stopped. *)
Definition convertMessage (h : Host) (a : Analyzer) (file : FileInfo)
    (entry : EntryNode) (state : AnnotationState) (term : bool)
    : list DiagnosticInfo * Completion MessageInfo :=
  let span := id_span (en_id entry) in
  let ignore := st_ignore state in
  let name :=
    if term then "-" +:+ id_name (en_id entry) else id_name (en_id entry) in
  let '(attrs, ds) :=
    fold_left (convertAttributesStep a file name state) (en_attributes entry)
      ([], []) in
  let info :=
    mkMessage
      (mkElement (id_name (en_id entry)) name (en_value entry)
         (mkSpan (if term then (spanStart span - 1)%Z else spanStart span)
            (spanEnd span))
         (st_translate state) None []
         (collectVariables (ofNull (en_value entry))))
      term None attrs None ignore in
  match en_comment entry with
  | None => (ds, Normal info)
  | Some text =>
      let extracted := readAnnots text in
      match handleEntryAnnotations h info (ex_annotations extracted) with
      | Stopped why info' => (ds, Stopped why info')
      | Normal info' =>
          (ds, Normal (if Js.truthy (ex_comment extracted)
                       then withComment (ex_comment extracted) info'
                       else info'))
      end
  end.

Definition withParsed (c : string) (hs : Z) (f : FileInfo) : FileInfo :=
  mkFile (file_name f) (file_path f) c (terms f) (messages f) (bundle f)
    (file_ignore f) (Some hs).

Definition pushTerm (t : TermInfo) (f : FileInfo) : FileInfo :=
  mkFile (file_name f) (file_path f) (content f) (terms f ++ [t]) (messages f)
    (bundle f) (file_ignore f) (hash f).

Definition pushMessage (m : MessageInfo) (f : FileInfo) : FileInfo :=
  mkFile (file_name f) (file_path f) (content f) (terms f) (messages f ++ [m])
    (bundle f) (file_ignore f) (hash f).

Definition withBundle (b : option string) (f : FileInfo) : FileInfo :=
  mkFile (file_name f) (file_path f) (content f) (terms f) (messages f) b
    (file_ignore f) (hash f).

(** [file.ignore ??= new Set(); file.ignore.add(x)]. *)
Definition addFileIgnore (x : string) (f : FileInfo) : FileInfo :=
  mkFile (file_name f) (file_path f) (content f) (terms f) (messages f)
    (bundle f)
    (Some ({[x]} ∪ match file_ignore f with Some s => s | None => ∅ end))
    (hash f).

(** [parse] with [content] left out by the caller: the file with its new
    content and hash, and the entries; [None] when the file cannot be read. *)
Definition parse (h : Host) (file : FileInfo)
    : option (FileInfo * list Entry) :=
  match readFile h (path_uri (file_path file)) with
  | None => None
  | Some text =>
      Some (withParsed text (murmurhash h text) file, parseResource h text)
  end.

(** The [for] loop of [read] over the parsed entries. *)
Fixpoint readEntries (h : Host) (a : Analyzer) (entries : list Entry)
    (state : AnnotationState) (file : FileInfo) (ds : list DiagnosticInfo)
    : Completion (AnnotationState * FileInfo * list DiagnosticInfo) :=
  match entries with
  | [] => Normal (state, file, ds)
  | entry :: rest =>
      match entry with
      | TermEntry n =>
          match convertMessage h a file n state true with
          | (ws, Normal t) =>
              readEntries h a rest state (pushTerm t file) (ds ++ ws)
          | (ws, Stopped why _) => Stopped why (state, file, ds ++ ws)
          end
      | MessageEntry n =>
          match convertMessage h a file n state false with
          | (ws, Normal m) =>
              readEntries h a rest state (pushMessage m file) (ds ++ ws)
          | (ws, Stopped why _) => Stopped why (state, file, ds ++ ws)
          end
      | ResourceCommentEntry text =>
          readEntries h a rest
            (handleResourceAnnotations state (ex_annotations (readAnnots text)))
            file ds
      | JunkEntry annotations =>
          readEntries h a rest state file
            (ds ++ flat_map (addError file) annotations)
      | CommentEntry _ => readEntries h a rest state file ds
      end
  end.

(** The tail of [read]: bundle and file-level ignores from the final state. *)
Definition finishRead (state : AnnotationState) (file : FileInfo) : FileInfo :=
  let file :=
    if isTrue (st_global state) then withBundle (Some EmptyString) file
    else match st_bundle state with
         | Some b => if Js.truthy b then withBundle (Some b) file else file
         | None => file
         end in
  let ignoreUnknownFile :=
    isTrue (st_ignoreAll state)
    || bool_decide ("unknown-file" ∈ st_ignore state)
    || bool_decide ("unknown" ∈ st_ignore state) in
  let file := if ignoreUnknownFile then addFileIgnore "unknown-file" file else file in
  let ignoreMissingFile :=
    isTrue (st_ignoreAll state)
    || negb (TranslateType_eqb (st_translate state) Required)
    || bool_decide ("missing-file" ∈ st_ignore state)
    || bool_decide ("missing" ∈ st_ignore state) in
  if ignoreMissingFile then addFileIgnore "missing-file" file else file.

Definition initialState : AnnotationState :=
  mkState Required None None ∅ None.

Definition read (h : Host) (a : Analyzer) (file : FileInfo)
    : Completion (Analyzer * FileInfo) :=
  let a := withDiagnostics a (recDelete (path_uri (file_path file)) (diagnostics a)) in
  match parse h file with
  | None => Normal (a, file)
  | Some (file, entries) =>
      match readEntries h a entries initialState file [] with
      | Normal (state, file, ds) => Normal (emit ds a, finishRead state file)
      | Stopped why (_, file, ds) => Stopped why (emit ds a, file)
      end
  end.

(** [readGroup]: the files of the group are read in order and updated in
    place; a call that stops leaves the remaining files unread. *)
Fixpoint readFiles (h : Host) (a : Analyzer) (done todo : Rec FileInfo)
    : Completion (Analyzer * Rec FileInfo) :=
  match todo with
  | [] => Normal (a, done)
  | (k, file) :: rest =>
      match read h a file with
      | Normal (a', file') => readFiles h a' (done ++ [(k, file')]) rest
      | Stopped why (a', file') => Stopped why (a', done ++ (k, file') :: rest)
      end
  end.

Definition readGroup (h : Host) (a : Analyzer) (group : FileGroup)
    : Completion (Analyzer * FileGroup) :=
  match readFiles h a [] (files group) with
  | Normal (a', fs) => Normal (a', mkGroup (locale group) fs)
  | Stopped why (a', fs) => Stopped why (a', mkGroup (locale group) fs)
  end.

(** The first loop of [processCollection]. *)
Fixpoint readGroups (h : Host) (a : Analyzer) (done todo : Rec FileGroup)
    : Completion (Analyzer * Rec FileGroup) :=
  match todo with
  | [] => Normal (a, done)
  | (k, group) :: rest =>
      match readGroup h a group with
      | Normal (a', group') => readGroups h a' (done ++ [(k, group')]) rest
      | Stopped why (a', group') =>
          Stopped why (a', done ++ (k, group') :: rest)
      end
  end.

(** ** The diagnostic engine *)

Definition getDisplayPath (a : Analyzer) (file : FileInfo) : string :=
  if useRelativePaths a then relative (file_path file)
  else absolute (file_path file).

Definition fileIgnores (code : string) (file : FileInfo) : bool :=
  match file_ignore file with
  | Some s => bool_decide (code ∈ s)
  | None => false
  end.

Definition addMissingFileWarning (h : Host) (a : Analyzer) (srcFile : FileInfo)
    (loc : string) : list DiagnosticInfo :=
  if fileIgnores "missing-file" srcFile then []
  else addWarning srcFile MissingFile (mkSpan 0 0)
         [join3 h (dirname h (dirname h (getDisplayPath a srcFile))) loc
            (file_name srcFile +:+ ".ftl")].

Definition addMissingMessageWarning (file : FileInfo) (msg : MessageInfo)
    : list DiagnosticInfo :=
  if fileIgnores "missing-message" file then []
  else if negb (TranslateType_eqb (el_translate (base msg)) Required) then []
  else addWarning file MissingMessage (mkSpan (-1) (-1)) [el_name (base msg)].

Definition addUnknownFileWarning (a : Analyzer) (file : FileInfo)
    : list DiagnosticInfo :=
  if fileIgnores "unknown-file" file then []
  else addWarning file UnknownFile (mkSpan 0 0) [getDisplayPath a file].

Definition isSome {A : Type} (o : option A) : bool :=
  match o with
  | Some _ => true
  | None => false
  end.

Definition paramLabel (isAttr : bool) (entry : EntryInfo) (x : string)
    : string :=
  if isAttr then "@param-attribute " +:+ entry_id entry +:+ " $" +:+ x
  else "@param $" +:+ x.

(** [checkParams], first loop: overlay the entry's own parameters. An
    inherited [srcParam] is truthy and has no [type]. *)
Definition overlayParam (a : Analyzer) (file : FileInfo) (entry : EntryInfo)
    (isAttr : bool) (acc : Rec ParamInfo * list DiagnosticInfo)
    (param : ParamInfo) : Rec ParamInfo * list DiagnosticInfo :=
  let '(params, ds) := acc in
  let type := if isAttr then "attribute" else "message" in
  let mismatch :=
    addEntryWarning a file entry AnnotationTypeMismatch
      [paramLabel isAttr entry (param_id param); type; entry_name entry] in
  let warn :=
    match objGet (param_id param) params with
    | Own srcParam =>
        if bool_decide (param_type srcParam = param_type param) then []
        else mismatch
    | Inherited => if isSome (param_type param) then mismatch else []
    | Missing => []
    end in
  (recSet (param_id param) param params, ds ++ warn).

(** [checkParams], second loop: one referenced variable. *)
Definition checkVariable (a : Analyzer) (file : FileInfo) (entry : EntryInfo)
    (srcEntry : option EntryInfo) (isSrc isAttr : bool) (params : Rec ParamInfo)
    (variable : string) : list DiagnosticInfo :=
  let type := if isAttr then "attribute" else "message" in
  (if isSrc && negb (objHas variable params)
   then addEntryWarning a file entry AnnotationMissing
          [paramLabel isAttr entry variable; type; entry_name entry]
   else [])
  ++
  match srcEntry with
  | None => []
  | Some src =>
      if isSrc then []
      else if negb (setHas variable (entry_variables src))
              && negb (objHas variable params)
      then addEntryWarning a file entry UnknownVariable
             ["$" +:+ variable; type]
      else []
  end.

(** [checkParams], third loop: one effective parameter. *)
Definition checkRequired (a : Analyzer) (file : FileInfo) (entry : EntryInfo)
    (isAttr : bool) (param : ParamInfo) : list DiagnosticInfo :=
  let type := if isAttr then "attribute" else "message" in
  if negb (param_required param) || setHas (param_id param) (entry_variables entry)
  then []
  else addEntryWarning a file entry MissingRequiredVariable
         ["$" +:+ param_id param; type; entry_name entry].

(** [checkParams] for a [srcEntry] that is an entry or [undefined]. *)
Definition checkParams (a : Analyzer) (file : FileInfo) (entry : EntryInfo)
    (srcEntry : option EntryInfo) (isSrc isAttr : bool)
    : list DiagnosticInfo :=
  let params0 :=
    match srcEntry with
    | Some src =>
        fold_left (fun r p => recSet (param_id p) p r)
          (recValues (entry_params src)) []
    | None => []
    end in
  let '(params, ds) :=
    fold_left (overlayParam a file entry isAttr)
      (recValues (entry_params entry)) (params0, []) in
  ds
  ++ flat_map (checkVariable a file entry srcEntry isSrc isAttr params)
       (entry_variables entry)
  ++ flat_map (checkRequired a file entry isAttr) (recValues params).

(** ** How a run of checks of the second pass ended

    [Completed ds]: the call returned after pushing [ds]. [Raised ds u]: it
    threw after pushing [ds]; [u] is the URI whose list of diagnostics the
    throwing call had fetched with [getOrDefault], which stores an empty list
    under a new key, if it had fetched one. *)
Inductive Run : Type :=
| Completed (ds : list DiagnosticInfo)
| Raised (ds : list DiagnosticInfo) (touched : option string).

Definition pushed (r : Run) : list DiagnosticInfo :=
  match r with
  | Completed ds => ds
  | Raised ds _ => ds
  end.

(** [r1] and, if it returns, [r2]. *)
Definition andThen (r1 r2 : Run) : Run :=
  match r1 with
  | Completed ds1 =>
      match r2 with
      | Completed ds2 => Completed (ds1 ++ ds2)
      | Raised ds2 u => Raised (ds1 ++ ds2) u
      end
  | Raised _ _ => r1
  end.

(** A [for] loop whose body is [f]. *)
Definition forEach {A : Type} (f : A -> Run) (l : list A) : Run :=
  fold_right (fun x r => andThen (f x) r) (Completed []) l.

(** [checkMessageParams]. When [srcAttributes[attr.id]] is a member of
    [Object.prototype], [checkParams] takes it for a source entry and throws
    on [Object.values(srcEntry.params)], before any push. *)
Definition checkMessageParams (a : Analyzer) (file : FileInfo)
    (msg : MessageInfo) (srcMessage : option MessageInfo) (isSrc : bool)
    : Run :=
  let srcAttributes :=
    match srcMessage with
    | Some s => attributes s
    | None => []
    end in
  andThen
    (Completed
       (checkParams a file (OfMessage msg) (option_map OfMessage srcMessage)
          isSrc false))
    (forEach
       (fun attr : AttributeInfo =>
          match objGet (el_id attr) srcAttributes with
          | Own srcAttr =>
              Completed
                (checkParams a file (OfAttribute attr)
                   (Some (OfAttribute srcAttr)) isSrc true)
          | Inherited => Raised [] None
          | Missing =>
              Completed (checkParams a file (OfAttribute attr) None isSrc true)
          end)
       (recValues (attributes msg))).

(** [checkSourceGroup], the loop over [file.messages], from the set of the
    ids seen so far. *)
Fixpoint checkSourceMessages (a : Analyzer) (file : FileInfo)
    (seenMessages : gset string) (msgs : list MessageInfo) : Run :=
  match msgs with
  | [] => Completed []
  | msg :: rest =>
      andThen
        (Completed
           (if bool_decide (el_id (base msg) ∈ seenMessages)
            then addEntryWarning a file (OfMessage msg) Duplicate
                   ["message"; el_name (base msg)]
            else []))
        (andThen (checkMessageParams a file msg None true)
           (checkSourceMessages a file ({[el_id (base msg)]} ∪ seenMessages)
              rest))
  end.

(** [checkSourceGroup], the loop over [file.terms]: the ids seen and the
    diagnostics pushed. *)
Definition checkSourceTerm (a : Analyzer) (file : FileInfo)
    (acc : gset string * list DiagnosticInfo) (term : TermInfo)
    : gset string * list DiagnosticInfo :=
  let '(seenTerms, ds) := acc in
  let dup :=
    if bool_decide (el_id (base term) ∈ seenTerms)
    then addEntryWarning a file (OfMessage term) Duplicate
           ["term"; el_name (base term)]
    else [] in
  ({[el_id (base term)]} ∪ seenTerms, ds ++ dup).

Definition checkSourceTerms (a : Analyzer) (file : FileInfo)
    : list DiagnosticInfo :=
  snd (fold_left (checkSourceTerm a file) (terms file) (∅, [])).

Definition checkSourceFile (a : Analyzer) (file : FileInfo) : Run :=
  andThen (checkSourceMessages a file ∅ (messages file))
    (Completed (checkSourceTerms a file)).

Definition checkSourceGroup (a : Analyzer) (group : FileGroup) : Run :=
  forEach (checkSourceFile a) (recValues (files group)).

(** [(x || y) ?? false] on two optional flags. *)
Definition expectEqOf (x y : option bool) : bool :=
  match (if isTrue x then x else y) with
  | Some b => b
  | None => false
  end.

(** [compareAttributes], the branch for terms. An inherited [srcAttr] has no
    [translate]. *)
Definition compareTermAttribute (a : Analyzer) (file : FileInfo)
    (srcAttributes : Rec AttributeInfo) (attr : AttributeInfo)
    : list DiagnosticInfo :=
  match objGet (el_id attr) srcAttributes with
  | Own srcAttr =>
      if TranslateType_eqb (el_translate srcAttr) Disallowed
      then addEntryWarning a file (OfAttribute attr) DoNotTranslate
             ["Attribute"; el_name attr]
      else []
  | Inherited => []
  | Missing => []
  end.

(** [compareAttributes], the first loop for messages, one attribute. An
    inherited [srcAttr] is truthy and has no [translate], [value] or
    [expectIdentical]. *)
Definition compareMessageAttribute (a : Analyzer) (file : FileInfo)
    (entry : MessageInfo) (srcAttributes : Rec AttributeInfo)
    (attr : AttributeInfo) : list DiagnosticInfo :=
  match objGet (el_id attr) srcAttributes with
  | Missing =>
      if negb (shouldIgnore a "unknown-attribute" [ignore entry])
      then addEntryWarning a file (OfAttribute attr) UnknownAttribute [el_id attr]
      else []
  | Own srcAttr =>
      (if TranslateType_eqb (el_translate srcAttr) Disallowed
          && negb (shouldIgnore a "do-not-translate" [ignore entry])
       then addEntryWarning a file (OfAttribute attr) DoNotTranslate
              ["Attribute"; el_name attr]
       else [])
      ++
      let isEq :=
        patternsEqual (Present (el_value attr)) (Present (el_value srcAttr)) in
      let expectEq :=
        expectEqOf (el_expectIdentical attr) (el_expectIdentical srcAttr) in
      if negb (Bool.eqb isEq expectEq)
      then addEntryWarning a file (OfAttribute attr)
             (if isEq then Identical else MismatchIdentical)
             ["Attribute"; el_name attr]
      else []
  | Inherited =>
      let isEq := patternsEqual (Present (el_value attr)) Undefined in
      let expectEq := expectEqOf (el_expectIdentical attr) None in
      if negb (Bool.eqb isEq expectEq)
      then addEntryWarning a file (OfAttribute attr)
             (if isEq then Identical else MismatchIdentical)
             ["Attribute"; el_name attr]
      else []
  end.

Definition compareAttributes (a : Analyzer) (file : FileInfo)
    (entry : MessageInfo) (srcAttributes : Rec AttributeInfo)
    : list DiagnosticInfo :=
  let attrs := recValues (attributes entry) in
  if isTerm entry then flat_map (compareTermAttribute a file srcAttributes) attrs
  else
    let attrSet : gset string :=
      fold_left (fun s attr => {[el_id attr]} ∪ s) attrs ∅ in
    flat_map (compareMessageAttribute a file entry srcAttributes) attrs
    ++ flat_map
         (fun srcAttr : AttributeInfo =>
            if negb (TranslateType_eqb (el_translate srcAttr) Required) then []
            else if negb (bool_decide (el_id srcAttr ∈ attrSet))
            then addEntryWarning a file (OfMessage entry) MissingAttribute
                   [el_name (base entry) +:+ "." +:+ el_id srcAttr]
            else [])
         (recValues srcAttributes).

(** [compareMessages], the pattern-equality check on the two values. *)
Definition compareMessageValues (a : Analyzer) (file : FileInfo)
    (msg srcMessage : MessageInfo) : list DiagnosticInfo :=
  let isEq :=
    patternsEqual (ofOption (el_value (base msg)))
      (ofOption (el_value (base srcMessage))) in
  let expectEq :=
    expectEqOf (el_expectIdentical (base msg))
      (el_expectIdentical (base srcMessage)) in
  if negb (Bool.eqb isEq expectEq) && (negb isEq || isSome (el_value (base msg)))
  then addEntryWarning a file (OfMessage msg)
         (if isEq then Identical else MismatchIdentical)
         ["Message"; el_name (base msg)]
  else [].

Definition compareMessages (a : Analyzer) (file : FileInfo)
    (msg srcMessage : MessageInfo) : Run :=
  andThen
    (Completed
       ((if TranslateType_eqb (el_translate (base srcMessage)) Disallowed
         then addEntryWarning a file (OfMessage msg) DoNotTranslate
                ["Message"; el_name (base msg)]
         else [])
        ++ compareMessageValues a file msg srcMessage))
    (andThen (checkMessageParams a file msg (Some srcMessage) false)
       (Completed (compareAttributes a file msg (attributes srcMessage)))).

(** [compareFiles], the reducer over [file.terms]; [rec] is the accumulator,
    which the reducer hands on as it came. When [srcTermById[term.id]] is a
    member of [Object.prototype], [srcTerm.attributes] is [undefined] and
    [compareAttributes] throws unless the term has no attribute to look
    up. *)
Definition compareTerm (a : Analyzer) (file : FileInfo)
    (srcTermById rec : Rec TermInfo) (term : TermInfo) : Run :=
  andThen
    (Completed
       (if objHas (el_id (base term)) rec
        then addEntryWarning a file (OfMessage term) Duplicate
               ["term"; el_name (base term)]
        else []))
    (match objGet (el_id (base term)) srcTermById with
     | Own srcTerm =>
         Completed (compareAttributes a file term (attributes srcTerm))
     | Inherited =>
         if isTerm term && bool_decide (attributes term = [])
         then Completed []
         else Raised [] None
     | Missing => Completed []
     end).

Definition compareTerms (a : Analyzer) (file srcFile : FileInfo) : Run :=
  let srcTermById :=
    fold_left (fun rec term => recSet (el_id (base term)) term rec)
      (terms srcFile) [] in
  forEach (compareTerm a file srcTermById []) (terms file).

(** [compareFiles], the reducer that builds [messageById]. *)
Definition indexMessage (a : Analyzer) (file : FileInfo)
    (acc : Rec MessageInfo * list DiagnosticInfo) (msg : MessageInfo)
    : Rec MessageInfo * list DiagnosticInfo :=
  let '(rec, ds) := acc in
  let dup :=
    if objHas (el_id (base msg)) rec
    then addEntryWarning a file (OfMessage msg) Duplicate
           ["message"; el_name (base msg)]
    else [] in
  (recSet (el_id (base msg)) msg rec, ds ++ dup).

Definition indexMessages (a : Analyzer) (file : FileInfo)
    : Rec MessageInfo * list DiagnosticInfo :=
  fold_left (indexMessage a file) (messages file) ([], []).

(** [compareFiles], the body of the loop over [srcFile.messages]. When
    [messageById[srcMessage.id]] is a member of [Object.prototype],
    [compareMessages] runs on it: it has no [idSpan], so a warning about it
    throws in [spanToRange], after [addDiagnostic] fetched the list of the
    file; it has no [value] either, so the only warnings due are
    [do-not-translate] and [mismatch-identical]; it has no [params], so
    [checkParams] throws if no warning was due. *)
Definition compareSourceMessage (a : Analyzer) (file : FileInfo)
    (messageById : Rec MessageInfo) (srcMessage : MessageInfo) : Run :=
  match objGet (el_id (base srcMessage)) messageById with
  | Missing => Completed (addMissingMessageWarning file srcMessage)
  | Own msg => compareMessages a file msg srcMessage
  | Inherited =>
      Raised []
        (if TranslateType_eqb (el_translate (base srcMessage)) Disallowed
            || (isSome (el_value (base srcMessage))
                && isTrue (el_expectIdentical (base srcMessage)))
         then Some (path_uri (file_path file))
         else None)
  end.

Definition compareFiles (h : Host) (a : Analyzer) (file : option FileInfo)
    (srcFile : FileInfo) (loc : string) : Run :=
  match file with
  | None => Completed (addMissingFileWarning h a srcFile loc)
  | Some file =>
      if negb (bool_decide (bundle file = bundle srcFile))
      then Completed
             (addWarning file MismatchFileBundle (mkSpan 0 0)
                [getDisplayPath a file; getBundleDisplay (bundle file);
                 getBundleDisplay (bundle srcFile)])
      else
        let '(messageById, dupDs) := indexMessages a file in
        let srcMessageSet : gset string :=
          fold_left (fun s m => {[el_id (base m)]} ∪ s) (messages srcFile) ∅ in
        andThen (compareTerms a file srcFile)
          (andThen (Completed dupDs)
             (andThen
                (forEach (compareSourceMessage a file messageById)
                   (messages srcFile))
                (Completed
                   (flat_map
                      (fun msg : MessageInfo =>
                         if negb (bool_decide
                                    (el_id (base msg) ∈ srcMessageSet))
                         then addEntryWarning a file (OfMessage msg)
                                UnknownMessage [el_id (base msg)]
                         else [])
                      (messages file)))))
  end.

(** [fileByName] of [compareGroups]: its own properties and its prototype.
    [rec[file.name] = file] for a file named [__proto__] sets the prototype
    of the record instead of a property. *)
Definition FileIndex : Type := Rec FileInfo * option FileInfo.

Definition indexFile (acc : FileIndex) (file : FileInfo) : FileIndex :=
  if String.eqb (file_name file) "__proto__"
  then (fst acc, Some file)
  else (recSet (file_name file) file (fst acc), snd acc).

(** The truthiness of the property [k] of a file record. *)
Definition fileProperty (f : FileInfo) (k : string) : bool :=
  if String.eqb k "content" then Js.truthy (content f)
  else if String.eqb k "terms" || String.eqb k "messages"
          || String.eqb k "path" then true
  else if String.eqb k "name" then Js.truthy (file_name f)
  else if String.eqb k "bundle"
  then match bundle f with Some b => Js.truthy b | None => false end
  else if String.eqb k "ignore" then isSome (file_ignore f)
  else if String.eqb k "hash"
  then match hash f with Some n => negb (Z.eqb n 0) | None => false end
  else false.

(** [fileByName[name]]: an own property; else, when a file became the
    prototype, that file for [__proto__] and its properties and those it
    inherits for the other names; else the members of [Object.prototype]. An
    inherited value is truthy and is no file record. *)
Definition fileLookup (index : FileIndex) (name : string) : Lookup FileInfo :=
  match recGet name (fst index) with
  | Some file => Own file
  | None =>
      match snd index with
      | Some proto =>
          if String.eqb name "__proto__" then Own proto
          else if fileProperty proto name || protoMember name then Inherited
          else Missing
      | None => if protoMember name then Inherited else Missing
      end
  end.

(** [compareGroups]. [compareFiles] on an inherited value throws before any
    push: the value has no [bundle], [path] or [terms]. *)
Definition compareGroups (h : Host) (a : Analyzer) (group srcGroup : FileGroup)
    : Run :=
  let fileByName := fold_left indexFile (recValues (files group)) ([], None) in
  let srcFileSet : gset string :=
    fold_left (fun s f => {[file_name f]} ∪ s) (recValues (files srcGroup)) ∅ in
  andThen
    (forEach
       (fun srcFile =>
          match fileLookup fileByName (file_name srcFile) with
          | Missing =>
              Completed (addMissingFileWarning h a srcFile (locale group))
          | Own file => compareFiles h a (Some file) srcFile (locale group)
          | Inherited => Raised [] None
          end)
       (recValues (files srcGroup)))
    (Completed
       (flat_map
          (fun file =>
             if negb (bool_decide (file_name file ∈ srcFileSet))
             then addUnknownFileWarning a file
             else [])
          (recValues (files group)))).

(** The second loop of [processCollection]; a group is the source group
    when it sits under the source-locale key. *)
Definition compareCollection (h : Host) (a : Analyzer) (srcGroup : FileGroup)
    (gs : Rec FileGroup) : Run :=
  forEach
    (fun kg : string * FileGroup =>
       if String.eqb (fst kg) (sourceLocale a)
       then checkSourceGroup a (snd kg)
       else compareGroups h a (snd kg) srcGroup)
    gs.

(** [getOrDefault(this.diagnostics, uri, [])] when nothing is pushed. *)
Definition fetchList (u : option string) (a : Analyzer) : Analyzer :=
  match u with
  | None => a
  | Some uri =>
      match recGet uri (diagnostics a) with
      | Some _ => a
      | None => withDiagnostics a (recSet uri [] (diagnostics a))
      end
  end.

(** The analyzer after a run of checks, and how the run ended. *)
Definition settle {S : Type} (r : Run) (a : Analyzer) (s : S)
    : Completion (Analyzer * S) :=
  match r with
  | Completed ds => Normal (emit ds a, s)
  | Raised ds u => Stopped Exception (fetchList u (emit ds a), s)
  end.

Definition processCollection (h : Host) (a : Analyzer)
    (collection : FileCollection) : Completion (Analyzer * FileCollection) :=
  match readGroups h a [] (groups collection) with
  | Stopped why (a', gs) =>
      Stopped why (a', mkCollection (coll_path collection) gs)
  | Normal (a', gs) =>
      let collection' := mkCollection (coll_path collection) gs in
      match recGet (sourceLocale a') gs with
      | None => Normal (a', collection')
      | Some srcGroup =>
          settle (compareCollection h a' srcGroup gs) a' collection'
      end
  end.

(** [processDiscoveredFiles] on the collections and the ungrouped group of a
    discovery result. *)
Fixpoint processCollections (h : Host) (a : Analyzer)
    (done todo : list FileCollection)
    : Completion (Analyzer * list FileCollection) :=
  match todo with
  | [] => Normal (a, done)
  | c :: rest =>
      match processCollection h a c with
      | Normal (a', c') => processCollections h a' (done ++ [c']) rest
      | Stopped why (a', c') => Stopped why (a', done ++ c' :: rest)
      end
  end.

Definition processDiscoveredFiles (h : Host) (a : Analyzer)
    (collections : list FileCollection) (ungrouped : FileGroup)
    : Completion (Analyzer * (list FileCollection * FileGroup)) :=
  match processCollections h a [] collections with
  | Stopped why (a', cs) => Stopped why (a', (cs, ungrouped))
  | Normal (a', cs) =>
      match readGroup h a' ungrouped with
      | Stopped why (a'', g) => Stopped why (a'', (cs, g))
      | Normal (a'', g) => settle (checkSourceGroup a'' g) a'' (cs, g)
      end
  end.

(** ** Discovery (discover.ts) over a snapshot of the file system

    A path is the list of its components below the base directory; it also
    stands for the file URI and for the record [createFileRecord] builds from
    it, both of which it determines. *)
Module Discovery.

Inductive FsNode : Type :=
| FsFile
| FsDir (entries : list (string * FsNode))
| FsOther.

Definition Path : Type := list string.

Definition isDirectory (n : FsNode) : bool :=
  match n with FsDir _ => true | _ => false end.

Definition isFile (n : FsNode) : bool :=
  match n with FsFile => true | _ => false end.

(** [entry.name.toUpperCase().endsWith('.FTL')]. *)
Definition isFtl (name : string) : bool :=
  Js.endsWith ".FTL" (Js.toUpperCase name).

Fixpoint assoc (k : string) (es : list (string * FsNode)) : option FsNode :=
  match es with
  | [] => None
  | (k', n) :: rest => if String.eqb k' k then Some n else assoc k rest
  end.

Fixpoint lookupNode (n : FsNode) (p : Path) : option FsNode :=
  match p with
  | [] => Some n
  | c :: p' =>
      match n with
      | FsDir es =>
          match assoc c es with
          | Some n' => lookupNode n' p'
          | None => None
          end
      | _ => None
      end
  end.

(** [fs.readdir(path, { withFileTypes: true })]; [None] when it throws. *)
Definition readdir (root : FsNode) (p : Path) : option (list (string * FsNode)) :=
  match lookupNode root p with
  | Some (FsDir es) => Some es
  | _ => None
  end.

(** [isPathInside(child, basePath)] on the path of [child] relative to the
    base: [None] is a directory above the base. *)
Definition isPathInside (rel : option Path) : bool :=
  match rel with
  | Some (c :: _) => negb (Js.startsWith ".." c)
  | _ => false
  end.

(** [path.dirname] of a directory at or below the base. *)
Definition parentOf (p : Path) : option Path :=
  match p with
  | [] => None
  | _ => Some (removelast p)
  end.

(** [files.set(uri, record)] on a map whose values are determined by their
    keys. *)
Definition pathAdd (p : Path) (ps : list Path) : list Path :=
  if bool_decide (p ∈ ps) then ps else ps ++ [p].

Record Collection : Type := mkColl {
  coll_dir : Path;
  coll_groups : Rec (list Path)
}.

(** The inner loop of [getCollection] over the entries of one locale
    folder; [None] is the early [return]. *)
Fixpoint addLocaleFiles (dirPath : Path) (loc : string)
    (ftlEntries : list (string * FsNode)) (gs : Rec (list Path))
    : option (Rec (list Path)) :=
  match ftlEntries with
  | [] => Some gs
  | (name, n) :: rest =>
      if negb (isFile n) || negb (isFtl name) then None
      else
        let group :=
          match recGet loc gs with
          | Some g => g
          | None => []
          end in
        addLocaleFiles dirPath loc rest
          (recSet loc (pathAdd (dirPath ++ [name]) group) gs)
  end.

(** A call that may fail fatally (an unreadable directory). *)
Inductive Res (A : Type) : Type :=
| Ok (a : A)
| Fatal.
Arguments Ok {A} a.
Arguments Fatal {A}.

Fixpoint addLocales (root : FsNode) (curPath : Path) (localeDirs : list string)
    (gs : Rec (list Path)) : Res (option (Rec (list Path))) :=
  match localeDirs with
  | [] => Ok (Some gs)
  | loc :: rest =>
      match readdir root (curPath ++ [loc]) with
      | None => Fatal
      | Some ftlEntries =>
          match addLocaleFiles (curPath ++ [loc]) loc ftlEntries gs with
          | None => Ok None
          | Some gs' => addLocales root curPath rest gs'
          end
      end
  end.

Definition getCollection (root : FsNode) (curPath : Path)
    : Res (option Collection) :=
  match readdir root curPath with
  | None => Fatal
  | Some entries =>
      if negb (forallb (fun e => isDirectory (snd e)) entries) then Ok None
      else
        match addLocales root curPath (map fst entries) [] with
        | Fatal => Fatal
        | Ok None => Ok None
        | Ok (Some gs) => Ok (Some (mkColl curPath gs))
        end
  end.

Record DiscoveryResult : Type := mkResult {
  collections : list Collection;
  ungrouped : list Path;
  uris : gset Path
}.

Definition collectionFiles (c : Collection) : list Path :=
  concat (recValues (coll_groups c)).

(** The collection lookup for a resource file found in [curPath]: tried
    only when the grandparent of the file lies strictly inside the base. *)
Definition findCollection (root : FsNode) (curPath : Path)
    : Res (option Collection) :=
  let grandparent := parentOf curPath in
  match grandparent with
  | Some g => if isPathInside grandparent then getCollection root g
              else Ok None
  | None => Ok None
  end.

(** The body of the first loop of [discoverInternal] for one entry of
    [curPath]. *)
Definition visitEntry (root : FsNode) (curPath : Path) (ctx : DiscoveryResult)
    (entry : string * FsNode) : Res DiscoveryResult :=
  let '(name, n) := entry in
  if isDirectory n then Ok ctx
  else if negb (isFile n) || negb (isFtl name) then Ok ctx
  else
    let filePath := curPath ++ [name] in
    if bool_decide (filePath ∈ uris ctx) then Ok ctx
    else
      match findCollection root curPath with
      | Fatal => Fatal
      | Ok None =>
          Ok (mkResult (collections ctx) (pathAdd filePath (ungrouped ctx))
                ({[filePath]} ∪ uris ctx))
      | Ok (Some c) =>
          Ok (mkResult (collections ctx ++ [c]) (ungrouped ctx)
                (fold_left (fun s u => {[u]} ∪ s) (collectionFiles c) (uris ctx)))
      end.

Fixpoint visitEntries (root : FsNode) (curPath : Path) (ctx : DiscoveryResult)
    (entries : list (string * FsNode)) : Res DiscoveryResult :=
  match entries with
  | [] => Ok ctx
  | e :: rest =>
      match visitEntry root curPath ctx e with
      | Fatal => Fatal
      | Ok ctx' => visitEntries root curPath ctx' rest
      end
  end.

(** The second loop of [discoverInternal]: [recurse] is the recursive call
    on a subdirectory. *)
Definition walkDirs
    (recurse : Path -> FsNode -> DiscoveryResult -> Res DiscoveryResult)
    (curPath : Path)
    : list (string * FsNode) -> DiscoveryResult -> Res DiscoveryResult :=
  fix walk es ctx :=
    match es with
    | [] => Ok ctx
    | (name, child) :: rest =>
        if isDirectory child && negb (Js.startsWith "." name)
        then match recurse (curPath ++ [name]) child ctx with
             | Fatal => Fatal
             | Ok ctx' => walk rest ctx'
             end
        else walk rest ctx
    end.

(** [discoverInternal]: [node] is what the snapshot holds at [curPath], so
    that its entries are the result of [readdir(curPath)]. *)
Fixpoint discoverInternal (root : FsNode) (curPath : Path) (node : FsNode)
    (ctx : DiscoveryResult) : Res DiscoveryResult :=
  match node with
  | FsDir entries =>
      match visitEntries root curPath ctx entries with
      | Fatal => Fatal
      | Ok ctx1 => walkDirs (discoverInternal root) curPath entries ctx1
      end
  | _ => Fatal
  end.

Definition emptyResult : DiscoveryResult := mkResult [] [] ∅.

Definition discover (root : FsNode) : Res DiscoveryResult :=
  discoverInternal root [] root emptyResult.

(** All files of a result: those of the collections, then the ungrouped. *)
Definition allFiles (r : DiscoveryResult) : list Path :=
  flat_map collectionFiles (collections r) ++ ungrouped r.

(** Names are unique within every directory of the snapshot. *)
Fixpoint wellFormed (n : FsNode) : Prop :=
  match n with
  | FsDir es =>
      NoDup (map fst es)
      /\ (fix all (l : list (string * FsNode)) : Prop :=
            match l with
            | [] => True
            | (_, c) :: rest => wellFormed c /\ all rest
            end) es
  | _ => True
  end.

(** [descends p es q es']: the directory [q] with entries [es'] is the
    directory [p] with entries [es], or is reached from it through
    subdirectories whose names do not start with a dot (the ones the walk
    enters). *)
Inductive descends
    : Path -> list (string * FsNode) -> Path -> list (string * FsNode) -> Prop :=
| descends_here p es : descends p es p es
| descends_into p es name sub q es' :
    In (name, FsDir sub) es ->
    Js.startsWith "." name = false ->
    descends (p ++ [name]) sub q es' ->
    descends p es q es'.

(** A resource file reachable under the base. *)
Definition reachable (root : FsNode) (f : Path) : Prop :=
  exists es0 p es name,
    root = FsDir es0 /\ descends [] es0 p es
    /\ In (name, FsFile) es /\ isFtl name = true /\ f = p ++ [name].

(** A resource file of the snapshot, reachable or not. *)
Definition resourceFile (root : FsNode) (f : Path) : Prop :=
  exists p name,
    f = p ++ [name] /\ lookupNode root f = Some FsFile /\ isFtl name = true.

(** The groups of a collection rooted at [dir]: one group per locale key,
    each a duplicate-free list of files directly inside that locale folder. *)
Definition groupsWithin (dir : Path) (gs : Rec (list Path)) : Prop :=
  NoDup (map fst gs)
  /\ forall k g, In (k, g) gs ->
       NoDup g /\ forall f, f ∈ g -> exists name, f = dir ++ [k; name].

(** How discovery classifies the file [f]: the outcome of the collection
    lookup made from the folder of [f]. *)
Definition classOf (root : FsNode) (f : Path) : Res (option Collection) :=
  findCollection root (removelast f).

(** What holds of the result under construction between any two steps of
    the walk. *)
Record Invariant (root : FsNode) (ctx : DiscoveryResult) : Prop := mkInvariant {
  inv_nodup : NoDup (allFiles ctx);
  inv_uris : forall f, f ∈ uris ctx <-> f ∈ allFiles ctx;
  inv_collections :
    forall c, c ∈ collections ctx ->
      forall f, f ∈ collectionFiles c -> classOf root f = Ok (Some c);
  inv_ungrouped : forall f, f ∈ ungrouped ctx -> classOf root f = Ok None;
  inv_files : forall f, f ∈ allFiles ctx -> resourceFile root f
}.

End Discovery.

(** ** Specification vocabulary *)

(** The warning record [addEntryWarning] pushes when nothing suppresses it. *)
Definition entryDiagnostic (file : FileInfo) (entry : EntryInfo) (c : WarnCode)
    (args : list string) : DiagnosticInfo :=
  addDiagnostic Warning file (createWarning c (entry_idSpan entry) args).

Definition hasCode (c : string) (d : DiagnosticInfo) : bool :=
  String.eqb (code d) c.

(** The messages of a list whose identifier already occurred earlier in the
    list ([seen] holds the identifiers met so far). *)
Fixpoint laterOccurrences (seen : list string) (msgs : list MessageInfo)
    : list MessageInfo :=
  match msgs with
  | [] => []
  | m :: rest =>
      (if setHas (el_id (base m)) seen then [m] else [])
      ++ laterOccurrences (el_id (base m) :: seen) rest
  end.

(** Ignore resolution for a message or term, spelled out. *)
Definition ignored (a : Analyzer) (m : MessageInfo) (c : string) : Prop :=
  ignoreAll m = Some true
  \/ c ∈ ignore m \/ getWarningCategory c ∈ ignore m
  \/ c ∈ engineIgnore a \/ getWarningCategory c ∈ engineIgnore a.

Definition ignoredb (a : Analyzer) (m : MessageInfo) (c : string) : bool :=
  isTrue (ignoreAll m)
  || bool_decide (c ∈ ignore m)
  || bool_decide (getWarningCategory c ∈ ignore m)
  || bool_decide (c ∈ engineIgnore a)
  || bool_decide (getWarningCategory c ∈ engineIgnore a).

(** The messages of a list that the index built by [compareFiles] meets
    under a name it already holds: the identifier occurred earlier in the
    list, or it names a member of [Object.prototype]. *)
Fixpoint repeatedForIndex (seen : list string) (msgs : list MessageInfo)
    : list MessageInfo :=
  match msgs with
  | [] => []
  | m :: rest =>
      (if setHas (el_id (base m)) seen || protoMember (el_id (base m))
       then [m] else [])
      ++ repeatedForIndex (el_id (base m) :: seen) rest
  end.

(** The entries of a list whose identifier names a member of
    [Object.prototype]. *)
Definition namedAsMember (ms : list MessageInfo) : list MessageInfo :=
  List.filter (fun m => protoMember (el_id (base m))) ms.

(** The entries of a list for which ignore resolution lets [duplicate]
    through. *)
Definition unsuppressed (a : Analyzer) (ms : list MessageInfo)
    : list MessageInfo :=
  List.filter (fun m => negb (ignoredb a m "duplicate")) ms.

(** No identifier of the list names a member of [Object.prototype]. *)
Definition plainIds (msgs : list MessageInfo) : Prop :=
  Forall (fun m => protoMember (el_id (base m)) = false) msgs.

Definition duplicateDiagnostic (file : FileInfo) (kind : string)
    (m : MessageInfo) : DiagnosticInfo :=
  entryDiagnostic file (OfMessage m) Duplicate [kind; el_name (base m)].

(** The identifiers the work-stack walk does reach below a node: it looks
    through placeables, positional arguments of function references and the
    selector of a select expression, and pops everything else unread
    (a [Variant] included). *)
Fixpoint walkedVars (n : ASTNode) : list string :=
  match n with
  | VariableReference id => [id]
  | Placeable e => walkedVars e
  | FunctionReference _ args =>
      match args with
      | CallArguments p _ => flat_map walkedVars p
      | _ => []
      end
  | SelectExpression sel vs => walkedVars sel ++ flat_map walkedVars vs
  | _ => []
  end.

(** ** Sample inputs *)

(** The pattern of [{ $n -> [one] { $x } *[other] b }]. *)
Definition selectPattern : Pattern :=
  mkPattern
    [Placeable
       (SelectExpression (VariableReference "n")
          [Variant (Identifier "one") [Placeable (VariableReference "x")] false;
           Variant (Identifier "other") [TextElement "b"] true])].

Definition analyzer0 : Analyzer := mkAnalyzer "en" [] ∅ false.

Definition textPattern (s : string) : Pattern := mkPattern [TextElement s].

Definition sampleMessage (id : string) (value : option Pattern)
    (expect : option bool) (start : Z) : MessageInfo :=
  mkMessage
    (mkElement id id value (mkSpan start (start + 3)) Required expect [] [])
    false None [] None ∅.

Definition sampleFile (u name text : string) (msgs : list MessageInfo)
    (ign : option (gset string)) : FileInfo :=
  mkFile name (mkPath u u u) text [] msgs None ign None.

(** A target message without a value, and a source message with a value
    that is flagged [@expect-identical]. *)
Definition valuelessTarget : MessageInfo := sampleMessage "msg" None None 0.
Definition expectingSource : MessageInfo :=
  sampleMessage "msg" (Some (textPattern "Hi")) (Some true) 0.

(** [msg = Hi] twice in one file. *)
Definition twiceContent : string :=
  "msg = Hi" +:+ String newlineChar "msg = Hi".
Definition firstMsg : MessageInfo :=
  sampleMessage "msg" (Some (textPattern "Hi")) None 0.
Definition secondMsg : MessageInfo :=
  sampleMessage "msg" (Some (textPattern "Hi")) None 9.
Definition twiceFile : FileInfo :=
  sampleFile "file:///strings/en/a.ftl" "a" twiceContent [firstMsg; secondMsg]
    None.

(** The attribute [label] of a message [msg]. *)
Definition labelAttribute : AttributeInfo :=
  mkElement "label" "msg.label" (textPattern "OK") (mkSpan 4 9) Required None
    [] [].

(** An analyzer configured to ignore the code [duplicate]. *)
Definition analyzerIgnoringDuplicate : Analyzer :=
  mkAnalyzer "en" [] {["duplicate"]} false.

Definition twiceGroup : FileGroup :=
  mkGroup "en" [("file:///strings/en/a.ftl", twiceFile)].

(** A small host: files by URI, a parser given as a table from contents to
    entries, POSIX-style [dirname] and [join]. *)
Fixpoint dirnameAux (s : string) : option string :=
  match s with
  | EmptyString => None
  | String c rest =>
      match dirnameAux rest with
      | Some d => Some (String c d)
      | None => if Ascii.eqb c (ascii_of_nat 47) then Some EmptyString else None
      end
  end.

Definition posixDirname (s : string) : string :=
  match dirnameAux s with
  | Some EmptyString => "/"
  | Some d => d
  | None => "."
  end.

Definition sampleHost (fs : Rec string) (parser : Rec (list Entry)) : Host :=
  mkHost (fun u => recGet u fs)
    (fun text => match recGet text parser with Some es => es | None => [] end)
    (fun _ => 0%Z)
    (fun _ _ => None)
    posixDirname
    (fun a b c => a +:+ "/" +:+ b +:+ "/" +:+ c).

(** The record [createFileRecord] builds for [/strings/<locale>/<name>.ftl]. *)
Definition discovered (loc name : string) : FileInfo :=
  mkFile name
    (mkPath ("file:///strings/" +:+ loc +:+ "/" +:+ name +:+ ".ftl")
       ("/strings/" +:+ loc +:+ "/" +:+ name +:+ ".ftl")
       (loc +:+ "/" +:+ name +:+ ".ftl"))
    EmptyString [] [] None None None.

Definition groupOf (loc : string) (names : list string) : FileGroup :=
  mkGroup loc
    (map (fun n => (path_uri (file_path (discovered loc n)), discovered loc n))
       names).

Definition twiceEntries : list Entry :=
  [MessageEntry (mkEntryNode (mkId "msg" (mkSpan 0 3))
                   (Some (textPattern "Hi")) [] None);
   MessageEntry (mkEntryNode (mkId "msg" (mkSpan 9 12))
                   (Some (textPattern "Hi")) [] None)].

(** A collection whose only locale folder is [fr]; its file holds
    [msg = Hi] twice.  The source locale of [analyzer0] is [en]. *)
Definition frOnlyCollection : FileCollection :=
  mkCollection (mkPath "file:///strings" "/strings" "strings")
    [("fr", groupOf "fr" ["a"])].

Definition frOnlyHost : Host :=
  sampleHost [("file:///strings/fr/a.ftl", twiceContent)]
    [(twiceContent, twiceEntries)].

(** [en/greet.ftl] opens with a resource comment that holds one
    annotation; [en/menu.ftl] and [fr/menu.ftl] hold one message; there is
    no [fr/greet.ftl]. *)
Definition greetContent (annotation : string) : string :=
  "### " +:+ annotation +:+ String newlineChar "greeting = Hello".

Definition greetEntries (annotation : string) : list Entry :=
  [ResourceCommentEntry annotation;
   MessageEntry (mkEntryNode
                   (mkId "greeting"
                      (mkSpan (Z.of_nat (String.length annotation) + 5)
                         (Z.of_nat (String.length annotation) + 13)))
                   (Some (textPattern "Hello")) [] None)].

Definition menuEntries (text : string) : list Entry :=
  [MessageEntry (mkEntryNode (mkId "menu" (mkSpan 0 4))
                   (Some (textPattern text)) [] None)].

Definition greetHost (annotation : string) : Host :=
  sampleHost
    [("file:///strings/en/greet.ftl", greetContent annotation);
     ("file:///strings/en/menu.ftl", "menu = Menu");
     ("file:///strings/fr/menu.ftl", "menu = Carte")]
    [(greetContent annotation, greetEntries annotation);
     ("menu = Menu", menuEntries "Menu");
     ("menu = Carte", menuEntries "Carte")].

Definition greetCollection : FileCollection :=
  mkCollection (mkPath "file:///strings" "/strings" "strings")
    [("en", groupOf "en" ["greet"; "menu"]); ("fr", groupOf "fr" ["menu"])].

(** The diagnostics in the store once [processCollection] has run. *)
Definition diagnosticsAfter (h : Host) (a : Analyzer) (c : FileCollection)
    : list DiagnosticInfo :=
  getDiagnostics (fst (outcome (processCollection h a c))).

Definition missingFileDiagnostic (h : Host) (a : Analyzer) (srcFile : FileInfo)
    (loc : string) : DiagnosticInfo :=
  addDiagnostic Warning srcFile
    (createWarning MissingFile (mkSpan 0 0)
       [join3 h (dirname h (dirname h (getDisplayPath a srcFile))) loc
          (file_name srcFile +:+ ".ftl")]).

(** A snapshot: a collection [strings] with two locale folders, a loose
    file, a folder [misc] that is not a collection, and a hidden folder. *)
Definition sampleTree : Discovery.FsNode :=
  Discovery.FsDir
    [("strings",
      Discovery.FsDir
        [("en", Discovery.FsDir [("greet.ftl", Discovery.FsFile)]);
         ("fr", Discovery.FsDir [("greet.ftl", Discovery.FsFile)])]);
     ("loose.ftl", Discovery.FsFile);
     ("notes.txt", Discovery.FsFile);
     ("misc",
      Discovery.FsDir
        [("a", Discovery.FsDir [("x.FTL", Discovery.FsFile)]);
         ("b", Discovery.FsDir
                 [("sub", Discovery.FsDir [("y.ftl", Discovery.FsFile)])])]);
     (".hidden",
      Discovery.FsDir
        [("en", Discovery.FsDir [("z.ftl", Discovery.FsFile)])])].

(** ** Sample collections with the files [en/a.ftl] and [fr/a.ftl] *)

(** Both files hold one message, named [id]. *)
Definition singleMessage (id text : string) : list Entry :=
  [MessageEntry
     (mkEntryNode (mkId id (mkSpan 0 (Z.of_nat (String.length id))))
        (Some (textPattern text)) [] None)].

Definition pairHost (enText frText : string) (enEntries frEntries : list Entry)
    : Host :=
  sampleHost
    [("file:///strings/en/a.ftl", enText); ("file:///strings/fr/a.ftl", frText)]
    [(enText, enEntries); (frText, frEntries)].

Definition pairCollection : FileCollection :=
  mkCollection (mkPath "file:///strings" "/strings" "strings")
    [("en", groupOf "en" ["a"]); ("fr", groupOf "fr" ["a"])].

(** Where a diagnostic is reported: its code, its file and the offset at
    which its range starts. *)
Definition reported (d : DiagnosticInfo) : string * string * Z :=
  (code d, uri d, index (rangeStart (range d))).

(** [msg = Hi] with one attribute, [.<attr> = OK], on the next line. *)
Definition attributeText (attr : string) : string :=
  "msg = Hi" +:+ String newlineChar ("    ." +:+ attr +:+ " = OK").

Definition commentLine (text : string) : string :=
  "# " +:+ text +:+ String newlineChar EmptyString.

(** Its entries when the message starts at [offset], with or without a
    comment. *)
Definition attributeEntries (attr : string) (offset : nat)
    (cmt : option string) : list Entry :=
  [MessageEntry
     (mkEntryNode (mkId "msg" (mkSpan (Z.of_nat offset) (Z.of_nat offset + 3)))
        (Some (textPattern "Hi"))
        [mkAttrNode
           (mkId attr
              (mkSpan (Z.of_nat offset + 14)
                 (Z.of_nat (offset + 14 + String.length attr))))
           (textPattern "OK")]
        cmt)].

(** [fr/a.ftl] repeats [en/a.ftl], with the attribute [label], below a
    comment of the message. *)
Definition labelHost (cmt : string) : Host :=
  pairHost (attributeText "label")
    (commentLine cmt +:+ attributeText "label")
    (attributeEntries "label" 0 None)
    (attributeEntries "label" (String.length (commentLine cmt)) (Some cmt)).

(** [en/a.ftl] and [fr/a.ftl] hold the same message with one attribute. *)
Definition attributeHost (attr : string) : Host :=
  pairHost (attributeText attr) (attributeText attr)
    (attributeEntries attr 0 None) (attributeEntries attr 0 None).



Definition analyzerIgnoring (codes : list string) : Analyzer :=
  mkAnalyzer "en" [] (list_to_set codes) false.

(** [en/a.ftl] holds [msg = Hi]; [fr/a.ftl] holds a comment only. *)
Definition untranslatedHost : Host :=
  pairHost "msg = Hi" "# todo"
    [MessageEntry (mkEntryNode (mkId "msg" (mkSpan 0 3))
                     (Some (textPattern "Hi")) [] None)]
    [CommentEntry "todo"].

Definition singleMessageHost (id : string) : Host :=
  pairHost (id +:+ " = Hi") (id +:+ " = Salut")
    (singleMessage id "Hi") (singleMessage id "Salut").

(** [entries] terms named [id], one per line; the span of an identifier
    starts after the dash. *)
Definition termLine (id : string) : string :=
  "-" +:+ id +:+ " = Zomboid" +:+ String newlineChar EmptyString.

Fixpoint termLines (id : string) (n : nat) : string :=
  match n with
  | 0 => EmptyString
  | S k => termLine id +:+ termLines id k
  end.

Fixpoint termEntries (id : string) (offset n : nat) : list Entry :=
  match n with
  | 0 => []
  | S k =>
      TermEntry
        (mkEntryNode
           (mkId id (mkSpan (Z.of_nat offset + 1)
                       (Z.of_nat (offset + 1 + String.length id))))
           (Some (textPattern "Zomboid")) [] None)
      :: termEntries id (offset + String.length (termLine id)) k
  end.

(** [en/a.ftl] holds the term once, [fr/a.ftl] holds it [n] times. *)
Definition termHost (id : string) (n : nat) : Host :=
  pairHost (termLines id 1) (termLines id n)
    (termEntries id 0 1) (termEntries id 0 n).

(** ** Specification vocabulary for positions and lines *)

Fixpoint newlinesIn (s : string) : nat :=
  match s with
  | EmptyString => 0
  | String c rest =>
      (if Ascii.eqb c newlineChar then 1 else 0) + newlinesIn rest
  end.

(** The index of the last occurrence of [c] in [s]. *)
Fixpoint lastIndexOf (c : ascii) (s : string) : option nat :=
  match s with
  | EmptyString => None
  | String a rest =>
      match lastIndexOf c rest with
      | Some n => Some (S n)
      | None => if Ascii.eqb a c then Some 0 else None
      end
  end.

(** A position is at or before another one. *)
Definition positionLe (p q : DiagnosticRangeElement) : Prop :=
  (line p < line q \/ (line p = line q /\ column p <= column q))%Z.

Definition concatStrings (l : list string) : string :=
  fold_right String.append EmptyString l.

(** A string without leading or trailing white space. *)
Definition isTrimmed (s : string) : Prop := Js.trim s = s.

(** The range of the span from offset [s] to offset [s + k]. *)
Definition rangeOf (content : string) (s k : nat) : DiagnosticRange :=
  spanToRange (mkSpan (Z.of_nat s) (Z.of_nat (s + k))) content.

(** ** Specification vocabulary for normalized entries *)

(** What identifies an element: everything but its translation policy, its
    [expectIdentical] flag and its declared parameters. *)
Definition elementCore {V : Type} (e : ElementInfo V)
    : string * string * V * ISpan * list string :=
  (el_id e, el_name e, el_value e, el_idSpan e, el_variables e).

Definition entryCore (m : MessageInfo)
    : bool * (string * string * option Pattern * ISpan * list string)
      * list (string * (string * string * Pattern * ISpan * list string)) :=
  (isTerm m, elementCore (base m),
   map (fun kv => (fst kv, elementCore (snd kv))) (attributes m)).

(** Every parameter of the record sits under its own identifier, and no
    identifier is recorded twice. *)
Definition paramsKeyed (r : Rec ParamInfo) : Prop :=
  Forall (fun kp => param_id (snd kp) = fst kp) r /\ NoDup (map fst r).

(** Why a call stopped, if it did. *)
Definition ending {A : Type} (c : Completion A) : option Reason :=
  match c with
  | Normal _ => None
  | Stopped why _ => Some why
  end.

(** [srcMessage?.attributes ?? {}]. *)
Definition sourceAttributes (srcMessage : option MessageInfo)
    : Rec AttributeInfo :=
  match srcMessage with
  | Some s => attributes s
  | None => []
  end.



(** The keys of a record that name members of [Object.prototype]. *)
Definition memberKeys {T : Type} (r : Rec T) : list string :=
  List.filter protoMember (map fst r).

(** ** Vocabulary for the diagnostics of the two passes *)

(** A warning attached to the given file. *)
Definition warnsOn (file : FileInfo) (d : DiagnosticInfo) : Prop :=
  severity d = Warning /\ uri d = path_uri (file_path file).

(** The codes of the checks of the source locale. *)
Definition sourceCheckCodes : list string :=
  ["duplicate"; "annotation-missing"; "annotation-type-mismatch";
   "missing-required-variable"].

(** The codes of the comparison of a message or term with its source. *)
Definition entryCodes : list string :=
  ["duplicate"; "do-not-translate"; "identical"; "mismatch-identical";
   "unknown-attribute"; "unknown-variable"; "missing-attribute";
   "missing-required-variable"; "annotation-type-mismatch"].

(** The codes of the comparison of a file with its source file. *)
Definition comparisonCodes : list string :=
  "mismatch-file-bundle" :: "unknown-message" :: "missing-message"
  :: entryCodes.

Definition messageIds (f : FileInfo) : list string :=
  map (fun m => el_id (base m)) (messages f).

Definition codeAmong (l : list string) (d : DiagnosticInfo) : bool :=
  existsb (String.eqb (code d)) l.

(** ** Vocabulary for the first pass *)

Definition isMessageEntry (e : Entry) : bool :=
  match e with MessageEntry _ => true | _ => false end.

Definition isTermEntry (e : Entry) : bool :=
  match e with TermEntry _ => true | _ => false end.

(** The file record in the state up to which [read] is followed: as [read]
    leaves it when it returns or throws. *)
Definition fileAfterRead (h : Host) (a : Analyzer) (file : FileInfo)
    : FileInfo :=
  snd (outcome (read h a file)).

(** The target of an entry annotation: its value up to a [#], trimmed. *)
Definition targetOf (annot : AnnotationItem) : string :=
  Js.trim (match Js.indexOf hashChar (annot_value annot) with
           | Some n => Js.take n (annot_value annot)
           | None => annot_value annot
           end).

(** ** What analysis leaves in place *)

(** The settings of an analyzer, as opposed to its store of diagnostics. *)
Definition settings (a : Analyzer) : string * gset string * bool :=
  (sourceLocale a, engineIgnore a, useRelativePaths a).

Definition fileShape (f : FileInfo) : string * PathInfo :=
  (file_name f, file_path f).

Definition groupShape (g : FileGroup)
    : string * list (string * (string * PathInfo)) :=
  (locale g, map (fun kf => (fst kf, fileShape (snd kf))) (files g)).

Definition collectionShape (c : FileCollection)
    : PathInfo
      * list (string * (string * list (string * (string * PathInfo)))) :=
  (coll_path c, map (fun kg => (fst kg, groupShape (snd kg))) (groups c)).

(** ** Reports and the exit code (report.ts, cli.ts)

    Of [getReport] the split of the diagnostics and the two flags of the
    result are modelled; the text of the report is not. *)

Inductive OutputFormat : Type := Text | JSON | GitHub | Silent.

Record ReportResult : Type := mkReportResult {
  hasWarnings : bool;
  hasErrors : bool
}.

Definition isError (d : DiagnosticInfo) : bool :=
  match severity d with
  | Error => true
  | Warning => false
  end.

(** The first loop of [getReport]: the lists [errors] and [warnings]. *)
Definition splitDiagnostics (warningsAsErrors : bool)
    (ds : list DiagnosticInfo) : list DiagnosticInfo * list DiagnosticInfo :=
  fold_left
    (fun acc diag =>
       let '(errors, warnings) := acc in
       if warningsAsErrors || isError diag then (errors ++ [diag], warnings)
       else (errors, warnings ++ [diag]))
    ds ([], []).

Definition getReport (ds : list DiagnosticInfo) (warningsAsErrors : bool)
    : ReportResult :=
  let '(errors, warnings) := splitDiagnostics warningsAsErrors ds in
  mkReportResult (Nat.ltb 0 (length warnings)) (Nat.ltb 0 (length errors)).

(** The tail of [analyzeFromCommand], from the diagnostics of the analyzer:
    whether [process.exitCode] is set to 1. *)
Definition setsExitCode (format : OutputFormat) (strict : bool)
    (ds : list DiagnosticInfo) : bool :=
  let isGitHub := match format with GitHub => true | _ => false end in
  let report := getReport ds (isGitHub && strict) in
  hasErrors report || (strict && hasWarnings report).

(** ** Vocabulary for collections *)

(** An entry of a locale folder that [getCollection] accepts: a file whose
    name ends in [.ftl], in any case. *)
Definition resourceEntry (e : string * Discovery.FsNode) : bool :=
  Discovery.isFile (snd e) && Discovery.isFtl (fst e).

(** An entry of a collection folder that [getCollection] accepts: a folder
    holding nothing but resource files. *)
Definition localeFolder (e : string * Discovery.FsNode) : bool :=
  match snd e with
  | Discovery.FsDir es => forallb resourceEntry es
  | _ => false
  end.

Definition nonEmptyFolder (e : string * Discovery.FsNode) : bool :=
  match snd e with
  | Discovery.FsDir (_ :: _) => true
  | _ => false
  end.

(** ** Further sample inputs *)

(** The file [fr/a.ftl] without any message. *)
Definition emptyTarget : FileInfo :=
  sampleFile "file:///strings/fr/a.ftl" "a" EmptyString [] None.

(** A term with one attribute, and source attributes that mark this
    attribute as not to be translated. *)
Definition sampleTerm : TermInfo :=
  mkMessage
    (mkElement "brand" "-brand" (Some (textPattern "Zomboid")) (mkSpan 0 6)
       Required None [] [])
    true None [("label", labelAttribute)] None ∅.

Definition protectedLabel : Rec AttributeInfo :=
  [("label", setTranslate Disallowed labelAttribute)].

(** A message that declares the required parameter [n] and references the
    variables [n] and [x]. *)
Definition declaringMessage : MessageInfo :=
  mkMessage
    (mkElement "count" "count" (Some (textPattern "n")) (mkSpan 0 5) Required
       None [("n", mkParam "n" true None None)] ["n"; "x"])
    false None [] None ∅.

(** A host whose parameter syntax matches every annotation, without a type. *)
Definition untypedParamHost : Host :=
  mkHost (fun _ => None) (fun _ => []) (fun _ => 0%Z)
    (fun _ _ =>
       Some (mkParamMatch EmptyString "name" EmptyString None EmptyString))
    posixDirname
    (fun a b c => a +:+ "/" +:+ b +:+ "/" +:+ c).

(** The entries of the folder [strings] of the sample snapshot. *)
Definition stringsEntries : list (string * Discovery.FsNode) :=
  [("en", Discovery.FsDir [("greet.ftl", Discovery.FsFile)]);
   ("fr", Discovery.FsDir [("greet.ftl", Discovery.FsFile)])].

(** What discovery returns on the sample snapshot. *)
Definition sampleResult : Discovery.DiscoveryResult :=
  match Discovery.discover sampleTree with
  | Discovery.Ok r => r
  | Discovery.Fatal => Discovery.emptyResult
  end.

(** * Properties *)

(** ** Structural equality of patterns *)

Lemma ASTNode_nested_ind (P : ASTNode -> Prop)
  (HText : forall v, P (TextElement v))
  (HPlace : forall e, P e -> P (Placeable e))
  (HStr : forall v, P (StringLiteral v))
  (HNum : forall v, P (NumberLiteral v))
  (HMsg : forall i x, P (MessageReference i x))
  (HTermNone : forall i x, P (TermReference i x None))
  (HTermSome : forall i x c, P c -> P (TermReference i x (Some c)))
  (HVar : forall i, P (VariableReference i))
  (HFun : forall i c, P c -> P (FunctionReference i c))
  (HSel : forall s vs, P s -> Forall P vs -> P (SelectExpression s vs))
  (HVariant : forall k v d, P k -> Forall P v -> P (Variant k v d))
  (HCall : forall p n, Forall P p -> Forall P n -> P (CallArguments p n))
  (HNamed : forall n v, P v -> P (NamedArgument n v))
  (HId : forall n, P (Identifier n)) :
  forall n, P n.
Proof.
  fix IH 1.
  assert (IHs : forall l, Forall P l).
  { fix IHl 1. intros [|x l]; constructor; [apply IH | apply IHl]. }
  intros [v|e|v|v|i x|i x [c|]|i|i c|s vs|k v d|p n|n v|n].
  - apply HText.
  - apply HPlace, IH.
  - apply HStr.
  - apply HNum.
  - apply HMsg.
  - apply HTermSome, IH.
  - apply HTermNone.
  - apply HVar.
  - apply HFun, IH.
  - apply HSel; [apply IH | apply IHs].
  - apply HVariant; [apply IH | apply IHs].
  - apply HCall; apply IHs.
  - apply HNamed, IH.
  - apply HId.
Qed.

Lemma all2_refl {A : Type} (f : A -> A -> bool) (l : list A) :
  Forall (fun x => f x x = true) l -> all2 f l l = true.
Proof.
  induction 1 as [|x l Hx _ IH]; simpl; [reflexivity|].
  rewrite Hx, IH. reflexivity.
Qed.

Lemma all2_sym {A : Type} (f : A -> A -> bool) (l : list A) :
  Forall (fun x => forall y, f x y = f y x) l ->
  forall l', all2 f l l' = all2 f l' l.
Proof.
  induction 1 as [|x l Hx _ IH]; intros [|y l']; simpl; try reflexivity.
  rewrite Hx, IH. reflexivity.
Qed.

Lemma optEqb_string_refl (x : option string) : optEqb String.eqb x x = true.
Proof. destruct x; simpl; [apply String.eqb_refl | reflexivity]. Qed.

Lemma optEqb_string_sym (x y : option string) :
  optEqb String.eqb x y = optEqb String.eqb y x.
Proof. destruct x, y; simpl; try reflexivity. apply String.eqb_sym. Qed.

Lemma equals_refl (n : ASTNode) : equals n n = true.
Proof.
  induction n using ASTNode_nested_ind; simpl;
    rewrite ?String.eqb_refl, ?optEqb_string_refl, ?Bool.eqb_reflx;
    repeat match goal with
           | H : equals _ _ = true |- _ => rewrite H; clear H
           | H : Forall _ _ |- _ => rewrite (all2_refl _ _ H); clear H
           end; reflexivity.
Qed.

Lemma eqb_bool_sym (a b : bool) : Bool.eqb a b = Bool.eqb b a.
Proof. destruct a, b; reflexivity. Qed.

Lemma equals_sym (a : ASTNode) : forall b, equals a b = equals b a.
Proof.
  induction a using ASTNode_nested_ind; intros b; destruct b; simpl;
    try reflexivity;
    try match goal with
        | |- context [TermReference _ _ ?o] => destruct o
        | o : option ASTNode |- _ => destruct o
        end; simpl; try reflexivity;
    repeat match goal with
           | H : forall b, equals ?x b = equals b ?x |- _ =>
               rewrite H; clear H
           | H : Forall _ _ |- _ => rewrite (all2_sym _ _ H); clear H
           end;
    rewrite 1?(String.eqb_sym), 1?optEqb_string_sym, 1?eqb_bool_sym;
    reflexivity.
Qed.

Lemma patternEquals_refl (p : Pattern) : patternEquals p p = true.
Proof.
  unfold patternEquals. apply all2_refl.
  apply Forall_forall. intros x _. apply equals_refl.
Qed.

Lemma patternEquals_sym (p q : Pattern) : patternEquals p q = patternEquals q p.
Proof.
  unfold patternEquals. apply all2_sym.
  apply Forall_forall. intros x _. apply equals_sym.
Qed.

(** C8. [patternsEqual] is reflexive and symmetric on every value of type
    [ast.Pattern | null | undefined]; two [undefined] are equal; [undefined]
    is never equal to a present pattern. *)
Theorem patternsEqual_equivalence_laws :
  (forall p : Nullable Pattern, patternsEqual p p = true)
  /\ (forall p q : Nullable Pattern, patternsEqual p q = patternsEqual q p)
  /\ patternsEqual Undefined Undefined = true
  /\ (forall p : Pattern, patternsEqual Undefined (Present p) = false).
Proof.
  repeat split.
  - intros [| |p]; simpl; [reflexivity | reflexivity | apply patternEquals_refl].
  - intros [| |p] [| |q]; simpl; try reflexivity. apply patternEquals_sym.
Qed.

(** ** Variable collection *)

Lemma stackSize_app (l1 l2 : list ASTNode) :
  stackSize (l1 ++ l2) = stackSize l1 + stackSize l2.
Proof.
  unfold stackSize. induction l1 as [|x l1 IH]; simpl; [reflexivity|].
  rewrite IH. lia.
Qed.

Lemma stackSize_rev (l : list ASTNode) : stackSize (rev l) = stackSize l.
Proof.
  induction l as [|x l IH]; simpl; [reflexivity|].
  rewrite stackSize_app, IH. unfold stackSize. simpl. lia.
Qed.

Lemma positionalOf_size (args : ASTNode) :
  stackSize (positionalOf args) < nodeSize args.
Proof.
  destruct args as [| | | | |? ? []| | | | | | |]; simpl;
    unfold stackSize; simpl; lia.
Qed.

Lemma nodeSize_pos (n : ASTNode) : 0 < nodeSize n.
Proof. destruct n as [| | | | |? ? []| | | | | | |]; simpl; lia. Qed.

(** Every iteration strictly decreases the total size of the stack. *)
Lemma collectStep_decreases (el : ASTNode) (rest : list ASTNode)
    (vars : list string) :
  stackSize (fst (collectStep el rest vars)) < nodeSize el + stackSize rest.
Proof.
  destruct el as [| | | | |? ? []| |? args| | | | |]; simpl;
    try (unfold stackSize; simpl; lia).
  - rewrite stackSize_app, stackSize_rev.
    pose proof (positionalOf_size args). lia.
  - rewrite stackSize_app, stackSize_rev. unfold stackSize. simpl. lia.
Qed.

(** The work-stack loop terminates: fuel equal to the size of the stack is
    enough, whatever the accumulated set. *)
Lemma collectLoop_total (fuel : nat) :
  forall stack vars, stackSize stack <= fuel ->
    exists result, collectLoop fuel stack vars = Some result.
Proof.
  induction fuel as [|fuel IH]; intros [|el rest] vars Hsize; simpl.
  - eauto.
  - unfold stackSize in Hsize. simpl in Hsize.
    pose proof (nodeSize_pos el). lia.
  - eauto.
  - pose proof (collectStep_decreases el rest vars) as Hdec.
    destruct (collectStep el rest vars) as [stack' vars']. simpl in Hdec.
    apply IH. unfold stackSize in Hsize. simpl in Hsize.
    fold (stackSize rest) in Hsize. lia.
Qed.

Lemma In_setAdd (x y : string) (vars : list string) :
  In x (setAdd y vars) <-> x = y \/ In x vars.
Proof.
  unfold setAdd. destruct (existsb (String.eqb y) vars) eqn:Hy.
  - apply existsb_exists in Hy as (z & Hz & Heq).
    apply String.eqb_eq in Heq. subst z.
    split; [auto | intros [->|H]; assumption].
  - rewrite in_app_iff. simpl. intuition.
Qed.

Lemma walkedVars_stack (x : string) (l1 l2 : list ASTNode) :
  (exists el, In el (l1 ++ l2) /\ In x (walkedVars el))
  <-> (exists el, In el l1 /\ In x (walkedVars el))
      \/ (exists el, In el l2 /\ In x (walkedVars el)).
Proof.
  split.
  - intros (el & Hin & Hx). apply in_app_iff in Hin as [Hin|Hin]; eauto.
  - intros [(el & Hin & Hx)|(el & Hin & Hx)]; exists el;
      rewrite in_app_iff; auto.
Qed.

Lemma walkedVars_rev (x : string) (l : list ASTNode) :
  (exists el, In el (rev l) /\ In x (walkedVars el))
  <-> In x (flat_map walkedVars l).
Proof.
  rewrite in_flat_map. split; intros (el & Hin & Hx); exists el;
    [rewrite in_rev | rewrite <- in_rev]; auto.
Qed.

Lemma walkedVars_cons (x : string) (el : ASTNode) (rest : list ASTNode) :
  (exists el', In el' (el :: rest) /\ In x (walkedVars el'))
  <-> In x (walkedVars el)
      \/ exists el', In el' rest /\ In x (walkedVars el').
Proof.
  split.
  - intros (el' & [<-|Hin] & Hx); eauto.
  - intros [Hx|(el' & Hin & Hx)]; [exists el | exists el']; simpl; auto.
Qed.

Lemma walkedVars_function (id : string) (args : ASTNode) :
  walkedVars (FunctionReference id args)
  = flat_map walkedVars (positionalOf args).
Proof. destruct args; reflexivity. Qed.

(** What the loop returns: the identifiers already collected, and those the
    walk reaches from the nodes on the stack. *)
Lemma collectLoop_spec (fuel : nat) :
  forall stack vars result,
    collectLoop fuel stack vars = Some result ->
    forall x,
      In x result
      <-> In x vars \/ exists el, In el stack /\ In x (walkedVars el).
Proof.
  induction fuel as [|fuel IH]; intros [|el rest] vars result Hrun x;
    simpl in Hrun; try discriminate.
  - injection Hrun as <-. split; [auto | intros [H|(el & [] & _)]; exact H].
  - injection Hrun as <-. split; [auto | intros [H|(el & [] & _)]; exact H].
  - rewrite walkedVars_cons.
    destruct el as [| | | | |? ? ?| |? args| | | | |]; simpl in Hrun;
      rewrite (IH _ _ _ Hrun x); clear IH Hrun;
      rewrite ?walkedVars_stack, ?walkedVars_rev, ?walkedVars_cons,
        ?In_setAdd, ?walkedVars_function;
      simpl; rewrite ?in_app_iff; intuition (subst; auto).
Qed.

(** What [collectVariables] computes: exactly the identifiers the walk
    reaches from the elements of the pattern. *)
Lemma collectVariables_walk (p : Pattern) (x : string) :
  In x (collectVariables (Present p))
  <-> In x (flat_map walkedVars (pat_elements p)).
Proof.
  unfold collectVariables.
  destruct (collectLoop_total (stackSize (rev (pat_elements p)))
              (rev (pat_elements p)) [] (le_n _)) as [result Hrun].
  rewrite Hrun, (collectLoop_spec _ _ _ _ Hrun x), walkedVars_rev.
  simpl. tauto.
Qed.

Lemma existsb_occurs (x : string) (l : list ASTNode) :
  Forall (fun n => In x (walkedVars n) -> occursVar x n = true) l ->
  In x (flat_map walkedVars l) -> existsb (occursVar x) l = true.
Proof.
  intros Hall Hx. apply in_flat_map in Hx as (el & Hin & Hx).
  apply existsb_exists. exists el. split; [exact Hin|].
  exact (proj1 (List.Forall_forall _ _) Hall el Hin Hx).
Qed.

(** Every identifier the walk reaches is a variable reference of the node. *)
Lemma walkedVars_occur (x : string) (n : ASTNode) :
  (In x (walkedVars n) -> occursVar x n = true)
  /\ (In x (flat_map walkedVars (positionalOf n)) -> occursVar x n = true).
Proof.
  induction n as [| e IHe | | | | | i a c IHc | | i c IHc | s vs IHs IHvs
                 | k v d IHk IHv | p nm IHp IHnm | nm v IHv |]
    using ASTNode_nested_ind; simpl; split; try contradiction.
  - apply (proj1 IHe).
  - intros [->|[]]. apply String.eqb_refl.
  - destruct c; simpl; try contradiction. apply (proj2 IHc).
  - intros Hx. apply in_app_iff in Hx as [Hx|Hx]; apply orb_true_iff.
    + left. apply (proj1 IHs), Hx.
    + right. apply existsb_occurs; [|exact Hx].
      eapply List.Forall_impl; [|exact IHvs]. intros el [H _]. exact H.
  - intros Hx. apply orb_true_iff. left. apply existsb_occurs; [|exact Hx].
    eapply List.Forall_impl; [|exact IHp]. intros el [H _]. exact H.
Qed.

(** Soundness of the walk: whatever [collectVariables] returns is the
    identifier of a variable reference of the pattern. *)
Lemma collectVariables_sound (p : Pattern) (x : string) :
  In x (collectVariables (Present p)) -> occursInPattern x p = true.
Proof.
  intros Hx. apply collectVariables_walk in Hx.
  unfold occursInPattern. apply existsb_occurs; [|exact Hx].
  apply List.Forall_forall. intros el _. apply walkedVars_occur.
Qed.

(** C4 (the code at the failing input). The variants of a select expression
    are pushed on the work stack, but no case of the [switch] handles a
    [Variant], so the reference to [$x] inside the variant is not collected:
    [$x] occurs in the pattern and the walk returns only [n]. *)
Theorem collectVariables_misses_variant_variable :
  occursInPattern "x" selectPattern = true
  /\ collectVariables (Present selectPattern) = ["n"].
Proof. split; reflexivity. Qed.

(** ** Ignore resolution *)

Lemma getWarningCategory_no_dash (c : string) :
  Js.indexOf dashChar c = None -> getWarningCategory c = c.
Proof.
  intros H. unfold getWarningCategory. rewrite H.
  destruct (String.eqb c "do-not-translate"); reflexivity.
Qed.

Lemma shouldIgnore_one (a : Analyzer) (c : string) (s : gset string) :
  shouldIgnore a c [s]
  = (bool_decide (c ∈ s) || bool_decide (getWarningCategory c ∈ s)
     || (bool_decide (c ∈ engineIgnore a)
         || bool_decide (getWarningCategory c ∈ engineIgnore a))).
Proof.
  unfold shouldIgnore. simpl. rewrite orb_false_r. reflexivity.
Qed.

Lemma ignoredb_spec (a : Analyzer) (m : MessageInfo) (c : string) :
  ignoredb a m c = true <-> ignored a m c.
Proof.
  unfold ignoredb, ignored.
  rewrite !orb_true_iff, !bool_decide_eq_true.
  destruct (ignoreAll m) as [[|]|]; simpl; intuition congruence.
Qed.

Lemma addEntryWarning_message (a : Analyzer) (file : FileInfo)
    (m : MessageInfo) (c : WarnCode) (args : list string) :
  addEntryWarning a file (OfMessage m) c args
  = if ignoredb a m (codeName c) then []
    else [entryDiagnostic file (OfMessage m) c args].
Proof.
  unfold addEntryWarning, ignoredb, entryDiagnostic.
  rewrite shouldIgnore_one.
  destruct (isTrue (ignoreAll m)); simpl; [reflexivity|].
  destruct (bool_decide (codeName c ∈ ignore m)); simpl; [reflexivity|].
  destruct (bool_decide (getWarningCategory (codeName c) ∈ ignore m)); simpl;
    [reflexivity|].
  destruct (bool_decide (codeName c ∈ engineIgnore a)); simpl; reflexivity.
Qed.

(** C3 (the code at the failing inputs). [fr/a.ftl] repeats [en/a.ftl], a
    message [msg] with the attribute [label], below the entry annotation
    [@diagnostic disable #], which sets [ignoreAll] on the message; the
    engine-wide ignore list holds [identical]. The [identical] diagnostic of
    the message is suppressed, the one of its attribute is pushed: without
    annotation and ignore list both are pushed, and either of the two
    suppresses only that of the message. For a message or term
    [addEntryWarning] applies ignore resolution as the claim states it, for
    an attribute it consults nothing. In the second collection [fr/a.ftl]
    lacks the message and the engine-wide list holds [missing] and
    [missing-message]: the [missing-message] diagnostic is pushed, as it is
    with an empty list. *)
Theorem ignore_settings_bypassed :
  map reported
    (diagnosticsAfter (labelHost "@diagnostic disable #")
       (analyzerIgnoring ["identical"]) pairCollection)
  = [("identical", "file:///strings/fr/a.ftl", 38%Z)]
  /\ handleDiagnosticAnnotation (∅, None) (mkAnnot "@diagnostic" "disable #")
     = (∅, Some true)
  /\ map reported
       (diagnosticsAfter (labelHost "a comment") analyzer0 pairCollection)
     = [("identical", "file:///strings/fr/a.ftl", 12%Z);
        ("identical", "file:///strings/fr/a.ftl", 26%Z)]
  /\ map reported
       (diagnosticsAfter (labelHost "a comment")
          (analyzerIgnoring ["identical"]) pairCollection)
     = [("identical", "file:///strings/fr/a.ftl", 26%Z)]
  /\ map reported
       (diagnosticsAfter (labelHost "@diagnostic disable #") analyzer0
          pairCollection)
     = [("identical", "file:///strings/fr/a.ftl", 38%Z)]
  /\ (forall a file m c args,
         addEntryWarning a file (OfMessage m) c args
         = if ignoredb a m (codeName c) then []
           else [entryDiagnostic file (OfMessage m) c args])
  /\ (forall a m c, ignoredb a m c = true <-> ignored a m c)
  /\ (forall a file attr c args,
         addEntryWarning a file (OfAttribute attr) c args
         = [entryDiagnostic file (OfAttribute attr) c args])
  /\ map reported
       (diagnosticsAfter untranslatedHost
          (analyzerIgnoring ["missing"; "missing-message"]) pairCollection)
     = [("missing-message", "file:///strings/fr/a.ftl", 5%Z)]
  /\ map reported (diagnosticsAfter untranslatedHost analyzer0 pairCollection)
     = [("missing-message", "file:///strings/fr/a.ftl", 5%Z)].
Proof.
  split; [vm_compute; reflexivity|].
  split; [vm_compute; reflexivity|].
  split; [vm_compute; reflexivity|].
  split; [vm_compute; reflexivity|].
  split; [vm_compute; reflexivity|].
  split; [exact addEntryWarning_message|].
  split; [exact ignoredb_spec|].
  split; [reflexivity|].
  split; vm_compute; reflexivity.
Qed.

(** ** The pattern-equality check of [compareMessages] *)

(** C2 (as amended). With [isEq] the structural equality of the two values
    (both absent counting as equal) and [expectEq] either side's
    [@expect-identical] flag: nothing is reported when they agree; when the
    values differ but are expected identical, [mismatch-identical] is
    reported whether or not the target has a value; when they are equal and
    not expected identical, [identical] is reported only if the target has a
    value.  Each report goes through the ignore resolution of the target
    message. *)
Theorem compareMessages_pattern_check (a : Analyzer) (file : FileInfo)
    (msg src : MessageInfo) :
  let isEq :=
    patternsEqual (ofOption (el_value (base msg)))
      (ofOption (el_value (base src))) in
  let expectEq :=
    isTrue (el_expectIdentical (base msg))
    || isTrue (el_expectIdentical (base src)) in
  let report c :=
    if ignoredb a msg (codeName c) then []
    else [entryDiagnostic file (OfMessage msg) c
            ["Message"; el_name (base msg)]] in
  compareMessageValues a file msg src
  = match isEq, expectEq with
    | true, true | false, false => []
    | false, true => report MismatchIdentical
    | true, false =>
        match el_value (base msg) with
        | Some _ => report Identical
        | None => []
        end
    end.
Proof.
  cbv zeta. unfold compareMessageValues.
  rewrite addEntryWarning_message.
  replace (expectEqOf (el_expectIdentical (base msg))
             (el_expectIdentical (base src)))
    with (isTrue (el_expectIdentical (base msg))
          || isTrue (el_expectIdentical (base src))).
  2:{ unfold expectEqOf.
      destruct (el_expectIdentical (base msg)) as [[|]|],
               (el_expectIdentical (base src)) as [[|]|]; reflexivity. }
  destruct (patternsEqual _ _),
           (isTrue (el_expectIdentical (base msg))
            || isTrue (el_expectIdentical (base src)));
    simpl; try reflexivity.
  destruct (el_value (base msg)); reflexivity.
Qed.

(** C2 fails as stated: the target message has no pattern value, the source
    has one and expects identity, and [mismatch-identical] is reported. *)
Lemma mismatch_identical_on_valueless_target :
  el_value (base valuelessTarget) = None
  /\ compareMessages analyzer0 twiceFile valuelessTarget expectingSource
     = Completed
         [entryDiagnostic twiceFile (OfMessage valuelessTarget)
            MismatchIdentical ["Message"; "msg"]]
  /\ code (entryDiagnostic twiceFile (OfMessage valuelessTarget)
             MismatchIdentical ["Message"; "msg"])
     = "mismatch-identical".
Proof. repeat split; vm_compute; reflexivity. Qed.

(** ** Runs of checks *)

Lemma pushed_andThen (r1 r2 : Run) :
  pushed (andThen r1 r2)
  = pushed r1 ++ match r1 with
                 | Completed _ => pushed r2
                 | Raised _ _ => []
                 end.
Proof.
  destruct r1 as [d1|d1 u1]; simpl.
  - destruct r2; reflexivity.
  - rewrite app_nil_r. reflexivity.
Qed.

Lemma Forall_pushed_andThen (P : DiagnosticInfo -> Prop) (r1 r2 : Run) :
  Forall P (pushed r1) -> Forall P (pushed r2) ->
  Forall P (pushed (andThen r1 r2)).
Proof.
  intros H1 H2. rewrite pushed_andThen. apply Forall_app. split; [exact H1|].
  destruct r1; [exact H2|constructor].
Qed.

Lemma Forall_pushed_forEach {A : Type} (P : DiagnosticInfo -> Prop)
    (f : A -> Run) (l : list A) :
  (forall x, In x l -> Forall P (pushed (f x))) ->
  Forall P (pushed (forEach f l)).
Proof.
  induction l as [|x l IH]; intros H; simpl; [constructor|].
  apply Forall_pushed_andThen.
  - apply H. left. reflexivity.
  - apply IH. intros y Hy. apply H. right. exact Hy.
Qed.

Lemma Completed_inj (ds ds' : list DiagnosticInfo) :
  Completed ds = Completed ds' -> ds = ds'.
Proof. intros H. injection H as ->. reflexivity. Qed.

Lemma andThen_Completed (r1 r2 : Run) (ds : list DiagnosticInfo) :
  andThen r1 r2 = Completed ds ->
  exists d1 d2, r1 = Completed d1 /\ r2 = Completed d2 /\ ds = d1 ++ d2.
Proof.
  destruct r1 as [d1|d1 u1]; simpl; [|discriminate].
  destruct r2 as [d2|d2 u2]; [|discriminate].
  intros H. injection H as <-. exists d1, d2. repeat split.
Qed.

Lemma forEach_Completed {A : Type} (f : A -> Run) (l : list A)
    (ds : list DiagnosticInfo) :
  forEach f l = Completed ds ->
  ds = flat_map (fun x => pushed (f x)) l
  /\ forall x, In x l -> f x = Completed (pushed (f x)).
Proof.
  revert ds. induction l as [|x l IH]; simpl; intros ds H.
  - injection H as <-. split; [reflexivity|]. intros y [].
  - apply andThen_Completed in H. destruct H as (d1 & d2 & H1 & H2 & ->).
    destruct (IH _ H2) as [-> Hall]. rewrite H1. simpl.
    split; [reflexivity|].
    intros y [<-|Hy]; [rewrite H1; reflexivity|apply Hall, Hy].
Qed.

Lemma forEach_all_Completed {A : Type} (f : A -> Run) (l : list A) :
  (forall x, In x l -> f x = Completed (pushed (f x))) ->
  forEach f l = Completed (flat_map (fun x => pushed (f x)) l).
Proof.
  induction l as [|x l IH]; simpl; intros H; [reflexivity|].
  pose proof (H x (or_introl eq_refl)) as Hx.
  rewrite IH by (intros y Hy; apply H; right; exact Hy).
  destruct (f x); [reflexivity|discriminate].
Qed.

(** ** Which codes the engine's functions can push *)

Lemma Forall_fold_left_snd {A B D : Type} (P : D -> Prop)
    (step : A * list D -> B -> A * list D) :
  (forall acc x, Forall P (snd acc) -> Forall P (snd (step acc x))) ->
  forall l acc, Forall P (snd acc) -> Forall P (snd (fold_left step l acc)).
Proof.
  intros Hstep l. induction l as [|x l IH]; intros acc Hacc; simpl.
  - exact Hacc.
  - apply IH, Hstep, Hacc.
Qed.

Lemma addEntryWarning_code (a : Analyzer) (file : FileInfo) (e : EntryInfo)
    (c : WarnCode) (args : list string) :
  Forall (fun d => code d = codeName c) (addEntryWarning a file e c args).
Proof.
  unfold addEntryWarning.
  destruct e as [m|attr];
    [destruct (isTrue (ignoreAll m)); [constructor|];
     destruct (shouldIgnore a (codeName c) [ignore m]); [constructor|] |];
    repeat constructor.
Qed.

Lemma addEntryWarning_not_duplicate (a : Analyzer) (file : FileInfo)
    (e : EntryInfo) (c : WarnCode) (args : list string) :
  c <> Duplicate ->
  Forall (fun d => code d <> "duplicate") (addEntryWarning a file e c args).
Proof.
  intros Hc. eapply List.Forall_impl; [|apply addEntryWarning_code].
  intros d ->. destruct c; simpl; try discriminate. contradiction.
Qed.

Ltac codes :=
  repeat match goal with
         | |- Forall _ (_ ++ _) => apply Forall_app; split
         | |- Forall _ (flat_map _ _) =>
             apply Forall_flat_map, Forall_forall; intros ? _
         | |- Forall _ (if ?b then _ else _) => destruct b
         | |- Forall _ (match ?o with Some _ => _ | None => _ end) =>
             destruct o
         | |- Forall _ (match ?o with
                        | Own _ => _ | Inherited => _ | Missing => _
                        end) =>
             destruct o
         | |- Forall _ (pushed (andThen _ _)) => apply Forall_pushed_andThen
         | |- Forall _ (pushed (forEach _ _)) =>
             apply Forall_pushed_forEach; intros ? _
         | |- Forall _ (pushed (match ?o with
                                | Own _ => _ | Inherited => _ | Missing => _
                                end)) =>
             destruct o
         | |- Forall _ (pushed (if ?b then _ else _)) => destruct b
         | |- Forall ?P (pushed (Completed ?x)) => change (Forall P x)
         | |- Forall ?P (pushed (Raised ?x _)) => change (Forall P x)
         | |- Forall _ [] => constructor
         | |- Forall _ (addEntryWarning _ _ _ (if ?b then _ else _) _) =>
             destruct b
         | |- Forall _ (addEntryWarning _ _ _ _ _) =>
             apply addEntryWarning_not_duplicate; discriminate
         end.

Lemma checkParams_not_duplicate (a : Analyzer) (file : FileInfo)
    (entry : EntryInfo) (src : option EntryInfo) (isSrc isAttr : bool) :
  Forall (fun d => code d <> "duplicate")
    (checkParams a file entry src isSrc isAttr).
Proof.
  unfold checkParams.
  match goal with
  | |- context [fold_left (overlayParam ?a ?f ?e ?i) ?l ?acc] =>
      pose proof (Forall_fold_left_snd (fun d => code d <> "duplicate")
                    (overlayParam a f e i)) as Hfold;
      specialize (fun H => Hfold H l acc);
      destruct (fold_left (overlayParam a f e i) l acc) as [params ds]
  end.
  simpl in Hfold.
  apply Forall_app; split.
  - apply Hfold; [|constructor].
    intros [r ds'] p Hds. unfold overlayParam. cbv zeta. simpl in *.
    codes; assumption.
  - unfold checkVariable, checkRequired. codes.
Qed.

Lemma checkMessageParams_not_duplicate (a : Analyzer) (file : FileInfo)
    (msg : MessageInfo) (src : option MessageInfo) (isSrc : bool) :
  Forall (fun d => code d <> "duplicate")
    (pushed (checkMessageParams a file msg src isSrc)).
Proof.
  unfold checkMessageParams. cbv zeta.
  codes; apply checkParams_not_duplicate.
Qed.

Lemma compareAttributes_not_duplicate (a : Analyzer) (file : FileInfo)
    (entry : MessageInfo) (srcAttributes : Rec AttributeInfo) :
  Forall (fun d => code d <> "duplicate")
    (compareAttributes a file entry srcAttributes).
Proof.
  unfold compareAttributes, compareTermAttribute, compareMessageAttribute.
  destruct (isTerm entry); codes.
Qed.

Lemma compareMessages_not_duplicate (a : Analyzer) (file : FileInfo)
    (msg src : MessageInfo) :
  Forall (fun d => code d <> "duplicate")
    (pushed (compareMessages a file msg src)).
Proof.
  unfold compareMessages, compareMessageValues.
  apply Forall_pushed_andThen; [codes|].
  apply Forall_pushed_andThen.
  - apply checkMessageParams_not_duplicate.
  - apply compareAttributes_not_duplicate.
Qed.

Lemma filter_none {A : Type} (f : A -> bool) (l : list A) :
  Forall (fun x => f x = false) l -> List.filter f l = [].
Proof.
  induction 1 as [|x l Hx _ IH]; simpl; [reflexivity|].
  rewrite Hx. exact IH.
Qed.

Lemma filter_all {A : Type} (f : A -> bool) (l : list A) :
  Forall (fun x => f x = true) l -> List.filter f l = l.
Proof.
  induction 1 as [|x l Hx _ IH]; simpl; [reflexivity|].
  rewrite Hx, IH. reflexivity.
Qed.

Lemma not_duplicate_filter (ds : list DiagnosticInfo) :
  Forall (fun d => code d <> "duplicate") ds ->
  List.filter (hasCode "duplicate") ds = [].
Proof.
  intros H. apply filter_none. eapply List.Forall_impl; [|exact H].
  intros d Hd. unfold hasCode. apply String.eqb_neq. exact Hd.
Qed.

(** ** Duplicate identifiers *)

Lemma recGet_recSet {T : Type} (k x : string) (v : T) (r : Rec T) :
  recGet x (recSet k v r) = if String.eqb k x then Some v else recGet x r.
Proof.
  induction r as [|[k' v'] r IH]; simpl.
  - reflexivity.
  - destruct (String.eqb_spec k' k) as [->|Hk]; simpl.
    + destruct (String.eqb k x); reflexivity.
    + rewrite IH. destruct (String.eqb_spec k' x) as [->|Hx].
      * destruct (String.eqb_spec k x) as [->|_]; [contradiction|reflexivity].
      * reflexivity.
Qed.

Lemma hasCode_duplicateDiagnostic (file : FileInfo) (kind : string)
    (m : MessageInfo) :
  hasCode "duplicate" (duplicateDiagnostic file kind m) = true.
Proof. reflexivity. Qed.

Lemma filter_duplicate_warning (a : Analyzer) (file : FileInfo) (kind : string)
    (m : MessageInfo) :
  List.filter (hasCode "duplicate")
    (addEntryWarning a file (OfMessage m) Duplicate [kind; el_name (base m)])
  = map (duplicateDiagnostic file kind)
      (List.filter (fun m => negb (ignoredb a m "duplicate")) [m]).
Proof.
  rewrite addEntryWarning_message. simpl.
  destruct (ignoredb a m "duplicate"); reflexivity.
Qed.

Lemma filter_pushed_andThen (f : DiagnosticInfo -> bool) (r1 r2 : Run) :
  List.filter f (pushed (andThen r1 r2))
  = List.filter f (pushed r1)
    ++ match r1 with
       | Completed _ => List.filter f (pushed r2)
       | Raised _ _ => []
       end.
Proof.
  rewrite pushed_andThen, List.filter_app. destruct r1; reflexivity.
Qed.

(** The duplicates of the intra-file check: an initial part of the expected
    list, and all of it when the check returns. *)
Lemma checkSourceMessages_duplicates (a : Analyzer) (file : FileInfo)
    (msgs : list MessageInfo) :
  forall (seen : gset string) (seenL : list string),
    (forall x, x ∈ seen <-> setHas x seenL = true) ->
    exists rest,
      map (duplicateDiagnostic file "message")
        (List.filter (fun m => negb (ignoredb a m "duplicate"))
           (laterOccurrences seenL msgs))
      = List.filter (hasCode "duplicate")
          (pushed (checkSourceMessages a file seen msgs)) ++ rest
      /\ (forall ds, checkSourceMessages a file seen msgs = Completed ds ->
                     rest = []).
Proof.
  induction msgs as [|m msgs IH]; intros seen seenL Hseen.
  - exists []. split; [reflexivity|]. intros; reflexivity.
  - assert (Hseen' : forall x, x ∈ {[el_id (base m)]} ∪ seen
                               <-> setHas x (el_id (base m) :: seenL) = true).
    { intros x. unfold setHas in *. simpl.
      rewrite elem_of_union, elem_of_singleton, orb_true_iff, Hseen.
      rewrite String.eqb_eq. reflexivity. }
    destruct (IH _ _ Hseen') as (rest & Heq & Hdone).
    assert (Hdup :
      List.filter (hasCode "duplicate")
        (if bool_decide (el_id (base m) ∈ seen)
         then addEntryWarning a file (OfMessage m) Duplicate
                ["message"; el_name (base m)]
         else [])
      = map (duplicateDiagnostic file "message")
          (List.filter (fun m => negb (ignoredb a m "duplicate"))
             (if setHas (el_id (base m)) seenL then [m] else []))).
    { destruct (setHas (el_id (base m)) seenL) eqn:Hhas.
      - rewrite bool_decide_eq_true_2 by (apply Hseen; exact Hhas).
        apply filter_duplicate_warning.
      - rewrite bool_decide_eq_false_2; [reflexivity|].
        rewrite Hseen, Hhas. discriminate. }
    cbn [checkSourceMessages laterOccurrences].
    rewrite List.filter_app, map_app.
    rewrite !filter_pushed_andThen. cbn [pushed]. rewrite Hdup.
    rewrite (not_duplicate_filter (pushed (checkMessageParams _ _ _ _ _)))
      by apply checkMessageParams_not_duplicate.
    destruct (checkMessageParams a file m None true) as [c|c u].
    + exists rest. split.
      * simpl. rewrite Heq, <- app_assoc. reflexivity.
      * intros ds Hds. apply andThen_Completed in Hds.
        destruct Hds as (d1 & d2 & _ & H2 & _).
        apply andThen_Completed in H2. destruct H2 as (d3 & d4 & _ & H4 & _).
        eapply Hdone. exact H4.
    + exists (map (duplicateDiagnostic file "message")
                (List.filter (fun m => negb (ignoredb a m "duplicate"))
                   (laterOccurrences (el_id (base m) :: seenL) msgs))).
      split.
      * simpl. rewrite !app_nil_r. reflexivity.
      * intros ds Hds. apply andThen_Completed in Hds.
        destruct Hds as (d1 & d2 & _ & H2 & _). discriminate H2.
Qed.

Lemma objHas_recGet {T : Type} (k : string) (r : Rec T) :
  objHas k r = isSome (recGet k r) || protoMember k.
Proof.
  unfold objHas, objGet. destruct (recGet k r); [reflexivity|].
  destruct (protoMember k); reflexivity.
Qed.

Lemma indexMessage_step (a : Analyzer) (file : FileInfo)
    (rec : Rec MessageInfo) (ds : list DiagnosticInfo) (m : MessageInfo) :
  indexMessage a file (rec, ds) m
  = (recSet (el_id (base m)) m rec,
     ds ++ map (duplicateDiagnostic file "message")
             (List.filter (fun m => negb (ignoredb a m "duplicate"))
                (if objHas (el_id (base m)) rec then [m] else []))).
Proof.
  unfold indexMessage. rewrite addEntryWarning_message.
  destruct (objHas (el_id (base m)) rec); simpl; [|reflexivity].
  destruct (ignoredb a m _); reflexivity.
Qed.

Lemma indexMessages_fold (a : Analyzer) (file : FileInfo)
    (msgs : list MessageInfo) :
  forall (rec : Rec MessageInfo) (seenL : list string)
         (ds : list DiagnosticInfo),
    (forall x, isSome (recGet x rec) = setHas x seenL) ->
    snd (fold_left (indexMessage a file) msgs (rec, ds))
    = ds ++ map (duplicateDiagnostic file "message")
              (List.filter (fun m => negb (ignoredb a m "duplicate"))
                 (repeatedForIndex seenL msgs)).
Proof.
  induction msgs as [|m msgs IH]; intros rec seenL ds Hrec.
  - simpl. rewrite app_nil_r. reflexivity.
  - cbn [fold_left repeatedForIndex]. rewrite indexMessage_step.
    rewrite (IH _ (el_id (base m) :: seenL)).
    + rewrite List.filter_app, map_app, <- !app_assoc, objHas_recGet, Hrec.
      reflexivity.
    + intros x. rewrite recGet_recSet. unfold setHas in *. simpl.
      rewrite <- Hrec, (String.eqb_sym x).
      destruct (String.eqb (el_id (base m)) x); reflexivity.
Qed.

Lemma repeatedForIndex_plain (msgs : list MessageInfo) :
  plainIds msgs ->
  forall seen, repeatedForIndex seen msgs = laterOccurrences seen msgs.
Proof.
  induction 1 as [|m msgs Hm _ IH]; intros seen; simpl; [reflexivity|].
  rewrite Hm, orb_false_r, IH. reflexivity.
Qed.

Lemma laterOccurrences_fresh (msgs : list MessageInfo) :
  forall seen,
    NoDup (map (fun m => el_id (base m)) msgs) ->
    (forall m, In m msgs -> setHas (el_id (base m)) seen = false) ->
    laterOccurrences seen msgs = [].
Proof.
  induction msgs as [|m msgs IH]; intros seen Hnd Hseen; simpl.
  - reflexivity.
  - rewrite Hseen by (left; reflexivity). simpl.
    apply NoDup_cons in Hnd as [Hnotin Hnd].
    apply IH; [exact Hnd|].
    intros m' Hin. unfold setHas in *. simpl.
    rewrite Hseen by (right; exact Hin). rewrite orb_false_r.
    apply String.eqb_neq. intros Heq. apply Hnotin.
    rewrite <- Heq. apply list_elem_of_In, in_map_iff. eauto.
Qed.

(** C7 (as amended). The intra-file check of a source or ungrouped group
    pushes, in order, one [duplicate] diagnostic for every message whose
    identifier already occurred earlier in the file and for which ignore
    resolution does not suppress the code, each placed on the identifier
    span of that occurrence: all of them when the check of the file
    returns, and the first of them up to where it stops otherwise. The
    message pass of [compareFiles] pushes the same diagnostics for a file
    none of whose identifiers names a member of [Object.prototype]. A first
    occurrence is not among them, so two messages with one identifier give
    at most the one diagnostic on the second, and a file without repeated
    identifiers gives none. *)
Theorem duplicate_messages_flagged (a : Analyzer) (file : FileInfo) :
  let flagged :=
    map (duplicateDiagnostic file "message")
      (List.filter (fun m => negb (ignoredb a m "duplicate"))
         (laterOccurrences [] (messages file))) in
  (forall ds, checkSourceMessages a file ∅ (messages file) = Completed ds ->
              List.filter (hasCode "duplicate") ds = flagged)
  /\ (exists rest,
         flagged
         = List.filter (hasCode "duplicate")
             (pushed (checkSourceMessages a file ∅ (messages file))) ++ rest)
  /\ (plainIds (messages file) -> snd (indexMessages a file) = flagged)
  /\ (forall m, range (duplicateDiagnostic file "message" m)
                = spanToRange (el_idSpan (base m)) (content file))
  /\ (forall m1 m2, laterOccurrences [] [m1; m2]
                    = if String.eqb (el_id (base m2)) (el_id (base m1))
                      then [m2] else [])
  /\ (NoDup (map (fun m => el_id (base m)) (messages file)) -> flagged = []).
Proof.
  cbv zeta.
  destruct (checkSourceMessages_duplicates a file (messages file) ∅ [])
    as (rest & Heq & Hdone).
  { intros x. simpl. split; [set_solver | discriminate]. }
  split; [|split; [|split; [|split; [|split]]]].
  - intros ds Hds. rewrite Heq, (Hdone _ Hds), app_nil_r, Hds. reflexivity.
  - exists rest. exact Heq.
  - intros Hplain. rewrite <- (repeatedForIndex_plain _ Hplain).
    exact (indexMessages_fold a file (messages file) [] [] []
             (fun x => eq_refl)).
  - reflexivity.
  - intros m1 m2. simpl. unfold setHas. simpl. rewrite orb_false_r.
    destruct (String.eqb _ _); reflexivity.
  - intros Hnd. rewrite laterOccurrences_fresh; [reflexivity|exact Hnd|].
    reflexivity.
Qed.

(** The scenario of the specification: [msg = Hi] twice gives exactly one
    [duplicate] warning, on the second identifier (index 9 to 12). *)
Lemma duplicate_scenario :
  checkSourceFile analyzer0 twiceFile
  = Completed [duplicateDiagnostic twiceFile "message" secondMsg]
  /\ range (duplicateDiagnostic twiceFile "message" secondMsg)
     = mkRange (mkPos 2 1 9) (mkPos 2 4 12).
Proof. split; vm_compute; reflexivity. Qed.

(** C7 fails as stated: with [duplicate] in the engine-wide ignore list the
    second occurrence is not flagged, neither by the intra-file check nor by
    the message pass of [compareFiles]. *)
Lemma duplicate_not_flagged_when_ignored :
  laterOccurrences [] (messages twiceFile) = [secondMsg]
  /\ checkSourceGroup analyzerIgnoringDuplicate twiceGroup = Completed []
  /\ snd (indexMessages analyzerIgnoringDuplicate twiceFile) = [].
Proof. repeat split; vm_compute; reflexivity. Qed.

(** X29. The message pass of [compareFiles] takes a message for repeated
    when its identifier occurred earlier in the file or names a member of
    [Object.prototype]: its [duplicate] diagnostics are, in order, one for
    every such message for which ignore resolution does not suppress the
    code.  So the only message of a file is flagged exactly when it is
    named like such a member: a file whose only message is [constructor] is
    reported to hold a duplicate, a file whose only message is [greeting]
    is not. *)
Theorem indexMessages_flags_member_names :
  (forall a file,
      snd (indexMessages a file)
      = map (duplicateDiagnostic file "message")
          (unsuppressed a (repeatedForIndex [] (messages file))))
  /\ (forall m, repeatedForIndex [] [m]
                = if protoMember (el_id (base m)) then [m] else [])
  /\ map reported
       (diagnosticsAfter (singleMessageHost "constructor") analyzer0
          pairCollection)
     = [("duplicate", "file:///strings/fr/a.ftl", 0%Z)]
  /\ diagnosticsAfter (singleMessageHost "greeting") analyzer0 pairCollection
     = [].
Proof.
  split; [|split; [|split]].
  - intros a file.
    exact (indexMessages_fold a file (messages file) [] [] []
             (fun x => eq_refl)).
  - intros m. simpl. rewrite app_nil_r. reflexivity.
  - vm_compute. reflexivity.
  - vm_compute. reflexivity.
Qed.

(** ** Terms in [compareFiles] *)

(** What a loop pushes of one kind of diagnostic, body by body: an initial
    part of what its bodies push, and all of it when the loop returns. *)
Lemma forEach_filter {A : Type} (flt : DiagnosticInfo -> bool)
    (f : A -> Run) (g : A -> list DiagnosticInfo) (l : list A) :
  (forall x, List.filter flt (pushed (f x)) = g x) ->
  exists rest,
    flat_map g l = List.filter flt (pushed (forEach f l)) ++ rest
    /\ (forall ds, forEach f l = Completed ds -> rest = []).
Proof.
  intros Hg. induction l as [|x l (rest & Heq & Hdone)].
  - exists []. split; [reflexivity|]. intros; reflexivity.
  - cbn [forEach fold_right flat_map]. fold (forEach f l).
    rewrite filter_pushed_andThen, Hg.
    destruct (f x) as [d|d u] eqn:Hfx.
    + exists rest. split.
      * rewrite Heq, app_assoc. reflexivity.
      * intros ds Hds. apply andThen_Completed in Hds.
        destruct Hds as (d1 & d2 & _ & H2 & _). eapply Hdone, H2.
    + exists (flat_map g l). split.
      * rewrite app_nil_r. reflexivity.
      * intros ds Hds. discriminate Hds.
Qed.

Lemma objHas_empty {T : Type} (k : string) :
  objHas k ([] : Rec T) = protoMember k.
Proof. unfold objHas, objGet. simpl. destruct (protoMember k); reflexivity. Qed.

Lemma flat_map_named (a : Analyzer) (file : FileInfo) (kind : string)
    (ts : list MessageInfo) :
  flat_map
    (fun t => map (duplicateDiagnostic file kind)
                (List.filter (fun m => negb (ignoredb a m "duplicate"))
                   (if protoMember (el_id (base t)) then [t] else [])))
    ts
  = map (duplicateDiagnostic file kind) (unsuppressed a (namedAsMember ts)).
Proof.
  unfold unsuppressed, namedAsMember.
  induction ts as [|t ts IH]; simpl; [reflexivity|].
  rewrite IH. destruct (protoMember (el_id (base t))); simpl; [|reflexivity].
  destruct (ignoredb a t "duplicate"); reflexivity.
Qed.

Lemma compareTerm_duplicates (a : Analyzer) (file : FileInfo)
    (srcTermById : Rec TermInfo) (t : TermInfo) :
  List.filter (hasCode "duplicate")
    (pushed (compareTerm a file srcTermById [] t))
  = map (duplicateDiagnostic file "term")
      (List.filter (fun m => negb (ignoredb a m "duplicate"))
         (if protoMember (el_id (base t)) then [t] else [])).
Proof.
  unfold compareTerm. rewrite filter_pushed_andThen. cbn [pushed].
  rewrite objHas_empty.
  rewrite (not_duplicate_filter (pushed (match objGet _ _ with
                                         | Own _ => _
                                         | Inherited => _
                                         | Missing => _
                                         end))).
  - rewrite app_nil_r.
    destruct (protoMember (el_id (base t))); [|reflexivity].
    apply filter_duplicate_warning.
  - codes. apply compareAttributes_not_duplicate.
Qed.

Lemma compareTerms_duplicates (a : Analyzer) (file srcFile : FileInfo) :
  exists rest,
    map (duplicateDiagnostic file "term")
      (unsuppressed a (namedAsMember (terms file)))
    = List.filter (hasCode "duplicate") (pushed (compareTerms a file srcFile))
      ++ rest
    /\ (forall ds, compareTerms a file srcFile = Completed ds -> rest = []).
Proof.
  unfold compareTerms. rewrite <- flat_map_named.
  apply forEach_filter. intros t. apply compareTerm_duplicates.
Qed.

Lemma addMissingMessageWarning_not_duplicate (file : FileInfo)
    (m : MessageInfo) :
  Forall (fun d => code d <> "duplicate") (addMissingMessageWarning file m).
Proof.
  unfold addMissingMessageWarning, addWarning.
  destruct (fileIgnores _ _); [constructor|].
  destruct (negb _); repeat constructor. discriminate.
Qed.

Lemma compareSourceMessage_not_duplicate (a : Analyzer) (file : FileInfo)
    (messageById : Rec MessageInfo) (m : MessageInfo) :
  Forall (fun d => code d <> "duplicate")
    (pushed (compareSourceMessage a file messageById m)).
Proof.
  unfold compareSourceMessage.
  destruct (objGet _ _);
    [apply compareMessages_not_duplicate
    |constructor
    |apply addMissingMessageWarning_not_duplicate].
Qed.

Lemma filter_duplicate_diagnostics (file : FileInfo) (kind : string)
    (ms : list MessageInfo) :
  List.filter (hasCode "duplicate") (map (duplicateDiagnostic file kind) ms)
  = map (duplicateDiagnostic file kind) ms.
Proof.
  apply filter_all, Forall_forall. intros d Hd.
  apply list_elem_of_In, in_map_iff in Hd as (m & <- & _). reflexivity.
Qed.

(** C10 (as amended). The term pass of [compareFiles] never writes the
    record it consults, so a term is flagged for what [Object.prototype]
    holds under its identifier and for nothing else: the [duplicate]
    diagnostics of the pass are, in order, one for every term whose
    identifier names a member of [Object.prototype] and for which ignore
    resolution does not suppress the code (all of them when the pass
    returns, the first of them up to where it stops otherwise). Terms whose
    identifiers name no such member are never flagged, however often an
    identifier is repeated; and when the comparison of two files of one
    bundle returns, its [duplicate] diagnostics are those of the terms so
    named and those of the message pass. *)
Theorem compareFiles_flags_terms_by_name :
  (forall a file srcFile ds,
      compareTerms a file srcFile = Completed ds ->
      List.filter (hasCode "duplicate") ds
      = map (duplicateDiagnostic file "term")
          (unsuppressed a (namedAsMember (terms file))))
  /\ (forall a file srcFile,
         exists rest,
           map (duplicateDiagnostic file "term")
             (unsuppressed a (namedAsMember (terms file)))
           = List.filter (hasCode "duplicate")
               (pushed (compareTerms a file srcFile)) ++ rest)
  /\ (forall a file srcFile,
         plainIds (terms file) ->
         Forall (fun d => code d <> "duplicate")
           (pushed (compareTerms a file srcFile)))
  /\ (forall h a file srcFile loc ds,
         compareFiles h a (Some file) srcFile loc = Completed ds ->
         List.filter (hasCode "duplicate") ds
         = if bool_decide (bundle file = bundle srcFile)
           then map (duplicateDiagnostic file "term")
                  (unsuppressed a (namedAsMember (terms file)))
                ++ map (duplicateDiagnostic file "message")
                     (unsuppressed a (repeatedForIndex [] (messages file)))
           else []).
Proof.
  split; [|split; [|split]].
  - intros a file srcFile ds Hds.
    destruct (compareTerms_duplicates a file srcFile) as (rest & Heq & Hdone).
    rewrite Heq, (Hdone _ Hds), app_nil_r, Hds. reflexivity.
  - intros a file srcFile.
    destruct (compareTerms_duplicates a file srcFile) as (rest & Heq & _).
    exists rest. exact Heq.
  - intros a file srcFile Hplain.
    destruct (compareTerms_duplicates a file srcFile) as (rest & Heq & _).
    assert (Hnone : namedAsMember (terms file) = []).
    { unfold namedAsMember. apply filter_none. exact Hplain. }
    rewrite Hnone in Heq. simpl in Heq. symmetry in Heq.
    apply app_eq_nil in Heq as [Heq _].
    apply Forall_forall. intros d Hd Hcode.
    assert (Hin : In d (List.filter (hasCode "duplicate")
                          (pushed (compareTerms a file srcFile)))).
    { apply filter_In. split; [apply list_elem_of_In, Hd|].
      unfold hasCode. rewrite Hcode. reflexivity. }
    rewrite Heq in Hin. exact Hin.
  - intros h a file srcFile loc ds. unfold compareFiles.
    destruct (bool_decide (bundle file = bundle srcFile)); cbn [negb];
      [|intros H; injection H as <-; reflexivity].
    assert (Hidx : snd (indexMessages a file)
                   = map (duplicateDiagnostic file "message")
                       (unsuppressed a (repeatedForIndex [] (messages file))))
      by exact (indexMessages_fold a file (messages file) [] [] []
                  (fun x => eq_refl)).
    destruct (indexMessages a file) as [messageById dupDs].
    simpl in Hidx. subst dupDs.
    intros Hds. apply andThen_Completed in Hds.
    destruct Hds as (d1 & d2 & H1 & H2 & ->).
    apply andThen_Completed in H2. destruct H2 as (d3 & d4 & H3 & H4 & ->).
    apply andThen_Completed in H4. destruct H4 as (d5 & d6 & H5 & H6 & ->).
    apply Completed_inj in H3. apply Completed_inj in H6. subst d3 d6.
    destruct (compareTerms_duplicates a file srcFile) as (rest & Heq & Hdone).
    rewrite (Hdone _ H1), app_nil_r, H1 in Heq. cbn [pushed] in Heq.
    rewrite !List.filter_app, <- Heq, filter_duplicate_diagnostics.
    rewrite !not_duplicate_filter; [rewrite !app_nil_r; reflexivity| |].
    + apply Forall_flat_map, Forall_forall. intros m _.
      destruct (negb _); [|constructor].
      apply addEntryWarning_not_duplicate. discriminate.
    + change d5 with (pushed (Completed d5)). rewrite <- H5.
      apply Forall_pushed_forEach. intros m _.
      apply compareSourceMessage_not_duplicate.
Qed.

(** C10 fails as stated: [fr/a.ftl] holds the term [-constructor] twice
    and [en/a.ftl] holds it once; both occurrences in [fr/a.ftl] are
    flagged, and so is a single one, whereas a term [-brand] is flagged
    neither when it occurs twice nor when it occurs once. *)
Lemma repeated_term_flagged :
  map (fun t => el_id (base t))
    (terms (fileAfterRead (termHost "constructor" 2) analyzer0
              (discovered "fr" "a")))
  = ["constructor"; "constructor"]
  /\ map reported
       (diagnosticsAfter (termHost "constructor" 2) analyzer0 pairCollection)
     = [("duplicate", "file:///strings/fr/a.ftl", 0%Z);
        ("duplicate", "file:///strings/fr/a.ftl", 23%Z)]
  /\ map reported
       (diagnosticsAfter (termHost "constructor" 1) analyzer0 pairCollection)
     = [("duplicate", "file:///strings/fr/a.ftl", 0%Z)]
  /\ diagnosticsAfter (termHost "brand" 2) analyzer0 pairCollection = []
  /\ diagnosticsAfter (termHost "brand" 1) analyzer0 pairCollection = [].
Proof. repeat split; vm_compute; reflexivity. Qed.

(** ** The diagnostic store across re-parses *)

Lemma recGet_recDelete {T : Type} (k : string) (r : Rec T) :
  recGet k (recDelete k r) = None.
Proof.
  induction r as [|[k' v] r IH]; simpl; [reflexivity|].
  destruct (String.eqb k' k) eqn:Hk; [exact IH|].
  simpl. rewrite Hk. exact IH.
Qed.

Lemma addDiagnostics_same_uri (u : string) (ds : list DiagnosticInfo) :
  Forall (fun d => uri d = u) ds ->
  forall m,
    recGet u (addDiagnostics ds m)
    = match ds with
      | [] => recGet u m
      | _ => Some (match recGet u m with Some l => l | None => [] end ++ ds)
      end.
Proof.
  unfold addDiagnostics.
  induction 1 as [|d ds Hd _ IH]; intros m; simpl; [reflexivity|].
  rewrite IH. unfold addDiagnosticTo. rewrite Hd.
  destruct (recGet u m) as [l|] eqn:Hm; rewrite recGet_recSet, String.eqb_refl;
    destruct ds; simpl; rewrite <- ?app_assoc; reflexivity.
Qed.

Lemma addEntryWarning_uri (a : Analyzer) (file : FileInfo) (e : EntryInfo)
    (c : WarnCode) (args : list string) :
  Forall (fun d => uri d = path_uri (file_path file))
    (addEntryWarning a file e c args).
Proof.
  unfold addEntryWarning.
  destruct e as [m|attr];
    [destruct (isTrue (ignoreAll m)); [constructor|];
     destruct (shouldIgnore a (codeName c) [ignore m]); [constructor|] |];
    repeat constructor.
Qed.

Lemma convertMessage_uri (h : Host) (a : Analyzer) (file : FileInfo)
    (n : EntryNode) (state : AnnotationState) (term : bool) :
  Forall (fun d => uri d = path_uri (file_path file))
    (fst (convertMessage h a file n state term)).
Proof.
  unfold convertMessage.
  match goal with
  | |- context [fold_left ?step ?l ?acc] =>
      pose proof (Forall_fold_left_snd
                    (fun d => uri d = path_uri (file_path file)) step) as Hfold;
      specialize (fun H => Hfold H l acc);
      destruct (fold_left step l acc) as [attrs ds]
  end.
  simpl in Hfold.
  assert (Hds : Forall (fun d => uri d = path_uri (file_path file)) ds).
  { apply Hfold; [|constructor].
    intros [rec ds'] attr Hds'. unfold convertAttributesStep. simpl in *.
    apply Forall_app; split; [exact Hds'|].
    destruct (objHas _ rec); repeat constructor. }
  destruct (en_comment n); [|exact Hds].
  destruct (handleEntryAnnotations _ _ _); exact Hds.
Qed.

(** The diagnostics pushed while the entries of a file are read do not
    depend on the analyzer. *)
Lemma convertMessage_analyzer (h : Host) (a a' : Analyzer) (file : FileInfo)
    (n : EntryNode) (state : AnnotationState) (term : bool) :
  convertMessage h a file n state term = convertMessage h a' file n state term.
Proof. reflexivity. Qed.

Lemma readEntries_analyzer (h : Host) (a a' : Analyzer) (entries : list Entry) :
  forall state file ds,
    readEntries h a entries state file ds
    = readEntries h a' entries state file ds.
Proof.
  induction entries as [|e entries IH]; intros state file ds; simpl;
    [reflexivity|].
  destruct e as [n|n|text|annotations|text]; try apply IH.
  - rewrite (convertMessage_analyzer h a a').
    destruct (convertMessage h a' file n state false) as [ws [m|why m]];
      [apply IH | reflexivity].
  - rewrite (convertMessage_analyzer h a a').
    destruct (convertMessage h a' file n state true) as [ws [t|why t]];
      [apply IH | reflexivity].
Qed.

Lemma readEntries_uri (h : Host) (a : Analyzer) (u : string)
    (entries : list Entry) :
  forall state file ds,
    path_uri (file_path file) = u ->
    Forall (fun d => uri d = u) ds ->
    Forall (fun d => uri d = u)
      (snd (outcome (readEntries h a entries state file ds))).
Proof.
  induction entries as [|e entries IH]; intros state file ds Hu Hds; simpl;
    [exact Hds|].
  destruct e as [n|n|text|annotations|text].
  - pose proof (convertMessage_uri h a file n state false) as Hws.
    rewrite Hu in Hws.
    destruct (convertMessage h a file n state false) as [ws [m|why m]];
      simpl in Hws.
    + apply IH; [exact Hu | apply Forall_app; split; assumption].
    + simpl. apply Forall_app; split; assumption.
  - pose proof (convertMessage_uri h a file n state true) as Hws.
    rewrite Hu in Hws.
    destruct (convertMessage h a file n state true) as [ws [t|why t]];
      simpl in Hws.
    + apply IH; [exact Hu | apply Forall_app; split; assumption].
    + simpl. apply Forall_app; split; assumption.
  - apply IH; assumption.
  - apply IH; [exact Hu|]. apply Forall_app; split; [exact Hds|].
    apply Forall_flat_map, Forall_forall. intros r _.
    repeat constructor. exact Hu.
  - apply IH; assumption.
Qed.

(** What one call of [read] leaves in the store under the URI of the file:
    exactly the diagnostics pushed by this call. *)
Lemma read_store (h : Host) (a : Analyzer) (file : FileInfo) :
  getDiagnosticsForUri (fst (outcome (read h a file)))
    (path_uri (file_path file))
  = match parse h file with
    | None => []
    | Some (file', entries) =>
        snd (outcome (readEntries h a entries initialState file' []))
    end.
Proof.
  unfold read, getDiagnosticsForUri.
  set (u := path_uri (file_path file)).
  destruct (parse h file) as [[file' entries]|] eqn:Hparse.
  - assert (Hu : path_uri (file_path file') = u).
    { unfold parse in Hparse.
      destruct (readFile h (path_uri (file_path file))); [|discriminate].
      injection Hparse as <- _. reflexivity. }
    rewrite (readEntries_analyzer h _ a).
    pose proof (readEntries_uri h a u entries initialState file' [] Hu
                  (List.Forall_nil _)) as Hds.
    destruct (readEntries h a entries initialState file' [])
      as [[[state f] ds]|why [[state f] ds]]; simpl in *;
      rewrite (addDiagnostics_same_uri u ds Hds), recGet_recDelete;
      destruct ds; reflexivity.
  - simpl. rewrite recGet_recDelete. reflexivity.
Qed.

(** C9. After [read], the list stored under the file's URI holds only what
    this call pushed: it is the same whatever the store held before, it is
    empty when the content cannot be read, and [getDiagnosticsForUri] is
    empty for a URI without a recorded list. *)
Theorem read_discards_previous_diagnostics :
  (forall h a file store,
      getDiagnosticsForUri
        (fst (outcome (read h (withDiagnostics a store) file)))
        (path_uri (file_path file))
      = getDiagnosticsForUri (fst (outcome (read h a file)))
          (path_uri (file_path file)))
  /\ (forall h a file,
         readFile h (path_uri (file_path file)) = None ->
         getDiagnosticsForUri (fst (outcome (read h a file)))
           (path_uri (file_path file)) = [])
  /\ (forall a u, recGet u (diagnostics a) = None ->
                  getDiagnosticsForUri a u = []).
Proof.
  split; [|split].
  - intros h a file store. rewrite !read_store.
    destruct (parse h file) as [[file' entries]|]; [|reflexivity].
    rewrite (readEntries_analyzer h _ a). reflexivity.
  - intros h a file Hread. rewrite read_store. unfold parse.
    rewrite Hread. reflexivity.
  - intros a u Hu. unfold getDiagnosticsForUri. rewrite Hu. reflexivity.
Qed.

(** ** Collections without a source group *)

Lemma recGet_keys {T U : Type} (k : string) (r : Rec T) :
  forall r' : Rec U,
    map fst r = map fst r' -> recGet k r = None -> recGet k r' = None.
Proof.
  induction r as [|[k1 v1] r IH]; intros [|[k2 v2] r'] Hkeys Hget;
    simpl in *; try discriminate; [reflexivity|].
  injection Hkeys as -> Hkeys.
  destruct (String.eqb k2 k); [discriminate|]. eapply IH; eassumption.
Qed.

Lemma read_sourceLocale (h : Host) (a : Analyzer) (file : FileInfo) :
  sourceLocale (fst (outcome (read h a file))) = sourceLocale a.
Proof.
  unfold read. destruct (parse h file) as [[file' entries]|]; [|reflexivity].
  destruct (readEntries _ _ _ _ _ _) as [[[s f] ds]|why [[s f] ds]]; reflexivity.
Qed.

Lemma readFiles_invariant (h : Host) (todo : Rec FileInfo) :
  forall a done,
    sourceLocale (fst (outcome (readFiles h a done todo))) = sourceLocale a
    /\ map fst (snd (outcome (readFiles h a done todo)))
       = map fst (done ++ todo).
Proof.
  induction todo as [|[k file] todo IH]; intros a done; simpl.
  - rewrite app_nil_r. split; reflexivity.
  - pose proof (read_sourceLocale h a file) as Hsrc.
    destruct (read h a file) as [[a' file']|why [a' file']]; simpl in *.
    + destruct (IH a' (done ++ [(k, file')])) as [H1 H2].
      rewrite H1, H2, Hsrc, <- app_assoc, !map_app. split; reflexivity.
    + rewrite !map_app. split; [exact Hsrc | reflexivity].
Qed.

Lemma readGroup_sourceLocale (h : Host) (a : Analyzer) (g : FileGroup) :
  sourceLocale (fst (outcome (readGroup h a g))) = sourceLocale a.
Proof.
  unfold readGroup.
  pose proof (readFiles_invariant h (files g) a []) as [H _].
  destruct (readFiles h a [] (files g)) as [[a' fs]|why [a' fs]]; exact H.
Qed.

Lemma readGroups_invariant (h : Host) (todo : Rec FileGroup) :
  forall a done,
    sourceLocale (fst (outcome (readGroups h a done todo))) = sourceLocale a
    /\ map fst (snd (outcome (readGroups h a done todo)))
       = map fst (done ++ todo).
Proof.
  induction todo as [|[k g] todo IH]; intros a done; simpl.
  - rewrite app_nil_r. split; reflexivity.
  - pose proof (readGroup_sourceLocale h a g) as Hsrc.
    destruct (readGroup h a g) as [[a' g']|why [a' g']]; simpl in *.
    + destruct (IH a' (done ++ [(k, g')])) as [H1 H2].
      rewrite H1, H2, Hsrc, <- app_assoc, !map_app. split; reflexivity.
    + rewrite !map_app. split; [exact Hsrc | reflexivity].
Qed.

(** C1 (as amended). When no group of the collection sits under the
    source-locale key, [processCollection] does nothing beyond reading
    every group in order: the analyzer and the collection it leaves are
    those left by the reads (so the store holds only what parsing pushed,
    syntax errors and duplicate attributes); neither the intra-file check
    for duplicate identifiers nor any comparison is run. *)
Theorem processCollection_without_source_group (h : Host) (a : Analyzer)
    (c : FileCollection) :
  recGet (sourceLocale a) (groups c) = None ->
  processCollection h a c
  = match readGroups h a [] (groups c) with
    | Normal (a', gs) => Normal (a', mkCollection (coll_path c) gs)
    | Stopped why (a', gs) =>
        Stopped why (a', mkCollection (coll_path c) gs)
    end.
Proof.
  intros Hsrc. unfold processCollection.
  pose proof (readGroups_invariant h (groups c) a []) as [Hloc Hkeys].
  destruct (readGroups h a [] (groups c)) as [[a' gs]|why [a' gs]];
    simpl in *; [|reflexivity].
  rewrite Hloc.
  rewrite (recGet_keys (sourceLocale a) (groups c) gs (eq_sym Hkeys) Hsrc).
  reflexivity.
Qed.

Lemma processCollection_without_source_group_witness :
  recGet (sourceLocale analyzer0) (groups frOnlyCollection) = None
  /\ processCollection frOnlyHost analyzer0 frOnlyCollection
     = match readGroups frOnlyHost analyzer0 [] (groups frOnlyCollection) with
       | Normal (a', gs) =>
           Normal (a', mkCollection (coll_path frOnlyCollection) gs)
       | Stopped why (a', gs) =>
           Stopped why (a', mkCollection (coll_path frOnlyCollection) gs)
       end.
Proof.
  split; [reflexivity|].
  apply (processCollection_without_source_group frOnlyHost analyzer0
           frOnlyCollection).
  reflexivity.
Defined.

(** C1 fails as stated: the only group of the collection is [fr], its file
    holds [msg] twice, and the run leaves no diagnostic at all, although the
    intra-file check on the group as read would flag the second [msg]. *)
Lemma no_source_group_no_intra_file_check :
  recGet (sourceLocale analyzer0) (groups frOnlyCollection) = None
  /\ diagnosticsAfter frOnlyHost analyzer0 frOnlyCollection = []
  /\ (let r := outcome (processCollection frOnlyHost analyzer0
                          frOnlyCollection) in
      map code
        (flat_map (fun kg => pushed (checkSourceGroup (fst r) (snd kg)))
           (groups (snd r)))
      = ["duplicate"]).
Proof. repeat split; vm_compute; reflexivity. Qed.

(** ** Missing files *)

Lemma fileIgnores_addFileIgnore (c x : string) (f : FileInfo) :
  fileIgnores c (addFileIgnore x f) = String.eqb x c || fileIgnores c f.
Proof.
  unfold fileIgnores, addFileIgnore. simpl.
  destruct (file_ignore f) as [s|];
    destruct (String.eqb_spec x c) as [->|Hne]; simpl.
  - apply bool_decide_eq_true. set_solver.
  - apply bool_decide_ext. set_solver.
  - apply bool_decide_eq_true. set_solver.
  - apply bool_decide_eq_false. set_solver.
Qed.

(** What [read] records for [missing-file] from the final annotation state
    of the resource. *)
Lemma finishRead_missing_file (state : AnnotationState) (file : FileInfo) :
  fileIgnores "missing-file" (finishRead state file)
  = fileIgnores "missing-file" file
    || isTrue (st_ignoreAll state)
    || negb (TranslateType_eqb (st_translate state) Required)
    || bool_decide ("missing-file" ∈ st_ignore state)
    || bool_decide ("missing" ∈ st_ignore state).
Proof.
  unfold finishRead.
  assert (Hb : forall b f,
             fileIgnores "missing-file" (withBundle b f)
             = fileIgnores "missing-file" f) by reflexivity.
  destruct (isTrue (st_global state)), (isTrue (st_ignoreAll state)),
    (negb (TranslateType_eqb (st_translate state) Required)),
    (bool_decide ("missing-file" ∈ st_ignore state)),
    (bool_decide ("missing" ∈ st_ignore state)),
    (bool_decide ("unknown-file" ∈ st_ignore state)),
    (bool_decide ("unknown" ∈ st_ignore state));
    cbn [orb];
    try (destruct (st_bundle state) as [b|]; [destruct (Js.truthy b)|]);
    rewrite ?fileIgnores_addFileIgnore, ?Hb; cbn [String.eqb orb];
    rewrite ?orb_true_r, ?orb_false_r; reflexivity.
Qed.

Lemma addMissingFileWarning_spec (h : Host) (a : Analyzer) (srcFile : FileInfo)
    (loc : string) :
  addMissingFileWarning h a srcFile loc
  = if fileIgnores "missing-file" srcFile then []
    else [missingFileDiagnostic h a srcFile loc].
Proof. reflexivity. Qed.

(** C5 (the code at the failing input). [en/greet.ftl] has no counterpart in
    [fr].  With the resource annotation [@diagnostic disable missing-file]
    the [missing-file] warning is still pushed; it is with
    [@diagnostic enable missing-file] that it is suppressed, while a
    [@diagnostic disable] without codes (here followed by a comment)
    suppresses it through [ignoreAll]. *)
Theorem missing_file_disable_annotation_inverted :
  map (fun d => (code d, uri d, message d))
    (diagnosticsAfter (greetHost "@diagnostic disable missing-file")
       analyzer0 greetCollection)
  = [("missing-file", "file:///strings/en/greet.ftl",
      "File /strings/fr/greet.ftl is missing")]
  /\ diagnosticsAfter (greetHost "@diagnostic enable missing-file")
       analyzer0 greetCollection = []
  /\ diagnosticsAfter (greetHost "@diagnostic disable # all")
       analyzer0 greetCollection = []
  /\ handleDiagnosticAnnotation (∅, None)
       (mkAnnot "@diagnostic" "disable missing-file") = (∅, None)
  /\ handleDiagnosticAnnotation (∅, None)
       (mkAnnot "@diagnostic" "enable missing-file")
     = ({["missing-file"]} ∪ ∅, None).
Proof. repeat split; vm_compute; reflexivity. Qed.

(** ** Discovery *)
Module DiscoveryFacts.
Import Discovery.

Lemma FsNode_nested_ind (P : FsNode -> Prop) :
  P FsFile -> P FsOther ->
  (forall es, Forall (fun e => P (snd e)) es -> P (FsDir es)) ->
  forall n, P n.
Proof.
  intros HFile HOther HDir. fix IH 1. intros [|es|].
  - exact HFile.
  - apply HDir. induction es as [|[k n] es IHes]; constructor.
    + apply IH.
    + exact IHes.
  - exact HOther.
Qed.

Lemma assoc_Some_In (k : string) (es : list (string * FsNode)) (n : FsNode) :
  assoc k es = Some n -> In (k, n) es.
Proof.
  induction es as [|[k' n'] es IH]; simpl; [discriminate|].
  destruct (String.eqb_spec k' k) as [->|Hne].
  - intros [= ->]. left. reflexivity.
  - intros H. right. apply IH, H.
Qed.

Lemma assoc_In (k : string) (es : list (string * FsNode)) (n : FsNode) :
  NoDup (map fst es) -> In (k, n) es -> assoc k es = Some n.
Proof.
  induction es as [|[k' n'] es IH]; simpl; intros Hnd Hin; [contradiction|].
  apply NoDup_cons in Hnd as [Hk' Hnd].
  destruct Hin as [[= -> ->]|Hin].
  - rewrite String.eqb_refl. reflexivity.
  - destruct (String.eqb_spec k' k) as [->|Hne]; [|apply IH; assumption].
    exfalso. apply Hk'. apply list_elem_of_In, in_map_iff.
    exists (k, n). split; [reflexivity | exact Hin].
Qed.

Lemma lookupNode_snoc (p : Path) (c : string) :
  forall n,
    lookupNode n (p ++ [c])
    = match lookupNode n p with
      | Some (FsDir es) => assoc c es
      | _ => None
      end.
Proof.
  induction p as [|d p IH]; intros n; simpl.
  - destruct n as [|es|]; try reflexivity.
    destruct (assoc c es); reflexivity.
  - destruct n as [|es|]; try reflexivity.
    destruct (assoc d es) as [n'|]; [apply IH | reflexivity].
Qed.

Lemma wellFormed_dir (es : list (string * FsNode)) :
  wellFormed (FsDir es) ->
  NoDup (map fst es) /\ forall k n, In (k, n) es -> wellFormed n.
Proof.
  simpl. intros [Hnd Hall]. split; [exact Hnd|].
  clear Hnd. induction es as [|[k' n'] es IH]; intros k n Hin;
    [contradiction|].
  destruct Hall as [Hn' Hall]. destruct Hin as [[= -> ->]|Hin].
  - exact Hn'.
  - eapply IH; eassumption.
Qed.

Lemma wellFormed_lookup (p : Path) :
  forall root n,
    wellFormed root -> lookupNode root p = Some n -> wellFormed n.
Proof.
  induction p as [|c p IH]; intros root n Hwf; simpl.
  - intros [= <-]. exact Hwf.
  - destruct root as [|es|]; try discriminate.
    destruct (assoc c es) as [n'|] eqn:Hc; [|discriminate].
    apply IH. apply wellFormed_dir in Hwf as [_ Hall].
    eapply Hall, assoc_Some_In, Hc.
Qed.

Lemma lookupNode_child (root : FsNode) (p : Path)
    (es : list (string * FsNode)) (k : string) (n : FsNode) :
  wellFormed root ->
  lookupNode root p = Some (FsDir es) ->
  In (k, n) es ->
  lookupNode root (p ++ [k]) = Some n.
Proof.
  intros Hwf Hp Hin. rewrite lookupNode_snoc, Hp.
  apply assoc_In; [|exact Hin].
  eapply wellFormed_dir, wellFormed_lookup; eassumption.
Qed.

Lemma lookupNode_parent (root : FsNode) (p : Path) (n : FsNode) :
  p <> [] ->
  lookupNode root p = Some n ->
  exists es, lookupNode root (removelast p) = Some (FsDir es).
Proof.
  intros Hp Hlook.
  rewrite (app_removelast_last EmptyString Hp), lookupNode_snoc in Hlook.
  destruct (lookupNode root (removelast p)) as [[|es|]|]; try discriminate.
  eauto.
Qed.

Lemma elem_of_pathAdd (f p : Path) (ps : list Path) :
  f ∈ pathAdd p ps <-> f = p \/ f ∈ ps.
Proof.
  unfold pathAdd. destruct (bool_decide (p ∈ ps)) eqn:Hp.
  - apply bool_decide_eq_true in Hp. split; [auto|].
    intros [->|H]; assumption.
  - rewrite elem_of_app, list_elem_of_singleton. tauto.
Qed.

Lemma NoDup_pathAdd (p : Path) (ps : list Path) :
  NoDup ps -> NoDup (pathAdd p ps).
Proof.
  intros Hnd. unfold pathAdd. destruct (bool_decide (p ∈ ps)) eqn:Hp.
  - exact Hnd.
  - apply bool_decide_eq_false in Hp. apply NoDup_app.
    split; [exact Hnd|]. split; [|apply NoDup_singleton].
    intros x Hx Hx'. apply list_elem_of_singleton in Hx'. subst x. auto.
Qed.

Lemma recGet_Some_In {T : Type} (k : string) (r : Rec T) (v : T) :
  recGet k r = Some v -> In (k, v) r.
Proof.
  induction r as [|[k' v'] r IH]; simpl; [discriminate|].
  destruct (String.eqb_spec k' k) as [->|Hne].
  - intros [= ->]. left. reflexivity.
  - intros H. right. apply IH, H.
Qed.

Lemma recGet_In {T : Type} (k : string) (r : Rec T) (v : T) :
  NoDup (map fst r) -> In (k, v) r -> recGet k r = Some v.
Proof.
  induction r as [|[k' v'] r IH]; simpl; intros Hnd Hin; [contradiction|].
  apply NoDup_cons in Hnd as [Hk' Hnd].
  destruct Hin as [[= -> ->]|Hin].
  - rewrite String.eqb_refl. reflexivity.
  - destruct (String.eqb_spec k' k) as [->|Hne]; [|apply IH; assumption].
    exfalso. apply Hk'. apply list_elem_of_In, in_map_iff.
    exists (k, v). split; [reflexivity | exact Hin].
Qed.

Lemma recSet_keys {T : Type} (k : string) (v : T) (r : Rec T) :
  map fst (recSet k v r)
  = if isSome (recGet k r) then map fst r else map fst r ++ [k].
Proof.
  induction r as [|[k' v'] r IH]; simpl; [reflexivity|].
  destruct (String.eqb_spec k' k) as [->|Hne]; simpl; [reflexivity|].
  rewrite IH. destruct (isSome (recGet k r)); reflexivity.
Qed.

Lemma recGet_None_keys {T : Type} (k : string) (r : Rec T) :
  recGet k r = None -> k ∉ map fst r.
Proof.
  induction r as [|[k' v'] r IH]; simpl; intros Hget Hin.
  - inversion Hin.
  - destruct (String.eqb_spec k' k) as [->|Hne]; [discriminate|].
    apply elem_of_cons in Hin as [->|Hin]; [contradiction|].
    exact (IH Hget Hin).
Qed.

Lemma recSet_NoDup {T : Type} (k : string) (v : T) (r : Rec T) :
  NoDup (map fst r) -> NoDup (map fst (recSet k v r)).
Proof.
  intros Hnd. rewrite recSet_keys.
  destruct (recGet k r) eqn:Hget; simpl; [exact Hnd|].
  apply NoDup_app. split; [exact Hnd|]. split; [|apply NoDup_singleton].
  intros x Hx Hx'. apply list_elem_of_singleton in Hx'. subst x.
  exact (recGet_None_keys k r Hget Hx).
Qed.

Lemma In_recSet_same {T : Type} (k : string) (v : T) (r : Rec T) :
  In (k, v) (recSet k v r).
Proof.
  induction r as [|[k' v'] r IH]; simpl; [left; reflexivity|].
  destruct (String.eqb k' k); simpl; [left; reflexivity | right; exact IH].
Qed.

Lemma In_recSet_other {T : Type} (k k' : string) (v v' : T) (r : Rec T) :
  k' <> k -> In (k', v') r -> In (k', v') (recSet k v r).
Proof.
  intros Hne. induction r as [|[k1 v1] r IH]; simpl; [contradiction|].
  intros [[= -> ->]|Hin].
  - destruct (String.eqb_spec k' k) as [->|_]; [contradiction|].
    left. reflexivity.
  - destruct (String.eqb k1 k); simpl; right; auto.
Qed.

Lemma In_recSet_inv {T : Type} (k k' : string) (v v' : T) (r : Rec T) :
  NoDup (map fst r) ->
  In (k', v') (recSet k v r) ->
  (k' = k /\ v' = v) \/ (k' <> k /\ In (k', v') r).
Proof.
  induction r as [|[k1 v1] r IH]; simpl; intros Hnd Hin.
  - destruct Hin as [[= <- <-]|[]]. left. split; reflexivity.
  - apply NoDup_cons in Hnd as [Hk1 Hnd].
    destruct (String.eqb_spec k1 k) as [->|Hne]; simpl in Hin.
    + destruct Hin as [[= <- <-]|Hin]; [left; split; reflexivity|].
      right. split; [|right; exact Hin].
      intros ->. apply Hk1. apply list_elem_of_In, in_map_iff.
      exists (k, v'). split; [reflexivity | exact Hin].
    + destruct Hin as [[= <- <-]|Hin].
      * right. split; [exact Hne | left; reflexivity].
      * destruct (IH Hnd Hin) as [H|[H1 H2]]; [left; exact H|].
        right. split; [exact H1 | right; exact H2].
Qed.

Lemma elem_of_groups (f : Path) (gs : Rec (list Path)) :
  f ∈ concat (recValues gs) <-> exists k g, In (k, g) gs /\ f ∈ g.
Proof.
  unfold recValues. induction gs as [|[k g] gs IH]; simpl.
  - split; [intros H; inversion H | intros (k & g & [] & _)].
  - rewrite elem_of_app, IH. split.
    + intros [H|(k' & g' & Hin & Hf)]; [exists k, g | exists k', g']; auto.
    + intros (k' & g' & [[= <- <-]|Hin] & Hf); [left; exact Hf|].
      right. eauto.
Qed.

Lemma groupsWithin_set (dir : Path) (loc name : string)
    (gs : Rec (list Path)) :
  groupsWithin dir gs ->
  groupsWithin dir
    (recSet loc
       (pathAdd ((dir ++ [loc]) ++ [name])
          match recGet loc gs with Some g => g | None => [] end) gs).
Proof.
  intros [Hkeys Hgs]. split; [apply recSet_NoDup, Hkeys|].
  intros k g Hin. apply In_recSet_inv in Hin as [[-> ->]|[Hne Hin]];
    [|apply Hgs, Hin | exact Hkeys].
  assert (Hold : NoDup (match recGet loc gs with Some g => g | None => [] end)
                 /\ forall f,
                      f ∈ match recGet loc gs with Some g => g | None => [] end ->
                      exists name, f = dir ++ [loc; name]).
  { destruct (recGet loc gs) as [g|] eqn:Hget.
    - apply Hgs, recGet_Some_In, Hget.
    - split; [constructor | intros f Hf; inversion Hf]. }
  destruct Hold as [Hnd Hfiles]. split; [apply NoDup_pathAdd, Hnd|].
  intros f Hf. apply elem_of_pathAdd in Hf as [->|Hf]; [|apply Hfiles, Hf].
  exists name. rewrite <- app_assoc. reflexivity.
Qed.

Lemma groups_set_mono (loc : string) (p f : Path) (gs : Rec (list Path)) :
  NoDup (map fst gs) ->
  f ∈ concat (recValues gs) ->
  f ∈ concat (recValues
                (recSet loc
                   (pathAdd p match recGet loc gs with
                              | Some g => g
                              | None => []
                              end) gs)).
Proof.
  intros Hkeys Hf. apply elem_of_groups in Hf as (k & g & Hin & Hf).
  apply elem_of_groups. destruct (String.eqb_spec k loc) as [->|Hne].
  - eexists loc, _. split; [apply In_recSet_same|].
    rewrite (recGet_In loc gs g Hkeys Hin).
    apply elem_of_pathAdd. right. exact Hf.
  - exists k, g. split; [apply In_recSet_other; assumption | exact Hf].
Qed.

Lemma groups_set_new (loc : string) (p : Path) (gs : Rec (list Path)) :
  p ∈ concat (recValues
                (recSet loc
                   (pathAdd p match recGet loc gs with
                              | Some g => g
                              | None => []
                              end) gs)).
Proof.
  apply elem_of_groups. eexists loc, _. split; [apply In_recSet_same|].
  apply elem_of_pathAdd. left. reflexivity.
Qed.

Lemma groups_set_inv (loc : string) (p f : Path) (gs : Rec (list Path)) :
  NoDup (map fst gs) ->
  f ∈ concat (recValues
                (recSet loc
                   (pathAdd p match recGet loc gs with
                              | Some g => g
                              | None => []
                              end) gs)) ->
  f = p \/ f ∈ concat (recValues gs).
Proof.
  intros Hkeys Hf. apply elem_of_groups in Hf as (k & g & Hin & Hf).
  apply In_recSet_inv in Hin as [[-> ->]|[Hne Hin]]; [|  | exact Hkeys].
  - apply elem_of_pathAdd in Hf as [->|Hf]; [left; reflexivity|].
    right. destruct (recGet loc gs) as [g|] eqn:Hget; [|inversion Hf].
    apply elem_of_groups. exists loc, g.
    split; [apply recGet_Some_In, Hget | exact Hf].
  - right. apply elem_of_groups. eauto.
Qed.

(** The inner loop of [getCollection] on one locale folder. *)
Lemma addLocaleFiles_spec (dir : Path) (loc : string)
    (es : list (string * FsNode)) :
  forall gs gs',
    groupsWithin dir gs ->
    addLocaleFiles (dir ++ [loc]) loc es gs = Some gs' ->
    groupsWithin dir gs'
    /\ (forall f, f ∈ concat (recValues gs) -> f ∈ concat (recValues gs'))
    /\ (forall name n, In (name, n) es ->
                       (dir ++ [loc]) ++ [name] ∈ concat (recValues gs'))
    /\ (forall f, f ∈ concat (recValues gs') ->
                  f ∈ concat (recValues gs)
                  \/ exists name, In (name, FsFile) es /\ isFtl name = true
                                  /\ f = (dir ++ [loc]) ++ [name]).
Proof.
  induction es as [|[name n] es IH]; intros gs gs' Hgs Hadd; simpl in Hadd.
  - injection Hadd as <-. split; [exact Hgs|]. split; [auto|].
    split; [intros name n []|auto].
  - destruct (negb (isFile n) || negb (isFtl name)) eqn:Hok; [discriminate|].
    apply orb_false_iff in Hok as [Hfile Hftl].
    apply negb_false_iff in Hfile, Hftl.
    destruct n; try discriminate.
    pose proof (groupsWithin_set dir loc name gs Hgs) as Hgs1.
    destruct (IH _ _ Hgs1 Hadd) as (Hgs' & Hmono & Hnew & Hinv).
    split; [exact Hgs'|]. split; [|split].
    + intros f Hf. apply Hmono, groups_set_mono; [apply Hgs | exact Hf].
    + intros name' n' [[= <- <-]|Hin]; [|eapply Hnew, Hin].
      apply Hmono, groups_set_new.
    + intros f Hf. destruct (Hinv f Hf) as [Hf1|(name' & Hin & Hftl' & ->)].
      * apply groups_set_inv in Hf1 as [->|Hf1]; [|left; exact Hf1|apply Hgs].
        right. exists name. split; [left; reflexivity|]. split; auto.
      * right. exists name'. split; [right; exact Hin|]. split; auto.
Qed.

(** The loop of [getCollection] over the locale folders. *)
Lemma addLocales_spec (root : FsNode) (dir : Path) (locs : list string) :
  forall gs,
    groupsWithin dir gs ->
    (forall loc, In loc locs -> exists es, readdir root (dir ++ [loc]) = Some es) ->
    exists r,
      addLocales root dir locs gs = Ok r
      /\ forall gs', r = Some gs' ->
           groupsWithin dir gs'
           /\ (forall f, f ∈ concat (recValues gs) -> f ∈ concat (recValues gs'))
           /\ (forall loc es name n,
                  In loc locs -> readdir root (dir ++ [loc]) = Some es ->
                  In (name, n) es ->
                  (dir ++ [loc]) ++ [name] ∈ concat (recValues gs'))
           /\ (forall f, f ∈ concat (recValues gs') ->
                  f ∈ concat (recValues gs)
                  \/ exists loc es name,
                       readdir root (dir ++ [loc]) = Some es
                       /\ In (name, FsFile) es /\ isFtl name = true
                       /\ f = (dir ++ [loc]) ++ [name]).
Proof.
  induction locs as [|loc locs IH]; intros gs Hgs Hdirs; simpl.
  - exists (Some gs). split; [reflexivity|]. intros gs' [= <-].
    split; [exact Hgs|]. split; [auto|].
    split; [intros loc es name n []|auto].
  - destruct (Hdirs loc (or_introl eq_refl)) as [es Hes]. rewrite Hes.
    destruct (addLocaleFiles (dir ++ [loc]) loc es gs) as [gs1|] eqn:Hadd.
    + destruct (addLocaleFiles_spec dir loc es gs gs1 Hgs Hadd)
        as (Hgs1 & Hmono1 & Hnew1 & Hinv1).
      destruct (IH gs1 Hgs1 (fun l Hl => Hdirs l (or_intror Hl)))
        as (r & Hr & Hspec).
      exists r. split; [exact Hr|]. intros gs' ->.
      destruct (Hspec gs' eq_refl) as (Hgs' & Hmono & Hnew & Hinv).
      split; [exact Hgs'|]. split; [|split].
      * intros f Hf. apply Hmono, Hmono1, Hf.
      * intros loc' es' name n [<-|Hin] Hes' Hname.
        -- rewrite Hes in Hes'. injection Hes' as <-.
           eapply Hmono, Hnew1, Hname.
        -- eapply Hnew; eassumption.
      * intros f Hf. destruct (Hinv f Hf) as [Hf1|Hf1]; [|right; exact Hf1].
        destruct (Hinv1 f Hf1) as [Hf0|(name & Hin & Hftl & ->)];
          [left; exact Hf0|].
        right. exists loc, es, name. auto.
    + exists None. split; [reflexivity|]. discriminate.
Qed.

Lemma assoc_directory (loc : string) (entries : list (string * FsNode)) :
  forallb (fun e => isDirectory (snd e)) entries = true ->
  In loc (map fst entries) ->
  exists es, assoc loc entries = Some (FsDir es).
Proof.
  induction entries as [|[k n] entries IH]; simpl; intros Hall Hin;
    [contradiction|].
  apply andb_true_iff in Hall as [Hn Hall].
  destruct (String.eqb_spec k loc) as [->|Hne].
  - destruct n; try discriminate. eauto.
  - destruct Hin as [Hk|Hin]; [contradiction|]. apply IH; assumption.
Qed.

Lemma readdir_lookup (root : FsNode) (p : Path)
    (es : list (string * FsNode)) :
  readdir root p = Some es <-> lookupNode root p = Some (FsDir es).
Proof.
  unfold readdir. destruct (lookupNode root p) as [[|es'|]|];
    split; intros H; try discriminate; injection H as ->; reflexivity.
Qed.

(** [getCollection] on a directory of the snapshot never fails; a
    collection it returns holds exactly the entries of the subdirectories,
    all of them resource files. *)
Lemma getCollection_spec (root : FsNode) (dir : Path)
    (entries : list (string * FsNode)) :
  lookupNode root dir = Some (FsDir entries) ->
  exists r,
    getCollection root dir = Ok r
    /\ forall c, r = Some c ->
         coll_dir c = dir
         /\ groupsWithin dir (coll_groups c)
         /\ (forall loc es name n,
                lookupNode root (dir ++ [loc]) = Some (FsDir es) ->
                In (name, n) es ->
                (dir ++ [loc]) ++ [name] ∈ collectionFiles c)
         /\ (forall f, f ∈ collectionFiles c ->
                exists loc es name,
                  lookupNode root (dir ++ [loc]) = Some (FsDir es)
                  /\ In (name, FsFile) es /\ isFtl name = true
                  /\ f = (dir ++ [loc]) ++ [name]).
Proof.
  intros Hdir. unfold getCollection.
  rewrite (proj2 (readdir_lookup root dir entries) Hdir).
  destruct (forallb (fun e => isDirectory (snd e)) entries) eqn:Hall; simpl.
  2:{ exists None. split; [reflexivity | discriminate]. }
  assert (Hempty : groupsWithin dir []).
  { split; [constructor | intros k g []]. }
  destruct (addLocales_spec root dir (map fst entries) [] Hempty)
    as (r & Hr & Hspec).
  { intros loc Hloc.
    destruct (assoc_directory loc entries Hall Hloc) as [es Hes].
    exists es. apply readdir_lookup. rewrite lookupNode_snoc, Hdir. exact Hes. }
  rewrite Hr. destruct r as [gs|].
  2:{ exists None. split; [reflexivity | discriminate]. }
  exists (Some (mkColl dir gs)). split; [reflexivity|].
  intros c [= <-]. destruct (Hspec gs eq_refl) as (Hgs & _ & Hnew & Hinv).
  split; [reflexivity|]. split; [exact Hgs|]. split.
  - intros loc es name n Hloc Hin. unfold collectionFiles. simpl.
    eapply Hnew; [|apply readdir_lookup, Hloc|exact Hin].
    rewrite lookupNode_snoc, Hdir in Hloc.
    apply assoc_Some_In in Hloc. apply in_map_iff.
    exists (loc, FsDir es). split; [reflexivity | exact Hloc].
  - intros f Hf. unfold collectionFiles in Hf. simpl in Hf.
    destruct (Hinv f Hf) as [Hf0|(loc & es & name & Hes & Hin & Hftl & ->)].
    + inversion Hf0.
    + exists loc, es, name. split; [apply readdir_lookup, Hes|]. auto.
Qed.

Lemma parentOf_snoc (p : Path) (c : string) : parentOf (p ++ [c]) = Some p.
Proof.
  unfold parentOf. rewrite removelast_last.
  destruct p; reflexivity.
Qed.

Lemma getCollection_readdir (root : FsNode) (dir : Path) (c : Collection) :
  getCollection root dir = Ok (Some c) ->
  exists entries, lookupNode root dir = Some (FsDir entries).
Proof.
  unfold getCollection. destruct (readdir root dir) as [entries|] eqn:Hdir;
    [|discriminate].
  intros _. exists entries. apply readdir_lookup, Hdir.
Qed.

(** What [findCollection] returns for a folder is how every file of the
    returned collection is classified. *)
Lemma findCollection_files (root : FsNode) (cur : Path) (c : Collection) :
  findCollection root cur = Ok (Some c) ->
  forall f, f ∈ collectionFiles c -> classOf root f = Ok (Some c).
Proof.
  unfold findCollection. destruct (parentOf cur) as [dir|] eqn:Hparent;
    [|discriminate].
  destruct (isPathInside (Some dir)) eqn:Hinside; [|discriminate].
  intros Hget f Hf.
  destruct (getCollection_readdir root dir c Hget) as [entries Hdir].
  destruct (getCollection_spec root dir entries Hdir) as (r & Hr & Hspec).
  rewrite Hget in Hr. injection Hr as <-.
  destruct (Hspec c eq_refl) as (_ & _ & _ & Hinv).
  destruct (Hinv f Hf) as (loc & es & name & _ & _ & _ & ->).
  unfold classOf, findCollection.
  rewrite removelast_last, parentOf_snoc, Hinside. exact Hget.
Qed.

Lemma groupsWithin_NoDup (dir : Path) (gs : Rec (list Path)) :
  groupsWithin dir gs -> NoDup (concat (recValues gs)).
Proof.
  unfold recValues. intros [Hkeys Hgs].
  induction gs as [|[k g] gs IH]; simpl; [constructor|].
  apply NoDup_cons in Hkeys as [Hk Hkeys]. apply NoDup_app.
  split; [apply (Hgs k g); left; reflexivity|]. split.
  - intros f Hf Hf'.
    destruct (Hgs k g (or_introl eq_refl)) as [_ Hform].
    destruct (Hform f Hf) as [name ->].
    apply (elem_of_groups _ gs) in Hf' as (k' & g' & Hin & Hf').
    destruct (Hgs k' g' (or_intror Hin)) as [_ Hform'].
    destruct (Hform' _ Hf') as [name' Heq].
    apply app_inv_head in Heq. injection Heq as -> _.
    apply Hk. apply list_elem_of_In, in_map_iff.
    exists (k', g'). split; [reflexivity | exact Hin].
  - apply IH; [exact Hkeys|]. intros k' g' Hin. apply Hgs. right. exact Hin.
Qed.

Lemma elem_of_allFiles (f : Path) (ctx : DiscoveryResult) :
  f ∈ allFiles ctx
  <-> (exists c, c ∈ collections ctx /\ f ∈ collectionFiles c)
      \/ f ∈ ungrouped ctx.
Proof.
  unfold allFiles. rewrite elem_of_app, list_elem_of_In, in_flat_map.
  split; intros [(c & Hc & Hf)|H]; auto; left; exists c;
    rewrite ?list_elem_of_In in *; auto.
Qed.

Lemma elem_of_fold_add (x : Path) (l : list Path) :
  forall s : gset Path,
    x ∈ fold_left (fun s u => {[u]} ∪ s) l s <-> x ∈ l \/ x ∈ s.
Proof.
  induction l as [|y l IH]; intros s; simpl.
  - split; [auto | intros [H|H]; [inversion H | exact H]].
  - rewrite IH, elem_of_union, elem_of_singleton, elem_of_cons. tauto.
Qed.

Lemma findCollection_total (root : FsNode) (cur : Path) (n : FsNode) :
  lookupNode root cur = Some n ->
  exists r, findCollection root cur = Ok r.
Proof.
  intros Hcur. unfold findCollection.
  destruct (parentOf cur) as [dir|] eqn:Hparent; [|eauto].
  destruct (isPathInside (Some dir)); [|eauto].
  assert (Hne : cur <> []) by (intros ->; discriminate).
  destruct (lookupNode_parent root cur n Hne Hcur) as [entries Hdir].
  unfold parentOf in Hparent. destruct cur; [contradiction|].
  injection Hparent as <-.
  destruct (getCollection_spec root _ entries Hdir) as (r & Hr & _). eauto.
Qed.

(** The file that triggers the lookup belongs to the collection found. *)
Lemma findCollection_trigger (root : FsNode) (cur : Path)
    (es : list (string * FsNode)) (name : string) (n : FsNode)
    (c : Collection) :
  lookupNode root cur = Some (FsDir es) ->
  In (name, n) es ->
  findCollection root cur = Ok (Some c) ->
  cur ++ [name] ∈ collectionFiles c.
Proof.
  intros Hcur Hin. unfold findCollection.
  destruct (parentOf cur) as [dir|] eqn:Hparent; [|discriminate].
  destruct (isPathInside (Some dir)); [|discriminate].
  intros Hget.
  assert (Hne : cur <> []) by (intros ->; discriminate).
  unfold parentOf in Hparent. destruct cur as [|c0 cur0]; [contradiction|].
  injection Hparent as <-.
  destruct (getCollection_readdir root _ c Hget) as [entries Hdir].
  destruct (getCollection_spec root _ entries Hdir) as (r & Hr & Hspec).
  rewrite Hget in Hr. injection Hr as <-.
  destruct (Hspec c eq_refl) as (_ & _ & Hnew & _).
  rewrite (app_removelast_last EmptyString Hne) in Hcur |- *.
  eapply Hnew; eassumption.
Qed.

Lemma findCollection_sound (root : FsNode) (cur : Path) (c : Collection) :
  wellFormed root ->
  findCollection root cur = Ok (Some c) ->
  forall f, f ∈ collectionFiles c -> resourceFile root f.
Proof.
  intros Hwf. unfold findCollection.
  destruct (parentOf cur) as [dir|]; [|discriminate].
  destruct (isPathInside (Some dir)); [|discriminate].
  intros Hget f Hf.
  destruct (getCollection_readdir root dir c Hget) as [entries Hdir].
  destruct (getCollection_spec root dir entries Hdir) as (r & Hr & Hspec).
  rewrite Hget in Hr. injection Hr as <-.
  destruct (Hspec c eq_refl) as (_ & _ & _ & Hinv).
  destruct (Hinv f Hf) as (loc & es & name & Hes & Hin & Hftl & ->).
  exists (dir ++ [loc]), name. split; [reflexivity|]. split; [|exact Hftl].
  eapply lookupNode_child; eassumption.
Qed.

Lemma findCollection_NoDup (root : FsNode) (cur : Path) (c : Collection) :
  findCollection root cur = Ok (Some c) -> NoDup (collectionFiles c).
Proof.
  unfold findCollection.
  destruct (parentOf cur) as [dir|]; [|discriminate].
  destruct (isPathInside (Some dir)); [|discriminate].
  intros Hget.
  destruct (getCollection_readdir root dir c Hget) as [entries Hdir].
  destruct (getCollection_spec root dir entries Hdir) as (r & Hr & Hspec).
  rewrite Hget in Hr. injection Hr as <-.
  destruct (Hspec c eq_refl) as (_ & Hgs & _).
  eapply groupsWithin_NoDup, Hgs.
Qed.

Lemma Invariant_add_ungrouped (root : FsNode) (ctx : DiscoveryResult)
    (f : Path) :
  Invariant root ctx ->
  f ∉ uris ctx ->
  classOf root f = Ok None ->
  resourceFile root f ->
  Invariant root
    (mkResult (collections ctx) (pathAdd f (ungrouped ctx))
       ({[f]} ∪ uris ctx)).
Proof.
  intros [Hnd Huris Hcoll Hung Hfiles] Hf Hclass Hres.
  assert (Hnew : f ∉ allFiles ctx) by (rewrite <- Huris; exact Hf).
  assert (Hmem : forall g,
             g ∈ allFiles (mkResult (collections ctx)
                             (pathAdd f (ungrouped ctx)) ({[f]} ∪ uris ctx))
             <-> g = f \/ g ∈ allFiles ctx).
  { intros g. unfold allFiles. simpl.
    rewrite !elem_of_app, elem_of_pathAdd. tauto. }
  constructor; simpl.
  - unfold allFiles in *. simpl. apply NoDup_app in Hnd as (HA & Hdisj & HU).
    apply NoDup_app. split; [exact HA|]. split.
    + intros x Hx Hx'. apply elem_of_pathAdd in Hx' as [->|Hx'].
      * apply Hnew. apply elem_of_app. left. exact Hx.
      * exact (Hdisj x Hx Hx').
    + apply NoDup_pathAdd, HU.
  - intros g. rewrite Hmem, elem_of_union, elem_of_singleton, Huris.
    reflexivity.
  - exact Hcoll.
  - intros g Hg. apply elem_of_pathAdd in Hg as [->|Hg]; auto.
  - intros g Hg. apply Hmem in Hg as [->|Hg]; auto.
Qed.

Lemma Invariant_add_collection (root : FsNode) (ctx : DiscoveryResult)
    (cur : Path) (c : Collection) (f : Path) :
  wellFormed root ->
  Invariant root ctx ->
  findCollection root cur = Ok (Some c) ->
  f ∈ collectionFiles c ->
  f ∉ uris ctx ->
  Invariant root
    (mkResult (collections ctx ++ [c]) (ungrouped ctx)
       (fold_left (fun s u => {[u]} ∪ s) (collectionFiles c) (uris ctx))).
Proof.
  intros Hwf [Hnd Huris Hcoll Hung Hfiles] Hfind Hf Hnew.
  assert (Hclass : forall g, g ∈ collectionFiles c ->
                             classOf root g = Ok (Some c))
    by (apply (findCollection_files root cur c Hfind)).
  assert (Hfresh : forall g, g ∈ collectionFiles c -> g ∉ allFiles ctx).
  { intros g Hg Hold. apply elem_of_allFiles in Hold as [(c' & Hc' & Hg')|Hg'].
    - pose proof (Hcoll c' Hc' g Hg') as H1. rewrite (Hclass g Hg) in H1.
      injection H1 as <-. apply Hnew, Huris, elem_of_allFiles.
      left. exists c. split; assumption.
    - pose proof (Hung g Hg') as H1. rewrite (Hclass g Hg) in H1.
      discriminate. }
  assert (Hmem : forall g,
             g ∈ allFiles (mkResult (collections ctx ++ [c]) (ungrouped ctx)
                             (fold_left (fun s u => {[u]} ∪ s)
                                (collectionFiles c) (uris ctx)))
             <-> g ∈ collectionFiles c \/ g ∈ allFiles ctx).
  { intros g. unfold allFiles. simpl.
    rewrite flat_map_app. simpl. rewrite app_nil_r, !elem_of_app. tauto. }
  constructor; simpl.
  - unfold allFiles in *. simpl. rewrite flat_map_app. simpl.
    rewrite app_nil_r. apply NoDup_app in Hnd as (HA & Hdisj & HU).
    apply NoDup_app. split; [|split; [|exact HU]].
    + apply NoDup_app. split; [exact HA|]. split.
      * intros x Hx Hx'. apply (Hfresh x Hx'). apply elem_of_app. left.
        exact Hx.
      * apply (findCollection_NoDup root cur c Hfind).
    + intros x Hx Hx'. apply elem_of_app in Hx as [Hx|Hx].
      * exact (Hdisj x Hx Hx').
      * apply (Hfresh x Hx). apply elem_of_app. right. exact Hx'.
  - intros g. rewrite Hmem, elem_of_fold_add, Huris. reflexivity.
  - intros c' Hc' g Hg. apply elem_of_app in Hc' as [Hc'|Hc'].
    + exact (Hcoll c' Hc' g Hg).
    + apply list_elem_of_singleton in Hc'. subst c'. exact (Hclass g Hg).
  - exact Hung.
  - intros g Hg. apply Hmem in Hg as [Hg|Hg]; [|auto].
    exact (findCollection_sound root cur c Hwf Hfind g Hg).
Qed.

(** One iteration of the first loop of [discoverInternal]. *)
Lemma visitEntry_spec (root : FsNode) (cur : Path)
    (es : list (string * FsNode)) (ctx : DiscoveryResult) (name : string)
    (n : FsNode) :
  wellFormed root ->
  lookupNode root cur = Some (FsDir es) ->
  In (name, n) es ->
  Invariant root ctx ->
  exists ctx',
    visitEntry root cur ctx (name, n) = Ok ctx'
    /\ Invariant root ctx'
    /\ (forall f, f ∈ allFiles ctx -> f ∈ allFiles ctx')
    /\ (n = FsFile -> isFtl name = true -> cur ++ [name] ∈ allFiles ctx').
Proof.
  intros Hwf Hcur Hin Hinv. unfold visitEntry.
  destruct (isDirectory n) eqn:Hdir.
  { exists ctx. split; [reflexivity|]. split; [exact Hinv|].
    split; [auto|]. intros ->. discriminate. }
  destruct (negb (isFile n) || negb (isFtl name)) eqn:Hskip.
  { exists ctx. split; [reflexivity|]. split; [exact Hinv|].
    split; [auto|]. intros -> Hftl. rewrite Hftl in Hskip. discriminate. }
  apply orb_false_iff in Hskip as [Hfile Hftl].
  apply negb_false_iff in Hfile, Hftl.
  destruct n; try discriminate.
  destruct (bool_decide (cur ++ [name] ∈ uris ctx)) eqn:Hseen.
  { apply bool_decide_eq_true in Hseen. exists ctx.
    split; [reflexivity|]. split; [exact Hinv|]. split; [auto|].
    intros _ _. apply (inv_uris root ctx Hinv), Hseen. }
  apply bool_decide_eq_false in Hseen.
  assert (Hres : resourceFile root (cur ++ [name])).
  { exists cur, name. split; [reflexivity|]. split; [|exact Hftl].
    eapply lookupNode_child; eassumption. }
  destruct (findCollection_total root cur _ Hcur) as [[c|] Hfind];
    rewrite Hfind.
  - pose proof (findCollection_trigger root cur es name FsFile c Hcur Hin Hfind)
      as Htrigger.
    eexists. split; [reflexivity|]. split; [|split].
    + eapply Invariant_add_collection; eassumption.
    + intros f Hf. unfold allFiles in *. simpl. rewrite flat_map_app.
      rewrite !elem_of_app in *. tauto.
    + intros _ _. unfold allFiles. simpl. rewrite flat_map_app. simpl.
      rewrite app_nil_r, !elem_of_app. auto.
  - eexists. split; [reflexivity|]. split; [|split].
    + apply Invariant_add_ungrouped; try assumption.
      unfold classOf. rewrite removelast_last. exact Hfind.
    + intros f Hf. unfold allFiles in *. simpl.
      rewrite !elem_of_app, elem_of_pathAdd in *. tauto.
    + intros _ _. unfold allFiles. simpl.
      rewrite !elem_of_app, elem_of_pathAdd. auto.
Qed.

(** The first loop of [discoverInternal] over (a part of) the entries of
    [cur]. *)
Lemma visitEntries_spec (root : FsNode) (cur : Path)
    (es : list (string * FsNode)) :
  wellFormed root ->
  lookupNode root cur = Some (FsDir es) ->
  forall part ctx,
    (forall e, In e part -> In e es) ->
    Invariant root ctx ->
    exists ctx',
      visitEntries root cur ctx part = Ok ctx'
      /\ Invariant root ctx'
      /\ (forall f, f ∈ allFiles ctx -> f ∈ allFiles ctx')
      /\ (forall name, In (name, FsFile) part -> isFtl name = true ->
                       cur ++ [name] ∈ allFiles ctx').
Proof.
  intros Hwf Hcur part.
  induction part as [|[name n] part IH]; intros ctx Hsub Hinv;
    cbn [visitEntries].
  - exists ctx. split; [reflexivity|]. split; [exact Hinv|].
    split; [auto | intros name []].
  - destruct (visitEntry_spec root cur es ctx name n Hwf Hcur
                (Hsub _ (or_introl eq_refl)) Hinv)
      as (ctx1 & Hvisit & Hinv1 & Hmono1 & Hnew1).
    rewrite Hvisit.
    destruct (IH ctx1 (fun e He => Hsub e (or_intror He)) Hinv1)
      as (ctx' & Hrest & Hinv' & Hmono & Hnew).
    exists ctx'. split; [exact Hrest|]. split; [exact Hinv'|]. split.
    + intros f Hf. apply Hmono, Hmono1, Hf.
    + intros name' [[= -> ->]|Hin] Hftl.
      * apply Hmono, Hnew1; [reflexivity | exact Hftl].
      * apply Hnew; assumption.
Qed.

(** The second loop, given the specification of the recursive calls. *)
Lemma walkDirs_spec (root : FsNode) (cur : Path)
    (es : list (string * FsNode)) :
  wellFormed root ->
  lookupNode root cur = Some (FsDir es) ->
  forall part,
    (forall e, In e part -> In e es) ->
    Forall
      (fun e =>
         forall sub ctx,
           snd e = FsDir sub ->
           Invariant root ctx ->
           exists ctx',
             discoverInternal root (cur ++ [fst e]) (snd e) ctx = Ok ctx'
             /\ Invariant root ctx'
             /\ (forall f, f ∈ allFiles ctx -> f ∈ allFiles ctx')
             /\ (forall q es' name,
                    descends (cur ++ [fst e]) sub q es' ->
                    In (name, FsFile) es' -> isFtl name = true ->
                    q ++ [name] ∈ allFiles ctx'))
      part ->
    forall ctx,
      Invariant root ctx ->
      exists ctx',
        walkDirs (discoverInternal root) cur part ctx = Ok ctx'
        /\ Invariant root ctx'
        /\ (forall f, f ∈ allFiles ctx -> f ∈ allFiles ctx')
        /\ (forall dname sub q es' name,
               In (dname, FsDir sub) part ->
               Js.startsWith "." dname = false ->
               descends (cur ++ [dname]) sub q es' ->
               In (name, FsFile) es' -> isFtl name = true ->
               q ++ [name] ∈ allFiles ctx').
Proof.
  intros Hwf Hcur part.
  induction part as [|[dname child] part IH]; intros Hsub Hrec ctx Hinv;
    cbn [walkDirs].
  - exists ctx. split; [reflexivity|]. split; [exact Hinv|].
    split; [auto | intros dname sub q es' name []].
  - apply Forall_cons in Hrec as [Hchild Hrec].
    specialize (IH (fun e He => Hsub e (or_intror He)) Hrec).
    destruct (isDirectory child && negb (Js.startsWith "." dname)) eqn:Henter.
    + apply andb_true_iff in Henter as [Hdir Hdot].
      apply negb_true_iff in Hdot.
      destruct child as [|sub|]; try discriminate.
      destruct (Hchild sub ctx eq_refl Hinv)
        as (ctx1 & Hcall & Hinv1 & Hmono1 & Hcover1).
      cbn [fst snd] in Hcall, Hcover1. rewrite Hcall.
      destruct (IH ctx1 Hinv1) as (ctx' & Hrest & Hinv' & Hmono & Hcover).
      exists ctx'. split; [exact Hrest|]. split; [exact Hinv'|]. split.
      * intros f Hf. apply Hmono, Hmono1, Hf.
      * intros dname' sub' q es' name [[= -> ->]|Hin] Hdot' Hdesc Hname Hftl.
        -- eapply Hmono, Hcover1; eassumption.
        -- eapply Hcover; eassumption.
    + destruct (IH ctx Hinv) as (ctx' & Hrest & Hinv' & Hmono & Hcover).
      exists ctx'. split; [exact Hrest|]. split; [exact Hinv'|].
      split; [exact Hmono|].
      intros dname' sub' q es' name [[= -> ->]|Hin] Hdot' Hdesc Hname Hftl.
      * simpl in Henter. rewrite Hdot' in Henter. discriminate.
      * eapply Hcover; eassumption.
Qed.

(** [discoverInternal] on a directory of the snapshot. *)
Lemma discoverInternal_spec (root : FsNode) :
  wellFormed root ->
  forall node cur es ctx,
    node = FsDir es ->
    lookupNode root cur = Some node ->
    Invariant root ctx ->
    exists ctx',
      discoverInternal root cur node ctx = Ok ctx'
      /\ Invariant root ctx'
      /\ (forall f, f ∈ allFiles ctx -> f ∈ allFiles ctx')
      /\ (forall q es' name,
             descends cur es q es' ->
             In (name, FsFile) es' -> isFtl name = true ->
             q ++ [name] ∈ allFiles ctx').
Proof.
  intros Hwf node.
  induction node as [| |entries IH] using FsNode_nested_ind;
    intros cur es ctx Hnode Hcur Hinv; try discriminate.
  injection Hnode as <-. simpl.
  destruct (visitEntries_spec root cur entries Hwf Hcur entries ctx
              (fun e He => He) Hinv)
    as (ctx1 & Hvisit & Hinv1 & Hmono1 & Hnew1).
  rewrite Hvisit.
  destruct (walkDirs_spec root cur entries Hwf Hcur entries
              (fun e He => He)) with (ctx := ctx1)
    as (ctx' & Hwalk & Hinv' & Hmono & Hcover); [|exact Hinv1|].
  { apply Forall_forall. intros [dname child] Hin sub ctx0 Hchild Hinv0.
    simpl in *. subst child.
    apply list_elem_of_In in Hin.
    eapply (proj1 (Forall_forall _ _) IH (dname, FsDir sub));
      [apply list_elem_of_In, Hin | reflexivity | | exact Hinv0].
    eapply lookupNode_child; eassumption. }
  exists ctx'. split; [exact Hwalk|]. split; [exact Hinv'|]. split.
  - intros f Hf. apply Hmono, Hmono1, Hf.
  - intros q es' name Hdesc Hname Hftl.
    inversion Hdesc as [p0 es0|p0 es0 dname sub q0 es0' Hin Hdot Hdesc'];
      subst.
    + apply Hmono, Hnew1; assumption.
    + eapply Hcover; eassumption.
Qed.

Lemma Invariant_empty (root : FsNode) : Invariant root emptyResult.
Proof.
  constructor; simpl.
  - constructor.
  - intros f. split; intros H; [set_solver | inversion H].
  - intros c H. inversion H.
  - intros f H. inversion H.
  - intros f H. inversion H.
Qed.

(** C6. On a snapshot whose directories have unique entry names, discovery
    from a base directory returns a result (no fatal error) in which no file
    occurs twice, neither within or across the collection groups nor in the
    ungrouped set nor in both; every reachable resource file occurs in it;
    the claimed URIs are exactly the files of the result, each of them a
    resource file of the snapshot; and where a file lands is fixed by the
    snapshot alone, whatever the order of the directory entries: an
    ungrouped file is one whose folder yields no collection, a file of a
    collection is one whose folder yields that collection.  Discovery being
    a function of the snapshot, a second run over an unchanged tree returns
    the same result. *)
Theorem discover_partitions_files (root : FsNode) :
  wellFormed root ->
  isDirectory root = true ->
  exists r,
    discover root = Ok r
    /\ NoDup (allFiles r)
    /\ (forall f, reachable root f -> f ∈ allFiles r)
    /\ (forall f, f ∈ uris r <-> f ∈ allFiles r)
    /\ (forall f, f ∈ allFiles r -> resourceFile root f)
    /\ (forall f, f ∈ ungrouped r -> classOf root f = Ok None)
    /\ (forall c f, c ∈ collections r -> f ∈ collectionFiles c ->
                    classOf root f = Ok (Some c))
    /\ (forall r', discover root = Ok r' -> r' = r).
Proof.
  intros Hwf Hdir. destruct root as [|es0|]; try discriminate.
  destruct (discoverInternal_spec (FsDir es0) Hwf (FsDir es0) [] es0
              emptyResult eq_refl eq_refl (Invariant_empty _))
    as (r & Hrun & [Hnd Huris Hcoll Hung Hfiles] & _ & Hcover).
  exists r. unfold discover. split; [exact Hrun|]. split; [exact Hnd|].
  split; [|split; [exact Huris|split; [exact Hfiles|split; [exact Hung|split]]]].
  - intros f (es & p & es' & name & [= <-] & Hdesc & Hin & Hftl & ->).
    eapply Hcover; eassumption.
  - intros c f Hc. apply Hcoll, Hc.
  - intros r' Hr'. rewrite Hrun in Hr'. injection Hr' as <-. reflexivity.
Qed.

End DiscoveryFacts.

Lemma sampleTree_wellFormed : Discovery.wellFormed sampleTree.
Proof.
  simpl. repeat split;
    solve [apply (bool_decide_unpack _); vm_compute; exact I].
Qed.

Lemma discover_partitions_files_witness :
  Discovery.wellFormed sampleTree
  /\ Discovery.isDirectory sampleTree = true
  /\ exists r,
       Discovery.discover sampleTree = Discovery.Ok r
       /\ NoDup (Discovery.allFiles r)
       /\ (forall f, Discovery.reachable sampleTree f ->
                     f ∈ Discovery.allFiles r)
       /\ (forall f, f ∈ Discovery.uris r <-> f ∈ Discovery.allFiles r)
       /\ (forall f, f ∈ Discovery.allFiles r ->
                     Discovery.resourceFile sampleTree f)
       /\ (forall f, f ∈ Discovery.ungrouped r ->
                     Discovery.classOf sampleTree f = Discovery.Ok None)
       /\ (forall c f, c ∈ Discovery.collections r ->
                       f ∈ Discovery.collectionFiles c ->
                       Discovery.classOf sampleTree f = Discovery.Ok (Some c))
       /\ (forall r', Discovery.discover sampleTree = Discovery.Ok r' ->
                      r' = r).
Proof.
  split; [exact sampleTree_wellFormed|]. split; [reflexivity|].
  apply (DiscoveryFacts.discover_partitions_files sampleTree).
  - exact sampleTree_wellFormed.
  - reflexivity.
Defined.

(** The result of discovery on the sample snapshot. *)
Lemma discover_sampleTree :
  exists r,
    Discovery.discover sampleTree = Discovery.Ok r
    /\ map Discovery.collectionFiles (Discovery.collections r)
       = [[["strings"; "en"; "greet.ftl"]; ["strings"; "fr"; "greet.ftl"]];
          [["misc"; "b"; "sub"; "y.ftl"]]]
    /\ Discovery.ungrouped r = [["loose.ftl"]; ["misc"; "a"; "x.FTL"]].
Proof. eexists. split; [vm_compute; reflexivity|]. split; reflexivity. Qed.

(** ** Lines and columns *)

Lemma lineAndColLoop_prefix (p : string) :
  forall rest ln col,
    lineAndColLoop (String.length p) (p +:+ rest) ln col
    = ((ln + Z.of_nat (newlinesIn p))%Z,
       match lastIndexOf newlineChar p with
       | Some k => Z.of_nat (String.length p - k)
       | None => (col + Z.of_nat (String.length p))%Z
       end).
Proof.
  induction p as [|c p IH]; intros rest ln col.
  - simpl. f_equal; lia.
  - change (String c p +:+ rest) with (String c (p +:+ rest)).
    cbn [String.length lineAndColLoop newlinesIn lastIndexOf].
    destruct (Ascii.eqb c newlineChar); rewrite IH;
      destruct (lastIndexOf newlineChar p) as [k|]; f_equal; try lia.
Qed.

(** X1. The position computed for the index at the end of a prefix [p] of
    the text: the line is one more than the number of newlines in [p]; the
    column is the distance from the last newline of [p], or one more than the
    length of [p] when it has none.  The text after the index plays no
    part. *)
Theorem getLineAndCol_prefix (p rest : string) :
  getLineAndCol (p +:+ rest) (Z.of_nat (String.length p))
  = ((1 + Z.of_nat (newlinesIn p))%Z,
     match lastIndexOf newlineChar p with
     | Some k => Z.of_nat (String.length p - k)
     | None => (1 + Z.of_nat (String.length p))%Z
     end).
Proof.
  unfold getLineAndCol. rewrite Nat2Z.id. apply lineAndColLoop_prefix.
Qed.

Lemma lineAndColLoop_add (i k : nat) :
  forall text ln col,
    lineAndColLoop (i + k) text ln col
    = let '(l, c) := lineAndColLoop i text ln col in
      lineAndColLoop k (Js.drop i text) l c.
Proof.
  induction i as [|i IH]; intros text ln col; simpl.
  - destruct text; reflexivity.
  - destruct text as [|c text]; [|destruct (Ascii.eqb c newlineChar)];
      rewrite IH; try reflexivity.
    destruct i; reflexivity.
Qed.

Lemma lineAndColLoop_monotone (k : nat) :
  forall text ln col,
    let '(l, c) := lineAndColLoop k text ln col in
    (ln < l \/ (ln = l /\ col <= c))%Z /\ (1 <= col -> 1 <= c)%Z.
Proof.
  induction k as [|k IH]; intros text ln col; simpl.
  - lia.
  - destruct text as [|c text]; [|destruct (Ascii.eqb c newlineChar)].
    + specialize (IH EmptyString ln (col + 1)%Z).
      destruct (lineAndColLoop k EmptyString ln (col + 1)%Z). lia.
    + specialize (IH text (ln + 1)%Z 1%Z).
      destruct (lineAndColLoop k text (ln + 1)%Z 1%Z). lia.
    + specialize (IH text ln (col + 1)%Z).
      destruct (lineAndColLoop k text ln (col + 1)%Z). lia.
Qed.

(** X2. A span with non-negative offsets [s <= s + k] is turned into a
    range whose indexes are the two offsets and whose start position is at
    or before its end position; the lines and columns of both positions are
    at least 1. *)
Theorem spanToRange_ordered (content : string) (s k : nat) :
  index (rangeStart (rangeOf content s k)) = Z.of_nat s
  /\ index (rangeEnd (rangeOf content s k)) = Z.of_nat (s + k)
  /\ positionLe (rangeStart (rangeOf content s k))
       (rangeEnd (rangeOf content s k))
  /\ (1 <= line (rangeStart (rangeOf content s k))
      /\ 1 <= column (rangeStart (rangeOf content s k)))%Z
  /\ (1 <= line (rangeEnd (rangeOf content s k))
      /\ 1 <= column (rangeEnd (rangeOf content s k)))%Z.
Proof.
  unfold rangeOf, spanToRange, positionLe. cbn [spanStart spanEnd].
  destruct (Z.ltb_spec (Z.of_nat s) 0) as [H|_]; [lia|].
  destruct (Z.ltb_spec (Z.of_nat (s + k)) 0) as [H|_]; [lia|].
  unfold getLineAndCol. rewrite !Nat2Z.id, lineAndColLoop_add.
  pose proof (lineAndColLoop_monotone s content 1 1) as H1.
  destruct (lineAndColLoop s content 1 1) as [l1 c1].
  pose proof (lineAndColLoop_monotone k (Js.drop s content) l1 c1) as H2.
  destruct (lineAndColLoop k (Js.drop s content) l1 c1) as [l2 c2].
  simpl. lia.
Qed.

(** ** Lines of a comment and its annotations *)

Lemma matchLines_cons_nonempty (c : ascii) (s : string) :
  matchLines (String c s) <> [].
Proof.
  simpl. destruct (Ascii.eqb c newlineChar); [discriminate|].
  destruct (matchLines s); discriminate.
Qed.

(** X3. The line matches of a comment cut it into pieces without losing or
    adding a character: their concatenation is the content; no piece is
    empty; a newline occurs in a piece only as its last character. *)
Theorem matchLines_partition (content : string) :
  concatStrings (matchLines content) = content
  /\ Forall (fun l => l <> EmptyString
                      /\ forall n, Js.indexOf newlineChar l = Some n ->
                                   S n = String.length l)
       (matchLines content).
Proof.
  induction content as [|c s [IHcat IHall]]; simpl.
  - split; [reflexivity | constructor].
  - destruct (Ascii.eqb c newlineChar) eqn:Hc.
    + split; [rewrite <- IHcat at 2; reflexivity|].
      constructor; [|exact IHall]. split; [discriminate|].
      intros n. simpl. rewrite Hc. intros [= <-]. reflexivity.
    + destruct (matchLines s) as [|l ls] eqn:Hs.
      * split; [rewrite <- IHcat; reflexivity|].
        constructor; [|constructor]. split; [discriminate|].
        intros n. simpl. rewrite Hc. discriminate.
      * split; [rewrite <- IHcat; reflexivity|].
        apply Forall_cons in IHall as [[Hl Hn] IHall].
        constructor; [|exact IHall]. split; [discriminate|].
        intros n. simpl. rewrite Hc.
        destruct (Js.indexOf newlineChar l) as [m|]; [|discriminate].
        intros [= <-]. rewrite (Hn m eq_refl). reflexivity.
Qed.

Lemma trimStart_idem (s : string) :
  Js.trimStart (Js.trimStart s) = Js.trimStart s.
Proof.
  induction s as [|a s IH]; simpl; [reflexivity|].
  destruct (Js.isSpace a) eqn:Ha; [exact IH|]. simpl. rewrite Ha. reflexivity.
Qed.

Lemma trimEnd_idem (s : string) : Js.trimEnd (Js.trimEnd s) = Js.trimEnd s.
Proof.
  induction s as [|a s IH]; simpl; [reflexivity|].
  destruct (Js.trimEnd s) as [|b r] eqn:Hs.
  - destruct (Js.isSpace a) eqn:Ha; simpl; [reflexivity|]. rewrite Ha.
    reflexivity.
  - simpl in IH |- *. rewrite IH. reflexivity.
Qed.

Lemma trimStart_trimEnd (s : string) :
  Js.trimStart s = s -> Js.trimStart (Js.trimEnd s) = Js.trimEnd s.
Proof.
  destruct s as [|a s]; [reflexivity|]. simpl.
  destruct (Js.isSpace a) eqn:Ha.
  - intros H. exfalso.
    assert (Hlen : forall t, String.length (Js.trimStart t) <= String.length t).
    { induction t as [|b t IHt]; simpl; [lia|].
      destruct (Js.isSpace b); simpl; lia. }
    pose proof (Hlen s) as Hs. rewrite H in Hs. simpl in Hs. lia.
  - intros _. destruct (Js.trimEnd s); simpl; rewrite Ha; reflexivity.
Qed.

Lemma trim_idem (s : string) : Js.trim (Js.trim s) = Js.trim s.
Proof.
  unfold Js.trim.
  rewrite (trimStart_trimEnd (Js.trimStart s) (trimStart_idem s)).
  apply trimEnd_idem.
Qed.

Lemma indexOf_take (c : ascii) (s : string) (n : nat) :
  Js.indexOf c s = Some n -> Js.indexOf c (Js.take n s) = None.
Proof.
  revert n. induction s as [|a s IH]; intros n; simpl; [discriminate|].
  destruct (Ascii.eqb a c) eqn:Ha.
  - intros [= <-]. reflexivity.
  - destruct (Js.indexOf c s) as [m|]; [|discriminate].
    intros [= <-]. simpl. rewrite Ha, (IH m eq_refl). reflexivity.
Qed.

Lemma indexOf_trimEnd (c : ascii) (s : string) :
  Js.indexOf c s = None -> Js.indexOf c (Js.trimEnd s) = None.
Proof.
  induction s as [|a s IH]; simpl; [reflexivity|].
  destruct (Ascii.eqb a c) eqn:Ha; [discriminate|].
  destruct (Js.indexOf c s) as [m|]; [discriminate|]. intros _.
  specialize (IH eq_refl).
  destruct (Js.trimEnd s) as [|b r].
  - destruct (Js.isSpace a); simpl; [reflexivity|]. rewrite Ha. reflexivity.
  - simpl in IH |- *. rewrite Ha.
    destruct (Ascii.eqb b c); [discriminate|].
    destruct (Js.indexOf c r); [discriminate | reflexivity].
Qed.

Lemma startsWith_at (s : string) :
  Js.startsWith "@" s = true -> exists m, s = String "@" m.
Proof.
  destruct s as [|c m]; [discriminate|].
  unfold Js.startsWith. cbn [String.prefix].
  destruct (ascii_dec "@" c) as [<-|]; [eauto | discriminate].
Qed.

Lemma startsWith_at_cons (m : string) : Js.startsWith "@" (String "@" m) = true.
Proof.
  unfold Js.startsWith. cbn [String.prefix].
  destruct (ascii_dec "@" "@") as [_|H]; [|contradiction].
  destruct m; reflexivity.
Qed.

Lemma readAnnotsStep_annotation (m : string) :
  Js.startsWith "@" m = true ->
  forall lines annotations,
    exists a,
      readAnnotsStep (lines, annotations) m = (lines, annotations ++ [a])
      /\ Js.startsWith "@" (annot_name a) = true
      /\ Js.indexOf spaceChar (annot_name a) = None
      /\ isTrimmed (annot_value a).
Proof.
  intros Hat lines annotations. unfold readAnnotsStep. rewrite Hat. simpl.
  eexists. split; [reflexivity|]. simpl.
  destruct (startsWith_at m Hat) as [m' ->]. clear Hat. rename m' into m.
  destruct (Js.indexOf spaceChar (String "@" m)) as [n|] eqn:Hsp.
  - split; [|split].
    + change (Js.indexOf spaceChar (String "@" m))
        with (match Js.indexOf spaceChar m with
              | Some k => Some (S k)
              | None => None
              end) in Hsp.
      destruct (Js.indexOf spaceChar m); [|discriminate].
      injection Hsp as <-. apply startsWith_at_cons.
    + apply indexOf_take, Hsp.
    + apply trim_idem.
  - split; [|split].
    + simpl. destruct (Js.trimEnd m); apply startsWith_at_cons.
    + apply indexOf_trimEnd, Hsp.
    + reflexivity.
Qed.

Lemma readAnnots_fold (ms : list string) :
  forall lines annotations,
    Forall (fun a => Js.startsWith "@" (annot_name a) = true
                     /\ Js.indexOf spaceChar (annot_name a) = None
                     /\ isTrimmed (annot_value a)) annotations ->
    let r := fold_left readAnnotsStep ms (lines, annotations) in
    Forall (fun a => Js.startsWith "@" (annot_name a) = true
                     /\ Js.indexOf spaceChar (annot_name a) = None
                     /\ isTrimmed (annot_value a)) (snd r)
    /\ length (snd r)
       = length annotations + length (List.filter (Js.startsWith "@") ms)
    /\ fst r = lines ++ List.filter (fun m => negb (Js.startsWith "@" m)) ms.
Proof.
  induction ms as [|m ms IH]; intros lines annotations Hall; cbv zeta;
    cbn [fold_left List.filter].
  - simpl. rewrite app_nil_r. split; [exact Hall|]. split; [lia | reflexivity].
  - destruct (Js.startsWith "@" m) eqn:Hat; cbn [negb].
    + destruct (readAnnotsStep_annotation m Hat lines annotations)
        as (a & -> & Ha).
      destruct (IH lines (annotations ++ [a])) as (H1 & H2 & H3).
      { apply Forall_app. split; [exact Hall | repeat constructor; apply Ha]. }
      split; [exact H1|]. split; [|exact H3].
      rewrite H2, length_app. simpl. lia.
    + assert (Hstep : readAnnotsStep (lines, annotations) m
                      = (lines ++ [m], annotations))
        by (unfold readAnnotsStep; rewrite Hat; reflexivity).
      rewrite Hstep.
      destruct (IH (lines ++ [m]) annotations Hall) as (H1 & H2 & H3).
      split; [exact H1|]. split; [exact H2|].
      rewrite H3, <- app_assoc. reflexivity.
Qed.

(** X4. The annotations extracted from a comment are as many as its lines
    that start with [@]; the name of each starts with [@] and holds no
    space, its value has no white space at either end; the remaining lines,
    in order, make up the comment, which is trimmed as well. *)
Theorem readAnnots_shape (content : string) :
  length (ex_annotations (readAnnots content))
  = length (List.filter (Js.startsWith "@") (matchLines content))
  /\ Forall (fun a => Js.startsWith "@" (annot_name a) = true
                      /\ Js.indexOf spaceChar (annot_name a) = None
                      /\ isTrimmed (annot_value a))
       (ex_annotations (readAnnots content))
  /\ ex_comment (readAnnots content)
     = Js.trim
         (Js.join (String newlineChar EmptyString)
            (List.filter (fun m => negb (Js.startsWith "@" m))
               (matchLines content)))
  /\ isTrimmed (ex_comment (readAnnots content)).
Proof.
  unfold readAnnots.
  destruct (readAnnots_fold (matchLines content) [] [] (List.Forall_nil _))
    as (H1 & H2 & H3).
  destruct (fold_left readAnnotsStep (matchLines content) ([], []))
    as [lines annotations].
  simpl in *. subst lines. split; [exact H2|]. split; [exact H1|].
  destruct (List.filter (fun m => negb (Js.startsWith "@" m))
              (matchLines content)) eqn:Hl.
  - split; reflexivity.
  - split; [reflexivity | apply trim_idem].
Qed.

(** ** Categories and bundle names *)

Lemma prefix_take (n : nat) (s : string) : String.prefix (Js.take n s) s = true.
Proof.
  revert n. induction s as [|a s IH]; intros [|n]; simpl; try reflexivity.
  destruct (ascii_dec a a) as [_|H]; [apply IH | contradiction].
Qed.

Lemma prefix_refl (s : string) : String.prefix s s = true.
Proof.
  induction s as [|a s IH]; simpl; [reflexivity|].
  destruct (ascii_dec a a) as [_|H]; [exact IH | contradiction].
Qed.

(** X5. The category of a code is a prefix of the code, and taking the
    category again changes nothing: a category is its own category. *)
Theorem getWarningCategory_idempotent (c : string) :
  String.prefix (getWarningCategory c) c = true
  /\ getWarningCategory (getWarningCategory c) = getWarningCategory c.
Proof.
  destruct (String.eqb_spec c "do-not-translate") as [->|Hne].
  - split; reflexivity.
  - assert (Hcat : getWarningCategory c
                   = match Js.indexOf dashChar c with
                     | Some n => Js.take n c
                     | None => c
                     end).
    { unfold getWarningCategory.
      destruct (String.eqb_spec c "do-not-translate"); [contradiction|].
      destruct (Js.indexOf dashChar c); reflexivity. }
    rewrite Hcat. destruct (Js.indexOf dashChar c) as [n|] eqn:Hdash.
    + split; [apply prefix_take|].
      apply getWarningCategory_no_dash, indexOf_take, Hdash.
    + split; [apply prefix_refl|].
      apply getWarningCategory_no_dash, Hdash.
Qed.

Lemma append_length (s t : string) :
  String.length (s +:+ t) = String.length s + String.length t.
Proof.
  induction s as [|a s IH]; simpl; [reflexivity | rewrite IH; reflexivity].
Qed.

Lemma append_inj_l (t : string) :
  forall s1 s2, s1 +:+ t = s2 +:+ t -> s1 = s2.
Proof.
  induction s1 as [|a s1 IH]; intros [|b s2] H.
  - reflexivity.
  - apply (f_equal String.length) in H.
    change (String b s2 +:+ t) with (String b (s2 +:+ t)) in H.
    cbn [String.length] in H. rewrite !append_length in H. simpl in H. lia.
  - apply (f_equal String.length) in H.
    change (String a s1 +:+ t) with (String a (s1 +:+ t)) in H.
    cbn [String.length] in H. rewrite !append_length in H. simpl in H. lia.
  - change (String a (s1 +:+ t) = String b (s2 +:+ t)) in H.
    injection H as -> H. f_equal. apply IH, H.
Qed.

(** X6. The display names of bundles tell bundles apart: the default
    bundle, the global bundle and every named bundle are shown
    differently. *)
Theorem getBundleDisplay_injective (b1 b2 : option string) :
  getBundleDisplay b1 = getBundleDisplay b2 <-> b1 = b2.
Proof.
  split; [|intros ->; reflexivity].
  destruct b1 as [[|a1 s1]|], b2 as [[|a2 s2]|]; simpl;
    try discriminate; try reflexivity.
  unfold quote. simpl. intros [= -> H]. f_equal. f_equal.
  exact (append_inj_l _ _ _ H).
Qed.

(** ** The diagnostic store *)

Lemma recGet_addDiagnosticTo (d : DiagnosticInfo) (u : string) (m : Store) :
  recGet u (addDiagnosticTo d m)
  = if String.eqb (uri d) u
    then Some (match recGet u m with Some l => l | None => [] end ++ [d])
    else recGet u m.
Proof.
  unfold addDiagnosticTo.
  destruct (String.eqb_spec (uri d) u) as [<-|Hne].
  - destruct (recGet (uri d) m); rewrite recGet_recSet, String.eqb_refl;
      reflexivity.
  - destruct (recGet (uri d) m); rewrite recGet_recSet;
      destruct (String.eqb_spec (uri d) u); try contradiction; reflexivity.
Qed.

Lemma emit_store (ds : list DiagnosticInfo) :
  forall (a : Analyzer) (u : string),
    getDiagnosticsForUri (emit ds a) u
    = getDiagnosticsForUri a u
      ++ List.filter (fun d => String.eqb (uri d) u) ds.
Proof.
  unfold getDiagnosticsForUri, emit, addDiagnostics. simpl.
  intros a. generalize (diagnostics a). clear a.
  induction ds as [|d ds IH]; intros m u; simpl.
  - rewrite app_nil_r. reflexivity.
  - rewrite IH, recGet_addDiagnosticTo.
    destruct (String.eqb (uri d) u); [|reflexivity].
    destruct (recGet u m); simpl; rewrite <- ?app_assoc; reflexivity.
Qed.

(** X7. After a run of pushes the list stored under a URI is the list
    stored before, followed by the pushed diagnostics of that URI in the
    order of the pushes; the list of a URI that none of the pushed
    diagnostics names is not touched. *)
Theorem emit_lookup (ds : list DiagnosticInfo) (a : Analyzer) (u : string) :
  getDiagnosticsForUri (emit ds a) u
  = getDiagnosticsForUri a u
    ++ List.filter (fun d => String.eqb (uri d) u) ds
  /\ (Forall (fun d => uri d <> u) ds ->
      getDiagnosticsForUri (emit ds a) u = getDiagnosticsForUri a u).
Proof.
  split; [apply emit_store|].
  intros Hds. rewrite emit_store, filter_none, app_nil_r; [reflexivity|].
  eapply List.Forall_impl; [|exact Hds].
  intros d Hd. apply String.eqb_neq, Hd.
Qed.

Lemma concat_recSet_push {A : Type} (k : string) (x : A) (m : Rec (list A)) :
  concat (recValues
            (recSet k (match recGet k m with Some l => l | None => [] end
                       ++ [x]) m))
  ≡ₚ concat (recValues m) ++ [x].
Proof.
  unfold recValues. induction m as [|[k' l'] m IH]; simpl.
  - reflexivity.
  - destruct (String.eqb k' k); simpl.
    + rewrite <- !app_assoc. apply Permutation_app_head, Permutation_app_comm.
    + rewrite IH, app_assoc. reflexivity.
Qed.

(** X8. [getDiagnostics] after a run of pushes returns what it returned
    before together with the pushed diagnostics, each exactly once (up to the
    order in which the per-file lists are flattened). *)
Theorem emit_getDiagnostics (ds : list DiagnosticInfo) :
  forall a : Analyzer,
    getDiagnostics (emit ds a) ≡ₚ getDiagnostics a ++ ds.
Proof.
  unfold getDiagnostics, emit, addDiagnostics. simpl.
  intros a. generalize (diagnostics a). clear a.
  induction ds as [|d ds IH]; intros m; simpl.
  - rewrite app_nil_r. reflexivity.
  - rewrite IH. unfold addDiagnosticTo.
    transitivity ((concat (recValues m) ++ [d]) ++ ds).
    + apply Permutation_app_tail.
      pose proof (concat_recSet_push (uri d) d m) as H.
      destruct (recGet (uri d) m); exact H.
    + rewrite <- app_assoc. reflexivity.
Qed.

(** ** Entry annotations and normalized entries *)

Lemma recSet_same_core {T U : Type} (f : T -> U) (k : string) (v v' : T)
    (r : Rec T) :
  recGet k r = Some v -> f v' = f v ->
  map (fun kv => (fst kv, f (snd kv))) (recSet k v' r)
  = map (fun kv => (fst kv, f (snd kv))) r.
Proof.
  intros Hget Hf. induction r as [|[k1 v1] r IH]; simpl in *; [discriminate|].
  destruct (String.eqb_spec k1 k) as [->|Hne]; simpl.
  - injection Hget as ->. rewrite Hf. reflexivity.
  - rewrite (IH Hget). reflexivity.
Qed.

Lemma objGet_Own {T : Type} (k : string) (r : Rec T) (v : T) :
  objGet k r = Own v <-> recGet k r = Some v.
Proof.
  unfold objGet. destruct (recGet k r) as [w|].
  - split; intros H; injection H as ->; reflexivity.
  - destruct (protoMember k); split; discriminate.
Qed.

Lemma handleEntryAnnotation_core (h : Host) (info : MessageInfo)
    (annot : AnnotationItem) :
  entryCore (outcome (handleEntryAnnotation h info annot)) = entryCore info.
Proof.
  assert (Htargeted :
            entryCore (outcome (handleTargetedAnnotation info annot))
            = entryCore info).
  { unfold handleTargetedAnnotation.
    destruct (targetedProp (annot_name annot)) as [prop|]; [|reflexivity].
    destruct (String.eqb _ EmptyString).
    { destruct prop; reflexivity. }
    destruct (String.eqb _ "*").
    { unfold entryCore. simpl. f_equal. rewrite map_map.
      apply map_ext. intros [k v]. destruct prop; reflexivity. }
    destruct (objGet _ (attributes info)) as [attr| |] eqn:Hget;
      [|reflexivity|reflexivity].
    apply objGet_Own in Hget.
    unfold entryCore. simpl. f_equal.
    apply (recSet_same_core elementCore _ attr _ _ Hget).
    destruct prop; reflexivity. }
  unfold handleEntryAnnotation.
  destruct (String.eqb (annot_name annot) "@diagnostic").
  { destruct (handleDiagnosticAnnotation _ annot). reflexivity. }
  destruct (String.eqb (annot_name annot) "@param"
            || String.eqb (annot_name annot) "@param-attribute").
  { unfold handleParamAnnotation.
    destruct (matchParam h _ _) as [matches|]; [|reflexivity].
    destruct (pm_type matches) as [ty|]; [|reflexivity].
    destruct (negb _ || negb _); [reflexivity|].
    destruct (objGet _ (attributes info)) as [attr| |] eqn:Hget;
      [|reflexivity|reflexivity].
    apply objGet_Own in Hget.
    unfold entryCore. simpl. f_equal.
    apply (recSet_same_core elementCore _ attr _ _ Hget). reflexivity. }
  destruct (String.eqb (annot_name annot) "@expect-identical");
    [exact Htargeted|].
  destruct (_ || _); [exact Htargeted | reflexivity].
Qed.

Lemma handleEntryAnnotations_core (h : Host)
    (annotations : list AnnotationItem) :
  forall info,
    entryCore (outcome (handleEntryAnnotations h info annotations))
    = entryCore info.
Proof.
  induction annotations as [|annot rest IH]; intros info; simpl.
  - reflexivity.
  - pose proof (handleEntryAnnotation_core h info annot) as Hone.
    destruct (handleEntryAnnotation h info annot) as [info1|why info1];
      [|exact Hone].
    rewrite IH. exact Hone.
Qed.

(** X9. Whatever annotations the comment of an entry holds, handling them
    never changes what identifies the entry: its kind, identifier, display
    name, value, identifier span and referenced variables are kept, and so
    are the attributes, their order and each attribute's identifier, name,
    value, span and variables.  Annotations only set policies, flags,
    parameters and ignore sets.  This holds of the entry the handling
    returns and of the entry as it is when a handler stops. *)
Theorem handleEntryAnnotations_keep_core (h : Host) (info : MessageInfo)
    (annotations : list AnnotationItem) :
  entryCore (outcome (handleEntryAnnotations h info annotations))
  = entryCore info.
Proof. apply handleEntryAnnotations_core. Qed.

(** ** Declared parameters and the conversion of entries *)

Lemma Forall_recSet {T : Type} (P : string * T -> Prop) (k : string) (v : T)
    (r : Rec T) :
  Forall P r -> P (k, v) -> Forall P (recSet k v r).
Proof.
  intros Hr Hv. induction Hr as [|[k1 v1] r H1 Hr IH]; simpl.
  - repeat constructor. exact Hv.
  - destruct (String.eqb k1 k); constructor; assumption.
Qed.

Lemma Forall_recGet {T : Type} (P : string * T -> Prop) (k : string) (v : T)
    (r : Rec T) :
  Forall P r -> recGet k r = Some v -> P (k, v).
Proof.
  intros Hr. induction Hr as [|[k1 v1] r H1 Hr IH]; simpl; [discriminate|].
  destruct (String.eqb_spec k1 k) as [->|Hne]; [|exact IH].
  intros [= <-]. exact H1.
Qed.

Lemma paramsKeyed_nil : paramsKeyed [].
Proof. split; constructor. Qed.

Lemma paramsKeyed_recSet (k : string) (p : ParamInfo) (r : Rec ParamInfo) :
  paramsKeyed r -> param_id p = k -> paramsKeyed (recSet k p r).
Proof.
  intros [Hkeys Hnd] Hp. split.
  - apply Forall_recSet; [exact Hkeys | exact Hp].
  - apply DiscoveryFacts.recSet_NoDup, Hnd.
Qed.

Lemma handleEntryAnnotation_params (h : Host) (info : MessageInfo)
    (annot : AnnotationItem) :
  paramsKeyed (el_params (base info)) ->
  Forall (fun kv => paramsKeyed (el_params (snd kv))) (attributes info) ->
  match handleEntryAnnotation h info annot with
  | Normal info' =>
      paramsKeyed (el_params (base info'))
      /\ Forall (fun kv => paramsKeyed (el_params (snd kv))) (attributes info')
  | Stopped _ _ => True
  end.
Proof.
  intros Hbase Hattrs.
  assert (Htargeted :
            match handleTargetedAnnotation info annot with
            | Normal info' =>
                paramsKeyed (el_params (base info'))
                /\ Forall (fun kv => paramsKeyed (el_params (snd kv)))
                     (attributes info')
            | Stopped _ _ => True
            end).
  { unfold handleTargetedAnnotation.
    destruct (targetedProp (annot_name annot)) as [prop|]; [|exact I].
    destruct (String.eqb _ EmptyString).
    { destruct prop; split; assumption. }
    destruct (String.eqb _ "*").
    { split; [exact Hbase|]. simpl. apply List.Forall_map.
      eapply List.Forall_impl; [|exact Hattrs].
      intros [k v] Hv. destruct prop; exact Hv. }
    destruct (objGet _ (attributes info)) as [attr| |] eqn:Hget;
      [|exact I|split; assumption].
    apply objGet_Own in Hget.
    split; [exact Hbase|]. simpl. apply Forall_recSet; [exact Hattrs|].
    pose proof (Forall_recGet _ _ _ _ Hattrs Hget) as Hattr.
    destruct prop; exact Hattr. }
  unfold handleEntryAnnotation.
  destruct (String.eqb (annot_name annot) "@diagnostic").
  { destruct (handleDiagnosticAnnotation _ annot). split; assumption. }
  destruct (String.eqb (annot_name annot) "@param"
            || String.eqb (annot_name annot) "@param-attribute").
  { unfold handleParamAnnotation.
    destruct (matchParam h _ _) as [matches|]; [|split; assumption].
    destruct (pm_type matches) as [ty|]; [|exact I].
    destruct (negb _ || negb _).
    { split; [|exact Hattrs]. simpl.
      apply paramsKeyed_recSet; [exact Hbase | reflexivity]. }
    destruct (objGet _ (attributes info)) as [attr| |] eqn:Hget;
      [|exact I|split; assumption].
    apply objGet_Own in Hget.
    split; [exact Hbase|]. simpl. apply Forall_recSet; [exact Hattrs|].
    simpl. apply paramsKeyed_recSet; [|reflexivity].
    exact (Forall_recGet _ _ _ _ Hattrs Hget). }
  destruct (String.eqb (annot_name annot) "@expect-identical");
    [exact Htargeted|].
  destruct (_ || _); [exact Htargeted | split; assumption].
Qed.

Lemma handleEntryAnnotations_params (h : Host)
    (annotations : list AnnotationItem) :
  forall info,
    paramsKeyed (el_params (base info)) ->
    Forall (fun kv => paramsKeyed (el_params (snd kv))) (attributes info) ->
    match handleEntryAnnotations h info annotations with
    | Normal info' =>
        paramsKeyed (el_params (base info'))
        /\ Forall (fun kv => paramsKeyed (el_params (snd kv)))
             (attributes info')
    | Stopped _ _ => True
    end.
Proof.
  induction annotations as [|annot rest IH]; intros info Hbase Hattrs; simpl.
  - split; assumption.
  - pose proof (handleEntryAnnotation_params h info annot Hbase Hattrs) as Hone.
    destruct (handleEntryAnnotation h info annot) as [info1|why info1];
      [|exact I].
    destruct Hone as [H1 H2]. apply IH; assumption.
Qed.

Lemma length_recSet {T : Type} (k : string) (v : T) (r : Rec T) :
  length (recSet k v r)
  = if isSome (recGet k r) then length r else S (length r).
Proof.
  induction r as [|[k1 v1] r IH]; simpl; [reflexivity|].
  destruct (String.eqb k1 k); simpl; [reflexivity|].
  rewrite IH. destruct (isSome (recGet k r)); reflexivity.
Qed.

Lemma convertAttributesStep_eq (a : Analyzer) (file : FileInfo)
    (name : string) (state : AnnotationState) (rec : Rec AttributeInfo)
    (ds : list DiagnosticInfo) (attr : AttributeNode) :
  convertAttributesStep a file name state (rec, ds) attr
  = (recSet (id_name (an_id attr)) (convertAttribute name state attr) rec,
     ds ++ if objHas (id_name (an_id attr)) rec
           then [entryDiagnostic file
                   (OfAttribute (convertAttribute name state attr)) Duplicate
                   ["attribute";
                    el_name (convertAttribute name state attr)]]
           else []).
Proof.
  unfold convertAttributesStep. simpl.
  destruct (objHas (id_name (an_id attr)) rec); reflexivity.
Qed.

Lemma memberKeys_recSet {T : Type} (k : string) (v : T) (r : Rec T) :
  length (memberKeys (recSet k v r))
  = length (memberKeys r)
    + if negb (isSome (recGet k r)) && protoMember k then 1 else 0.
Proof.
  unfold memberKeys. rewrite DiscoveryFacts.recSet_keys.
  destruct (isSome (recGet k r)); simpl; [lia|].
  rewrite List.filter_app, length_app. simpl.
  destruct (protoMember k); reflexivity.
Qed.

(** The reducer over the parsed attributes of an entry. *)
Lemma convertAttributes_fold (a : Analyzer) (file : FileInfo) (name : string)
    (state : AnnotationState) (attrs : list AttributeNode) :
  forall rec ds,
    NoDup (map fst rec) ->
    Forall (fun kv => el_id (snd kv) = fst kv
                      /\ el_name (snd kv) = name +:+ "." +:+ fst kv
                      /\ el_params (snd kv) = []) rec ->
    Forall (fun d => code d = "duplicate" /\ severity d = Warning) ds ->
    let r := fold_left (convertAttributesStep a file name state) attrs
               (rec, ds) in
    NoDup (map fst (fst r))
    /\ Forall (fun kv => el_id (snd kv) = fst kv
                         /\ el_name (snd kv) = name +:+ "." +:+ fst kv
                         /\ el_params (snd kv) = []) (fst r)
    /\ Forall (fun d => code d = "duplicate" /\ severity d = Warning) (snd r)
    /\ length (snd r) + length (fst r) + length (memberKeys rec)
       = length ds + length rec + length attrs + length (memberKeys (fst r))
    /\ (forall k, In k (map fst (fst r))
                  <-> In k (map fst rec)
                      \/ In k (map (fun n => id_name (an_id n)) attrs)).
Proof.
  induction attrs as [|attr attrs IH]; intros rec ds Hnd Hrec Hds; cbv zeta;
    cbn [fold_left].
  - simpl. split; [exact Hnd|]. split; [exact Hrec|]. split; [exact Hds|].
    split; [rewrite Nat.add_0_r; reflexivity | tauto].
  - rewrite convertAttributesStep_eq.
    match goal with
    | |- context [fold_left _ attrs (?r1, ?d1)] =>
        destruct (IH r1 d1) as (H1 & H2 & H3 & H4 & H5)
    end.
    + apply DiscoveryFacts.recSet_NoDup, Hnd.
    + apply Forall_recSet; [exact Hrec|]. repeat split.
    + apply Forall_app. split; [exact Hds|].
      destruct (objHas _ _); repeat constructor.
    + split; [exact H1|]. split; [exact H2|]. split; [exact H3|]. split.
      * revert H4. clear.
        rewrite memberKeys_recSet, length_app, length_recSet, objHas_recGet.
        unfold Rec, AttributeInfo in *.
        destruct (isSome (recGet (id_name (an_id attr)) rec));
          destruct (protoMember (id_name (an_id attr)));
          simpl; intros H4; lia.
      * intros k. rewrite H5, DiscoveryFacts.recSet_keys. simpl.
        destruct (recGet (id_name (an_id attr)) rec) as [v|] eqn:Hget; simpl.
        -- apply DiscoveryFacts.recGet_Some_In in Hget.
           assert (In (id_name (an_id attr)) (map fst rec))
             by (apply in_map_iff; exists (id_name (an_id attr), v); auto).
           split; [tauto|]. intros [H0|[<-|H0]]; auto.
        -- rewrite in_app_iff. simpl. tauto.
Qed.

Lemma Forall_same_map {A B : Type} (f : A -> B) (R : B -> Prop)
    (l1 l2 : list A) :
  map f l1 = map f l2 ->
  Forall (fun x => R (f x)) l2 -> Forall (fun x => R (f x)) l1.
Proof.
  intros Hmap H2. apply (List.Forall_map f R). rewrite Hmap.
  apply (List.Forall_map f R). exact H2.
Qed.

(** The record built by [convertMessage] before the annotations of the
    comment are handled, and the diagnostics pushed. *)
Lemma convertMessage_result (h : Host) (a : Analyzer) (file : FileInfo)
    (n : EntryNode) (state : AnnotationState) (term : bool) :
  let name :=
    if term then "-" +:+ id_name (en_id n) else id_name (en_id n) in
  let r := fold_left (convertAttributesStep a file name state)
             (en_attributes n) ([], []) in
  fst (convertMessage h a file n state term) = snd r
  /\ match snd (convertMessage h a file n state term) with
     | Normal info =>
         isTerm info = term
         /\ el_id (base info) = id_name (en_id n)
         /\ el_name (base info) = name
         /\ el_value (base info) = en_value n
         /\ map (fun kv => (fst kv, elementCore (snd kv))) (attributes info)
            = map (fun kv => (fst kv, elementCore (snd kv))) (fst r)
         /\ paramsKeyed (el_params (base info))
         /\ Forall (fun kv => paramsKeyed (el_params (snd kv)))
              (attributes info)
     | Stopped _ _ => True
     end.
Proof.
  cbv zeta. unfold convertMessage.
  set (name := if term then "-" +:+ id_name (en_id n) else id_name (en_id n)).
  pose proof (convertAttributes_fold a file name state (en_attributes n) [] []
                (NoDup_nil_2) (List.Forall_nil _) (List.Forall_nil _))
    as (_ & Hattrs & _).
  cbv zeta in Hattrs.
  destruct (fold_left (convertAttributesStep a file name state)
              (en_attributes n) ([], [])) as [attrs ds] eqn:E.
  assert (Hparams : Forall (fun kv : string * AttributeInfo =>
                              paramsKeyed (el_params (snd kv))) attrs).
  { change attrs with (fst (attrs, ds)). rewrite <- E.
    eapply List.Forall_impl; [|exact Hattrs].
    intros kv (_ & _ & Hp). unfold AttributeInfo in *.
    rewrite Hp. apply paramsKeyed_nil. }
  clear Hattrs.
  set (info0 := mkMessage _ term None attrs None (st_ignore state)).
  destruct (en_comment n) as [text|]; simpl.
  - pose proof (handleEntryAnnotations_core h
                  (ex_annotations (readAnnots text)) info0) as Hcore.
    pose proof (handleEntryAnnotations_params h
                  (ex_annotations (readAnnots text)) info0
                  paramsKeyed_nil Hparams) as Hkeyed.
    destruct (handleEntryAnnotations h info0 _) as [info1|why info1];
      simpl; [|split; [reflexivity | exact I]].
    split; [reflexivity|].
    assert (Hres : isTerm info1 = term
                   /\ el_id (base info1) = id_name (en_id n)
                   /\ el_name (base info1) = name
                   /\ el_value (base info1) = en_value n
                   /\ map (fun kv => (fst kv, elementCore (snd kv)))
                        (attributes info1)
                      = map (fun kv => (fst kv, elementCore (snd kv))) attrs
                   /\ paramsKeyed (el_params (base info1))
                   /\ Forall (fun kv => paramsKeyed (el_params (snd kv)))
                        (attributes info1)).
    { unfold entryCore, elementCore in Hcore. simpl in Hcore.
      injection Hcore as H1 H2 H3 H4 _ _ H7.
      destruct Hkeyed as [Hk1 Hk2]. repeat (split; [assumption|]).
      exact Hk2. }
    destruct (Js.truthy (ex_comment (readAnnots text))); exact Hres.
  - split; [reflexivity|].
    repeat (split; [reflexivity|]). split; [apply paramsKeyed_nil|].
    exact Hparams.
Qed.

(** X10. An entry that [convertMessage] returns is of the kind asked for,
    carries the identifier and the value of the parsed entry, and is named
    by its identifier, with a leading dash for a term.  Its attributes are
    recorded once per identifier, under that identifier, for exactly the
    identifiers the parsed entry has, each named [<entry name>.<identifier>];
    and every declared parameter is recorded once, under its own name. *)
Theorem convertMessage_shape (h : Host) (a : Analyzer) (file : FileInfo)
    (n : EntryNode) (state : AnnotationState) (term : bool) :
  match snd (convertMessage h a file n state term) with
  | Normal info =>
      isTerm info = term
      /\ el_id (base info) = id_name (en_id n)
      /\ el_name (base info)
         = (if term then "-" +:+ id_name (en_id n) else id_name (en_id n))
      /\ el_value (base info) = en_value n
      /\ NoDup (map fst (attributes info))
      /\ Forall (fun kv => el_id (snd kv) = fst kv
                           /\ el_name (snd kv)
                              = el_name (base info) +:+ "." +:+ fst kv)
           (attributes info)
      /\ (forall k, In k (map fst (attributes info))
                    <-> In k (map (fun x => id_name (an_id x))
                                (en_attributes n)))
      /\ paramsKeyed (el_params (base info))
      /\ Forall (fun kv => paramsKeyed (el_params (snd kv))) (attributes info)
  | Stopped _ _ => True
  end.
Proof.
  pose proof (convertMessage_result h a file n state term) as [_ Hres].
  cbv zeta in Hres.
  set (name := if term then "-" +:+ id_name (en_id n) else id_name (en_id n))
    in *.
  pose proof (convertAttributes_fold a file name state (en_attributes n) [] []
                (NoDup_nil_2) (List.Forall_nil _) (List.Forall_nil _))
    as (Hnd & Hattrs & _ & _ & Hkeys).
  destruct (snd (convertMessage h a file n state term)) as [info|why info];
    [|exact I].
  destruct Hres as (H1 & H2 & H3 & H4 & H5 & H6 & H7).
  assert (Hfst : map fst (attributes info)
                 = map fst (fst (fold_left
                                   (convertAttributesStep a file name state)
                                   (en_attributes n) ([], [])))).
  { apply (f_equal (map fst)) in H5. rewrite !map_map in H5. exact H5. }
  split; [exact H1|]. split; [exact H2|]. split; [exact H3|].
  split; [exact H4|]. split; [rewrite Hfst; exact Hnd|]. split; [|split].
  - rewrite H3.
    apply (Forall_same_map
             (fun kv : string * AttributeInfo => (fst kv, elementCore (snd kv)))
             (fun p => fst (fst (fst (fst (snd p)))) = fst p
                       /\ snd (fst (fst (fst (snd p))))
                          = name +:+ "." +:+ fst p) _ _ H5).
    eapply List.Forall_impl; [|exact Hattrs].
    intros kv (Ha & Hb & _). simpl. split; assumption.
  - intros k. rewrite Hfst, Hkeys. simpl. tauto.
  - split; assumption.
Qed.

Lemma convertMessage_warnings (h : Host) (a : Analyzer) (file : FileInfo)
    (n : EntryNode) (state : AnnotationState) (term : bool) :
  Forall (fun d => code d = "duplicate" /\ severity d = Warning)
    (fst (convertMessage h a file n state term)).
Proof.
  pose proof (convertMessage_result h a file n state term) as [Hds _].
  cbv zeta in Hds.
  set (name := if term then "-" +:+ id_name (en_id n) else id_name (en_id n))
    in *.
  pose proof (convertAttributes_fold a file name state (en_attributes n) [] []
                (NoDup_nil_2) (List.Forall_nil _) (List.Forall_nil _))
    as (_ & _ & Hcodes & _).
  cbv zeta in Hcodes. rewrite Hds. exact Hcodes.
Qed.

(** X11. Of the parsed attributes of an entry, each is kept in the record
    or answered by one [duplicate] warning, and an attribute that is the
    first to carry an identifier naming a member of [Object.prototype] is
    both kept and answered: the warnings and the recorded attributes
    together are as many as the parsed attributes and the recorded
    identifiers that name such a member.  So an entry none of whose
    attributes is named so gets one warning per repeated attribute.  The
    warnings are pushed whatever the analyzer is configured to ignore. *)
Theorem convertMessage_duplicate_attributes (h : Host) (a : Analyzer)
    (file : FileInfo) (n : EntryNode) (state : AnnotationState) (term : bool) :
  Forall (fun d => code d = "duplicate" /\ severity d = Warning)
    (fst (convertMessage h a file n state term))
  /\ (forall a', fst (convertMessage h a' file n state term)
                 = fst (convertMessage h a file n state term))
  /\ match snd (convertMessage h a file n state term) with
     | Normal info =>
         length (fst (convertMessage h a file n state term))
         + length (attributes info)
         = length (en_attributes n) + length (memberKeys (attributes info))
         /\ (Forall (fun x => protoMember (id_name (an_id x)) = false)
               (en_attributes n) ->
             length (fst (convertMessage h a file n state term))
             + length (attributes info)
             = length (en_attributes n))
     | Stopped _ _ => True
     end.
Proof.
  split; [apply convertMessage_warnings|]. split; [reflexivity|].
  pose proof (convertMessage_result h a file n state term) as [Hds Hres].
  cbv zeta in Hds, Hres.
  set (name := if term then "-" +:+ id_name (en_id n) else id_name (en_id n))
    in *.
  pose proof (convertAttributes_fold a file name state (en_attributes n) [] []
                (NoDup_nil_2) (List.Forall_nil _) (List.Forall_nil _))
    as (_ & _ & _ & Hlen & Hkeys).
  cbv zeta in Hlen, Hkeys.
  destruct (snd (convertMessage h a file n state term)) as [info|why info];
    [|exact I].
  destruct Hres as (_ & _ & _ & _ & H5 & _).
  assert (Hfst : map fst (attributes info)
                 = map fst (fst (fold_left
                                   (convertAttributesStep a file name state)
                                   (en_attributes n) ([], [])))).
  { apply (f_equal (map fst)) in H5. rewrite !map_map in H5. exact H5. }
  assert (Hcount :
            length (fst (convertMessage h a file n state term))
            + length (attributes info)
            = length (en_attributes n) + length (memberKeys (attributes info))).
  { apply (f_equal (@length _)) in H5. rewrite !length_map in H5.
    rewrite Hds. unfold memberKeys in *. rewrite Hfst.
    unfold Rec, AttributeInfo in *. simpl in Hlen. lia. }
  split; [exact Hcount|].
  intros Hplain. rewrite Hcount.
  assert (Hnone : memberKeys (attributes info) = []).
  { unfold memberKeys. apply filter_none. apply Forall_forall.
    intros k Hk. apply list_elem_of_In in Hk. rewrite Hfst in Hk.
    apply Hkeys in Hk as [[]|Hk].
    apply in_map_iff in Hk as (x & <- & Hx).
    rewrite List.Forall_forall in Hplain. apply Hplain, Hx. }
  rewrite Hnone. simpl. lia.
Qed.

(** ** The tail of [read] *)

Lemma finishRead_keeps (state : AnnotationState) (file : FileInfo) :
  file_name (finishRead state file) = file_name file
  /\ file_path (finishRead state file) = file_path file
  /\ content (finishRead state file) = content file
  /\ terms (finishRead state file) = terms file
  /\ messages (finishRead state file) = messages file
  /\ hash (finishRead state file) = hash file.
Proof.
  unfold finishRead.
  destruct (isTrue (st_global state));
    [|destruct (st_bundle state) as [b|]; [destruct (Js.truthy b)|]];
    destruct (_ || _); destruct (_ || _); repeat split; reflexivity.
Qed.

Lemma finishRead_ignores (state : AnnotationState) (file : FileInfo)
    (c : string) :
  fileIgnores c (finishRead state file)
  = fileIgnores c file
    || (String.eqb "unknown-file" c
        && (isTrue (st_ignoreAll state)
            || bool_decide ("unknown-file" ∈ st_ignore state)
            || bool_decide ("unknown" ∈ st_ignore state)))
    || (String.eqb "missing-file" c
        && (isTrue (st_ignoreAll state)
            || negb (TranslateType_eqb (st_translate state) Required)
            || bool_decide ("missing-file" ∈ st_ignore state)
            || bool_decide ("missing" ∈ st_ignore state))).
Proof.
  unfold finishRead.
  assert (Hb : forall c b f,
             fileIgnores c (withBundle b f) = fileIgnores c f) by reflexivity.
  generalize (isTrue (st_ignoreAll state)
              || bool_decide ("unknown-file" ∈ st_ignore state)
              || bool_decide ("unknown" ∈ st_ignore state)).
  generalize (isTrue (st_ignoreAll state)
              || negb (TranslateType_eqb (st_translate state) Required)
              || bool_decide ("missing-file" ∈ st_ignore state)
              || bool_decide ("missing" ∈ st_ignore state)).
  intros m u.
  destruct (isTrue (st_global state)), u, m;
    try (destruct (st_bundle state) as [b|]; [destruct (Js.truthy b)|]);
    rewrite ?fileIgnores_addFileIgnore, ?Hb, ?andb_true_r, ?andb_false_r,
      ?orb_false_r;
    destruct (String.eqb "unknown-file" c), (String.eqb "missing-file" c),
      (fileIgnores c file); reflexivity.
Qed.

(** X12. The tail of [read] changes nothing of the file but its bundle and
    its set of ignored codes.  The bundle becomes the global one for a
    resource marked global, else the non-empty bundle the annotations name,
    else it stays.  Only [unknown-file] and [missing-file] are ever added to
    the ignored codes: [unknown-file] when all diagnostics are off or the
    code or its category is ignored, [missing-file] under the same
    conditions and also when translation is not required. *)
Theorem finishRead_effect (state : AnnotationState) (file : FileInfo) :
  file_name (finishRead state file) = file_name file
  /\ file_path (finishRead state file) = file_path file
  /\ content (finishRead state file) = content file
  /\ terms (finishRead state file) = terms file
  /\ messages (finishRead state file) = messages file
  /\ hash (finishRead state file) = hash file
  /\ bundle (finishRead state file)
     = (if isTrue (st_global state) then Some EmptyString
        else match st_bundle state with
             | Some b => if Js.truthy b then Some b else bundle file
             | None => bundle file
             end)
  /\ forall c,
       fileIgnores c (finishRead state file)
       = fileIgnores c file
         || (String.eqb "unknown-file" c
             && (isTrue (st_ignoreAll state)
                 || bool_decide ("unknown-file" ∈ st_ignore state)
                 || bool_decide ("unknown" ∈ st_ignore state)))
         || (String.eqb "missing-file" c
             && (isTrue (st_ignoreAll state)
                 || negb (TranslateType_eqb (st_translate state) Required)
                 || bool_decide ("missing-file" ∈ st_ignore state)
                 || bool_decide ("missing" ∈ st_ignore state))).
Proof.
  destruct (finishRead_keeps state file) as (H1 & H2 & H3 & H4 & H5 & H6).
  repeat (split; [assumption|]). split; [|apply finishRead_ignores].
  unfold finishRead.
  destruct (isTrue (st_global state));
    [|destruct (st_bundle state) as [b|]; [destruct (Js.truthy b)|]];
    destruct (_ || _); destruct (_ || _); reflexivity.
Qed.

(** ** What [read] leaves in the store *)

Lemma recGet_recDelete_ne {T : Type} (k u : string) (r : Rec T) :
  u <> k -> recGet u (recDelete k r) = recGet u r.
Proof.
  intros Hne. induction r as [|[k' v] r IH]; simpl; [reflexivity|].
  destruct (String.eqb_spec k' k) as [->|Hk].
  - rewrite IH. destruct (String.eqb_spec k u); [congruence | reflexivity].
  - simpl. rewrite IH. reflexivity.
Qed.

Lemma readEntries_severity (h : Host) (a : Analyzer) (entries : list Entry) :
  forall state file ds,
    Forall (fun d => severity d = Error
                     \/ (severity d = Warning /\ code d = "duplicate")) ds ->
    Forall (fun d => severity d = Error
                     \/ (severity d = Warning /\ code d = "duplicate"))
      (snd (outcome (readEntries h a entries state file ds))).
Proof.
  induction entries as [|e entries IH]; intros state file ds Hds; simpl;
    [exact Hds|].
  assert (Hconv : forall n term,
             Forall (fun d => severity d = Error
                              \/ (severity d = Warning
                                  /\ code d = "duplicate"))
               (fst (convertMessage h a file n state term))).
  { intros n term.
    eapply List.Forall_impl; [|apply convertMessage_warnings].
    intros d [H1 H2]. right.
    split; assumption. }
  destruct e as [n|n|text|annotations|text].
  - specialize (Hconv n false).
    destruct (convertMessage h a file n state false) as [ws [m|why m]];
      simpl in Hconv.
    + apply IH. apply Forall_app; split; assumption.
    + simpl. apply Forall_app; split; assumption.
  - specialize (Hconv n true).
    destruct (convertMessage h a file n state true) as [ws [m|why m]];
      simpl in Hconv.
    + apply IH. apply Forall_app; split; assumption.
    + simpl. apply Forall_app; split; assumption.
  - apply IH, Hds.
  - apply IH. apply Forall_app; split; [exact Hds|].
    apply Forall_flat_map, Forall_forall. intros r _.
    repeat constructor.
  - apply IH, Hds.
Qed.

(** X13. One call of [read] changes the stored diagnostics of the file it
    reads and of no other file; what it stores for the file are errors (the
    annotations of junk entries) and [duplicate] warnings (repeated
    attributes), nothing else. *)
Theorem read_diagnostics (h : Host) (a : Analyzer) (file : FileInfo) :
  (forall u, u <> path_uri (file_path file) ->
             getDiagnosticsForUri (fst (outcome (read h a file))) u
             = getDiagnosticsForUri a u)
  /\ Forall (fun d => uri d = path_uri (file_path file)
                      /\ (severity d = Error
                          \/ (severity d = Warning /\ code d = "duplicate")))
       (getDiagnosticsForUri (fst (outcome (read h a file)))
          (path_uri (file_path file))).
Proof.
  split.
  - intros u Hu. unfold read.
    set (a0 := withDiagnostics a _).
    assert (H0 : getDiagnosticsForUri a0 u = getDiagnosticsForUri a u).
    { unfold getDiagnosticsForUri, a0. simpl.
      rewrite recGet_recDelete_ne; [reflexivity | exact Hu]. }
    destruct (parse h file) as [[file' entries]|] eqn:Hparse; [|exact H0].
    assert (Hfile : path_uri (file_path file') = path_uri (file_path file)).
    { unfold parse in Hparse.
      destruct (readFile h (path_uri (file_path file))); [|discriminate].
      injection Hparse as <- _. reflexivity. }
    pose proof (readEntries_uri h a0 _ entries initialState file' [] Hfile
                  (List.Forall_nil _)) as Hds.
    destruct (readEntries h a0 entries initialState file' [])
      as [[[state f] ds]|why [[state f] ds]]; simpl in *;
      rewrite emit_store, filter_none, app_nil_r; try exact H0;
      (eapply List.Forall_impl; [|exact Hds]); intros d Hd;
      apply String.eqb_neq; congruence.
  - rewrite read_store.
    destruct (parse h file) as [[file' entries]|] eqn:Hparse; [|constructor].
    assert (Hfile : path_uri (file_path file') = path_uri (file_path file)).
    { unfold parse in Hparse.
      destruct (readFile h (path_uri (file_path file))); [|discriminate].
      injection Hparse as <- _. reflexivity. }
    pose proof (readEntries_uri h a _ entries initialState file' [] Hfile
                  (List.Forall_nil _)) as Hu.
    pose proof (readEntries_severity h a entries initialState file' []
                  (List.Forall_nil _)) as Hs.
    apply List.Forall_forall. intros d Hd. split.
    + exact (proj1 (List.Forall_forall _ _) Hu d Hd).
    + exact (proj1 (List.Forall_forall _ _) Hs d Hd).
Qed.

(** ** What [read] does to the file record *)

Lemma readEntries_file (h : Host) (a : Analyzer) (entries : list Entry) :
  forall state file ds,
    let r := readEntries h a entries state file ds in
    let f' := snd (fst (outcome r)) in
    (file_name f' = file_name file /\ file_path f' = file_path file
     /\ content f' = content file /\ hash f' = hash file
     /\ file_ignore f' = file_ignore file)
    /\ exists ms ts,
         messages f' = messages file ++ ms
         /\ terms f' = terms file ++ ts
         /\ Forall (fun m => isTerm m = false) ms
         /\ Forall (fun t => isTerm t = true) ts
         /\ length ms <= length (List.filter isMessageEntry entries)
         /\ length ts <= length (List.filter isTermEntry entries)
         /\ match r with
            | Normal _ =>
                length ms = length (List.filter isMessageEntry entries)
                /\ length ts = length (List.filter isTermEntry entries)
            | Stopped _ _ => True
            end.
Proof.
  induction entries as [|e entries IH]; intros state file ds; cbv zeta.
  - simpl. split; [repeat split; reflexivity|].
    exists [], []. rewrite !app_nil_r. simpl.
    repeat split; try constructor.
  - destruct e as [n|n|text|annotations|text];
      cbn [readEntries List.filter isMessageEntry isTermEntry length].
    + pose proof (convertMessage_result h a file n state false) as [_ Hres].
      cbv zeta in Hres.
      destruct (convertMessage h a file n state false) as [ws [m|why m]];
        cbn [snd] in Hres.
      * destruct Hres as (Hterm & _).
        destruct (IH state (pushMessage m file) (ds ++ ws))
          as (Hk & ms & ts & Hm & Ht & Hfm & Hft & Hlm & Hlt & Hn).
        cbv zeta in *. split; [exact Hk|].
        exists (m :: ms), ts. simpl in Hm, Ht.
        rewrite Hm, Ht, <- app_assoc. simpl.
        split; [reflexivity|]. split; [reflexivity|].
        split; [constructor; assumption|]. split; [exact Hft|].
        split; [lia|]. split; [exact Hlt|].
        destruct (readEntries _ _ _ _ _ _); [|exact I].
        destruct Hn as [-> ->]. split; reflexivity.
      * simpl. split; [repeat split; reflexivity|].
        exists [], []. rewrite !app_nil_r. simpl.
        repeat split; try constructor; lia.
    + pose proof (convertMessage_result h a file n state true) as [_ Hres].
      cbv zeta in Hres.
      destruct (convertMessage h a file n state true) as [ws [t|why t]];
        cbn [snd] in Hres.
      * destruct Hres as (Hterm & _).
        destruct (IH state (pushTerm t file) (ds ++ ws))
          as (Hk & ms & ts & Hm & Ht & Hfm & Hft & Hlm & Hlt & Hn).
        cbv zeta in *. split; [exact Hk|].
        exists ms, (t :: ts). simpl in Hm, Ht.
        rewrite Hm, Ht, <- app_assoc. simpl.
        split; [reflexivity|]. split; [reflexivity|].
        split; [exact Hfm|]. split; [constructor; assumption|].
        split; [exact Hlm|]. split; [lia|].
        destruct (readEntries _ _ _ _ _ _); [|exact I].
        destruct Hn as [-> ->]. split; reflexivity.
      * simpl. split; [repeat split; reflexivity|].
        exists [], []. rewrite !app_nil_r. simpl.
        repeat split; try constructor; lia.
    + apply IH.
    + apply IH.
    + apply IH.
Qed.

(** X16. [read] keeps the name and the path of the file, and of the codes
    the file ignores it changes at most [unknown-file] and [missing-file].
    When the content cannot be read the record is left as it was.
    Otherwise the record takes the content and its hash, and the converted
    messages and terms are appended to those the record already held (they
    are not replaced): one per parsed message or term when [read] completes,
    at most that many when an annotation handler stops. *)
Theorem read_file_effect (h : Host) (a : Analyzer) (file : FileInfo) :
  file_name (fileAfterRead h a file) = file_name file
  /\ file_path (fileAfterRead h a file) = file_path file
  /\ (forall c, fileIgnores c (fileAfterRead h a file) = true ->
                fileIgnores c file = true
                \/ c = "unknown-file" \/ c = "missing-file")
  /\ (forall c, fileIgnores c file = true ->
                fileIgnores c (fileAfterRead h a file) = true)
  /\ match readFile h (path_uri (file_path file)) with
     | None => fileAfterRead h a file = file
     | Some text =>
         content (fileAfterRead h a file) = text
         /\ hash (fileAfterRead h a file) = Some (murmurhash h text)
         /\ exists ms ts,
              messages (fileAfterRead h a file) = messages file ++ ms
              /\ terms (fileAfterRead h a file) = terms file ++ ts
              /\ Forall (fun m => isTerm m = false) ms
              /\ Forall (fun t => isTerm t = true) ts
              /\ length ms
                 <= length (List.filter isMessageEntry (parseResource h text))
              /\ length ts
                 <= length (List.filter isTermEntry (parseResource h text))
              /\ match read h a file with
                 | Normal _ =>
                     length ms
                     = length (List.filter isMessageEntry
                                 (parseResource h text))
                     /\ length ts
                        = length (List.filter isTermEntry
                                    (parseResource h text))
                 | Stopped _ _ => True
                 end
     end.
Proof.
  unfold fileAfterRead, read, parse.
  set (a0 := withDiagnostics a _).
  destruct (readFile h (path_uri (file_path file))) as [text|];
    [|simpl; repeat split; auto].
  set (file0 := withParsed text (murmurhash h text) file).
  destruct (readEntries_file h a0 (parseResource h text) initialState file0 [])
    as ((Hn & Hp & Hc & Hh & Hi) & ms & ts & Hm & Ht & Hfm & Hft & Hlm & Hlt
        & Hnorm).
  cbv zeta in *.
  destruct (readEntries h a0 (parseResource h text) initialState file0 [])
    as [[[state f] ds]|why [[state f] ds]]; simpl in *.
  - destruct (finishRead_keeps state f) as (K1 & K2 & K3 & K4 & K5 & K6).
    assert (Hign : forall c, fileIgnores c f = fileIgnores c file).
    { intros c. unfold fileIgnores. rewrite Hi. reflexivity. }
    rewrite K1, K2, K3, K4, K5, K6.
    split; [exact Hn|]. split; [exact Hp|]. split; [|split].
    + intros c. rewrite finishRead_ignores, Hign.
      destruct (fileIgnores c file); [left; reflexivity|].
      destruct (String.eqb_spec "unknown-file" c) as [<-|_];
        [right; left; reflexivity|].
      destruct (String.eqb_spec "missing-file" c) as [<-|_];
        [right; right; reflexivity|].
      simpl. discriminate.
    + intros c Hc'. rewrite finishRead_ignores, Hign, Hc'. reflexivity.
    + split; [exact Hc|]. split; [exact Hh|].
      exists ms, ts. repeat split; tauto.
  - assert (Hign : forall c, fileIgnores c f = fileIgnores c file).
    { intros c. unfold fileIgnores. rewrite Hi. reflexivity. }
    split; [exact Hn|]. split; [exact Hp|]. split; [|split].
    + intros c. rewrite Hign. auto.
    + intros c. rewrite Hign. auto.
    + split; [exact Hc|]. split; [exact Hh|].
      exists ms, ts. repeat split; tauto.
Qed.

(** ** The diagnostics of the two passes *)

Lemma codeAmong_In (l : list string) (d : DiagnosticInfo) :
  codeAmong l d = true <-> In (code d) l.
Proof.
  unfold codeAmong. rewrite existsb_exists. split.
  - intros (c & Hc & Heq). apply String.eqb_eq in Heq. congruence.
  - intros H. exists (code d). split; [exact H | apply String.eqb_refl].
Qed.

Lemma addEntryWarning_on (l : list string) (a : Analyzer) (file : FileInfo)
    (e : EntryInfo) (c : WarnCode) (args : list string) :
  existsb (String.eqb (codeName c)) l = true ->
  Forall (fun d => warnsOn file d /\ codeAmong l d = true)
    (addEntryWarning a file e c args).
Proof.
  intros Hc. unfold addEntryWarning.
  destruct e as [m|attr];
    [destruct (isTrue (ignoreAll m)); [constructor|];
     destruct (shouldIgnore a (codeName c) [ignore m]); [constructor|] |];
    repeat constructor; exact Hc.
Qed.

Lemma addWarning_on (l : list string) (file : FileInfo) (c : WarnCode)
    (span : ISpan) (args : list string) :
  existsb (String.eqb (codeName c)) l = true ->
  Forall (fun d => warnsOn file d /\ codeAmong l d = true)
    (addWarning file c span args).
Proof. intros Hc. repeat constructor. exact Hc. Qed.

Ltac on_file :=
  repeat match goal with
         | |- Forall _ (_ ++ _) => apply Forall_app; split
         | |- Forall _ (flat_map _ _) =>
             apply Forall_flat_map, Forall_forall; intros ? _
         | |- Forall _ (if ?b then _ else _) => destruct b
         | |- Forall _ (match ?o with Some _ => _ | None => _ end) =>
             destruct o
         | |- Forall _ (match ?o with
                        | Own _ => _ | Inherited => _ | Missing => _
                        end) =>
             destruct o
         | |- Forall _ (pushed (andThen _ _)) => apply Forall_pushed_andThen
         | |- Forall _ (pushed (forEach _ _)) =>
             apply Forall_pushed_forEach; intros ? _
         | |- Forall _ (pushed (match ?o with
                                | Own _ => _ | Inherited => _ | Missing => _
                                end)) =>
             destruct o
         | |- Forall _ (pushed (if ?b then _ else _)) => destruct b
         | |- Forall ?P (pushed (Completed ?x)) => change (Forall P x)
         | |- Forall ?P (pushed (Raised ?x _)) => change (Forall P x)
         | |- Forall _ [] => constructor
         | |- Forall _ (addEntryWarning _ _ _ (if ?b then _ else _) _) =>
             destruct b
         | |- Forall _ (addEntryWarning _ _ _ _ _) =>
             apply addEntryWarning_on; reflexivity
         | |- Forall _ (addWarning _ _ _ _) =>
             apply addWarning_on; reflexivity
         end.

Lemma checkParams_on (l : list string) (a : Analyzer) (file : FileInfo)
    (entry : EntryInfo) (srcEntry : option EntryInfo) (isSrc isAttr : bool) :
  existsb (String.eqb "annotation-type-mismatch") l = true ->
  existsb (String.eqb "missing-required-variable") l = true ->
  existsb (String.eqb (if isSrc then "annotation-missing"
                       else "unknown-variable")) l = true ->
  Forall (fun d => warnsOn file d /\ codeAmong l d = true)
    (checkParams a file entry srcEntry isSrc isAttr).
Proof.
  intros Hmis Hreq Hdir. unfold checkParams.
  match goal with
  | |- context [fold_left ?f ?xs ?i] =>
      pose proof (Forall_fold_left_snd
                    (fun d => warnsOn file d /\ codeAmong l d = true) f) as Hf;
      specialize (Hf ltac:(
        intros [params ds] p Hacc; cbn [snd overlayParam] in *;
        apply Forall_app; split; [exact Hacc|];
        destruct (objGet (param_id p) params);
          [destruct (bool_decide _)|destruct (isSome _)|];
          try constructor;
        apply addEntryWarning_on; exact Hmis) xs i (List.Forall_nil _));
      destruct (fold_left f xs i) as [params ds]
  end.
  cbn [snd] in Hf.
  apply Forall_app; split; [exact Hf|]. apply Forall_app; split.
  - apply Forall_flat_map, Forall_forall. intros v _. unfold checkVariable.
    apply Forall_app; split.
    + destruct isSrc; simpl; [|constructor].
      destruct (negb _); [|constructor].
      apply addEntryWarning_on; exact Hdir.
    + destruct srcEntry as [src|]; [|constructor].
      destruct isSrc; [constructor|].
      destruct (_ && _); [|constructor].
      apply addEntryWarning_on; exact Hdir.
  - apply Forall_flat_map, Forall_forall. intros p _. unfold checkRequired.
    destruct (_ || _); [constructor|].
    apply addEntryWarning_on; exact Hreq.
Qed.

Lemma checkMessageParams_on (l : list string) (a : Analyzer) (file : FileInfo)
    (msg : MessageInfo) (srcMessage : option MessageInfo) (isSrc : bool) :
  existsb (String.eqb "annotation-type-mismatch") l = true ->
  existsb (String.eqb "missing-required-variable") l = true ->
  existsb (String.eqb (if isSrc then "annotation-missing"
                       else "unknown-variable")) l = true ->
  Forall (fun d => warnsOn file d /\ codeAmong l d = true)
    (pushed (checkMessageParams a file msg srcMessage isSrc)).
Proof.
  intros Hmis Hreq Hdir. unfold checkMessageParams. cbv zeta.
  on_file; apply checkParams_on; assumption.
Qed.

Lemma checkSourceMessages_on (a : Analyzer) (file : FileInfo)
    (msgs : list MessageInfo) :
  forall seen,
    Forall (fun d => warnsOn file d /\ codeAmong sourceCheckCodes d = true)
      (pushed (checkSourceMessages a file seen msgs)).
Proof.
  induction msgs as [|m msgs IH]; intros seen; cbn [checkSourceMessages].
  - constructor.
  - apply Forall_pushed_andThen; [on_file|].
    apply Forall_pushed_andThen; [|apply IH].
    apply checkMessageParams_on; reflexivity.
Qed.

Lemma checkSourceFile_on (a : Analyzer) (file : FileInfo) :
  Forall (fun d => warnsOn file d /\ codeAmong sourceCheckCodes d = true)
    (pushed (checkSourceFile a file)).
Proof.
  unfold checkSourceFile, checkSourceTerms.
  apply Forall_pushed_andThen; [apply checkSourceMessages_on|].
  change (Forall (fun d => warnsOn file d
                           /\ codeAmong sourceCheckCodes d = true)
            (snd (fold_left (checkSourceTerm a file) (terms file) (∅, [])))).
  - apply Forall_fold_left_snd; [|constructor].
    intros [seen ds] t Hacc. cbn [snd checkSourceTerm] in *.
    apply Forall_app; split; [exact Hacc|]. on_file.
Qed.

(** X14. The checks of the source locale push warnings only, each attached
    to the file of the group it was found in, and only the codes
    [duplicate], [annotation-missing], [annotation-type-mismatch] and
    [missing-required-variable]; this holds of whatever they push, whether
    they return or throw. *)
Theorem checkSourceGroup_diagnostics (a : Analyzer) (group : FileGroup) :
  Forall (fun d => In (code d) sourceCheckCodes
                   /\ exists file, In file (recValues (files group))
                                   /\ warnsOn file d)
    (pushed (checkSourceGroup a group)).
Proof.
  unfold checkSourceGroup. apply Forall_pushed_forEach.
  intros file Hfile.
  eapply List.Forall_impl; [|apply checkSourceFile_on].
  intros d [Hon Hc]. split; [apply codeAmong_In, Hc|].
  exists file. split; assumption.
Qed.

Lemma compareAttributes_on (a : Analyzer) (file : FileInfo)
    (entry : MessageInfo) (srcAttributes : Rec AttributeInfo) :
  Forall (fun d => warnsOn file d /\ codeAmong entryCodes d = true)
    (compareAttributes a file entry srcAttributes).
Proof.
  unfold compareAttributes, compareTermAttribute, compareMessageAttribute.
  destruct (isTerm entry); on_file.
Qed.

Lemma compareMessages_on (a : Analyzer) (file : FileInfo)
    (msg srcMessage : MessageInfo) :
  Forall (fun d => warnsOn file d /\ codeAmong entryCodes d = true)
    (pushed (compareMessages a file msg srcMessage)).
Proof.
  unfold compareMessages, compareMessageValues.
  apply Forall_pushed_andThen; [on_file|].
  apply Forall_pushed_andThen;
    [apply checkMessageParams_on; reflexivity | apply compareAttributes_on].
Qed.

Lemma codeAmong_incl (l1 l2 : list string) (d : DiagnosticInfo) :
  forallb (fun c => existsb (String.eqb c) l2) l1 = true ->
  codeAmong l1 d = true -> codeAmong l2 d = true.
Proof.
  unfold codeAmong. rewrite forallb_forall, !existsb_exists.
  intros Hincl (c & Hc & Heq). apply String.eqb_eq in Heq. subst c.
  apply existsb_exists, Hincl, Hc.
Qed.

Lemma compareTerms_on (a : Analyzer) (file srcFile : FileInfo) :
  Forall (fun d => warnsOn file d /\ codeAmong entryCodes d = true)
    (pushed (compareTerms a file srcFile)).
Proof.
  unfold compareTerms. apply Forall_pushed_forEach. intros t _.
  unfold compareTerm. apply Forall_pushed_andThen; [on_file|].
  destruct (objGet _ _); [apply compareAttributes_on| |constructor].
  destruct (_ && _); constructor.
Qed.

Lemma indexMessages_on (a : Analyzer) (file : FileInfo) :
  Forall (fun d => warnsOn file d /\ codeAmong entryCodes d = true)
    (snd (indexMessages a file)).
Proof.
  unfold indexMessages. apply Forall_fold_left_snd; [|constructor].
  intros [rec ds] m Hacc. cbn [snd indexMessage] in *.
  apply Forall_app; split; [exact Hacc|]. on_file.
Qed.

Lemma entryCodes_comparison (file : FileInfo) (ds : list DiagnosticInfo) :
  Forall (fun d => warnsOn file d /\ codeAmong entryCodes d = true) ds ->
  Forall (fun d => warnsOn file d /\ codeAmong comparisonCodes d = true) ds.
Proof.
  apply List.Forall_impl. intros d [Hon Hc]. split; [exact Hon|].
  revert Hc. apply codeAmong_incl. reflexivity.
Qed.

Lemma compareFiles_on (h : Host) (a : Analyzer) (file srcFile : FileInfo)
    (loc : string) :
  Forall (fun d => warnsOn file d /\ codeAmong comparisonCodes d = true)
    (pushed (compareFiles h a (Some file) srcFile loc)).
Proof.
  unfold compareFiles.
  destruct (negb (bool_decide (bundle file = bundle srcFile))); [on_file|].
  pose proof (entryCodes_comparison _ _ (compareTerms_on a file srcFile))
    as Hterms.
  pose proof (entryCodes_comparison _ _ (indexMessages_on a file)) as Hidx.
  destruct (indexMessages a file) as [messageById dupDs].
  cbn [snd] in Hidx.
  apply Forall_pushed_andThen; [exact Hterms|].
  apply Forall_pushed_andThen; [exact Hidx|].
  apply Forall_pushed_andThen.
  - apply Forall_pushed_forEach. intros src _.
    unfold compareSourceMessage, addMissingMessageWarning.
    destruct (objGet _ _);
      [apply entryCodes_comparison, compareMessages_on|constructor|].
    on_file.
  - on_file.
Qed.

(** A file that [fileByName] holds, as a property or as its prototype, is a
    file of the group. *)
Lemma indexFile_fold (l : list FileInfo) :
  forall (index : FileIndex),
    (forall k v,
        recGet k (fst (fold_left indexFile l index)) = Some v ->
        In v l \/ recGet k (fst index) = Some v)
    /\ (forall v, snd (fold_left indexFile l index) = Some v ->
                  In v l \/ snd index = Some v).
Proof.
  induction l as [|x l IH]; intros index; simpl; [split; auto|].
  destruct (IH (indexFile index x)) as [IH1 IH2]. split.
  - intros k v H. apply IH1 in H as [H|H]; [left; right; exact H|].
    unfold indexFile in H. destruct (String.eqb (file_name x) "__proto__").
    + right. exact H.
    + simpl in H. rewrite recGet_recSet in H.
      destruct (String.eqb (file_name x) k).
      * left. left. congruence.
      * right. exact H.
  - intros v H. apply IH2 in H as [H|H]; [left; right; exact H|].
    unfold indexFile in H. destruct (String.eqb (file_name x) "__proto__").
    + simpl in H. left. left. congruence.
    + right. exact H.
Qed.

Lemma fileLookup_Own (l : list FileInfo) (k : string) (v : FileInfo) :
  fileLookup (fold_left indexFile l ([], None)) k = Own v -> In v l.
Proof.
  destruct (indexFile_fold l ([], None)) as [H1 H2].
  unfold fileLookup.
  destruct (recGet k (fst (fold_left indexFile l ([], None)))) as [w|] eqn:Hw.
  - intros H. injection H as <-.
    destruct (H1 _ _ Hw) as [Hin|Hin]; [exact Hin|discriminate].
  - destruct (snd (fold_left indexFile l ([], None))) as [proto|] eqn:Hp.
    + destruct (String.eqb k "__proto__").
      * intros H. injection H as <-.
        destruct (H2 _ eq_refl) as [Hin|Hin]; [exact Hin|discriminate].
      * destruct (_ || _); discriminate.
    + destruct (protoMember k); discriminate.
Qed.

(** X15. The comparison of a group with the source group pushes warnings
    only.  A [missing-file] warning is attached to a file of the source
    group; every other warning is attached to a file of the compared group
    and carries [unknown-file] or one of the codes of the file comparison,
    never [annotation-missing]; this holds of whatever the comparison
    pushes, whether it returns or throws. *)
Theorem compareGroups_diagnostics (h : Host) (a : Analyzer)
    (group srcGroup : FileGroup) :
  Forall (fun d =>
            (code d = "missing-file"
             /\ exists src, In src (recValues (files srcGroup))
                            /\ warnsOn src d)
            \/ (In (code d) ("unknown-file" :: comparisonCodes)
                /\ exists file, In file (recValues (files group))
                                /\ warnsOn file d))
    (pushed (compareGroups h a group srcGroup)).
Proof.
  unfold compareGroups. apply Forall_pushed_andThen.
  - apply Forall_pushed_forEach. intros src Hsrc.
    destruct (fileLookup _ (file_name src)) as [file| |] eqn:Hget.
    + apply fileLookup_Own in Hget.
      eapply List.Forall_impl; [|apply compareFiles_on].
      intros d [Hon Hc]. right. split.
      * right. apply codeAmong_In, Hc.
      * exists file. split; assumption.
    + constructor.
    + cbn [pushed]. unfold addMissingFileWarning, addWarning.
      destruct (fileIgnores _ _); [constructor|].
      constructor; [|constructor]. left. split; [reflexivity|].
      exists src. split; [exact Hsrc|]. split; reflexivity.
  - cbn [pushed]. apply Forall_flat_map, List.Forall_forall. intros file Hfile.
    destruct (negb _); [|constructor].
    unfold addUnknownFileWarning, addWarning.
    destruct (fileIgnores _ _); [constructor|].
    constructor; [|constructor].
    right. split; [left; reflexivity|].
    exists file. split; [exact Hfile|]. split; reflexivity.
Qed.

(** ** Where the second pass throws *)

Lemma andThen_returns (r1 r2 : Run) :
  (exists ds, andThen r1 r2 = Completed ds)
  <-> (exists d1, r1 = Completed d1) /\ (exists d2, r2 = Completed d2).
Proof.
  split.
  - intros [ds H]. apply andThen_Completed in H.
    destruct H as (d1 & d2 & H1 & H2 & _). split; eauto.
  - intros [[d1 ->] [d2 ->]]. simpl. eauto.
Qed.

Lemma forEach_returns {A : Type} (f : A -> Run) (l : list A) :
  (exists ds, forEach f l = Completed ds)
  <-> Forall (fun x => exists d, f x = Completed d) l.
Proof.
  split.
  - intros [ds H]. apply forEach_Completed in H as [_ Hall].
    apply List.Forall_forall. intros x Hx. eauto.
  - intros Hall. rewrite forEach_all_Completed; [eauto|].
    intros x Hx. rewrite List.Forall_forall in Hall.
    destruct (Hall x Hx) as [d ->]. reflexivity.
Qed.

(** X30. The parameter checks of a message return unless one of its
    attributes has no counterpart among the source attributes and is named
    like a member of [Object.prototype]; then they throw, after the
    warnings of the message's own parameters are pushed.  In the check of the
    source locale there are no source attributes: a message with the
    attribute [toString] makes the analysis throw once the files are
    read, a message with the attribute [label] does not. *)
Theorem checkMessageParams_returns :
  (forall a file msg srcMessage isSrc,
      (exists ds, checkMessageParams a file msg srcMessage isSrc = Completed ds)
      <-> Forall (fun attr : AttributeInfo =>
                    recGet (el_id attr) (sourceAttributes srcMessage) = None ->
                    protoMember (el_id attr) = false)
            (recValues (attributes msg)))
  /\ (forall a file msg srcMessage isSrc,
         exists rest,
           checkParams a file (OfMessage msg) (option_map OfMessage srcMessage)
             isSrc false ++ rest
           = pushed (checkMessageParams a file msg srcMessage isSrc))
  /\ ending (processCollection (attributeHost "toString") analyzer0
               pairCollection) = Some Exception
  /\ ending (processCollection (attributeHost "label") analyzer0
               pairCollection) = None.
Proof.
  split; [|split; [|split; vm_compute; reflexivity]].
  - intros a file msg srcMessage isSrc. unfold checkMessageParams. cbv zeta.
    fold (sourceAttributes srcMessage).
    rewrite andThen_returns, forEach_returns. split.
    + intros [_ Hall]. eapply List.Forall_impl; [|exact Hall].
      intros attr [d Hd] Hget. revert Hd. unfold objGet. rewrite Hget.
      destruct (protoMember (el_id attr)); [discriminate|reflexivity].
    + intros Hall. split; [eauto|].
      eapply List.Forall_impl; [|exact Hall].
      intros attr Hattr. unfold objGet.
      destruct (recGet (el_id attr) (sourceAttributes srcMessage)) eqn:Hget;
        [eauto|].
      rewrite (Hattr Hget). eauto.
  - intros a file msg srcMessage isSrc. unfold checkMessageParams. cbv zeta.
    rewrite pushed_andThen. cbn [pushed]. eauto.
Qed.



(** ** Messages missing from a file, and messages unknown to the source *)

Lemma filter_code_none (c : string) (l : list string)
    (P : DiagnosticInfo -> Prop) (ds : list DiagnosticInfo) :
  existsb (String.eqb c) l = false ->
  Forall (fun d => P d /\ codeAmong l d = true) ds ->
  List.filter (hasCode c) ds = [].
Proof.
  intros Hc Hds. apply filter_none.
  eapply List.Forall_impl; [|exact Hds]. intros d [_ Hd].
  unfold hasCode.
  destruct (String.eqb_spec (code d) c) as [<-|]; [|reflexivity].
  unfold codeAmong in Hd. congruence.
Qed.

Lemma filter_flat_map {A B : Type} (p : B -> bool) (f : A -> list B)
    (l : list A) :
  List.filter p (flat_map f l) = flat_map (fun x => List.filter p (f x)) l.
Proof.
  induction l as [|x l IH]; simpl; [reflexivity|].
  rewrite List.filter_app, IH. reflexivity.
Qed.

Lemma flat_map_ext_in {A B : Type} (f g : A -> list B) (l : list A) :
  (forall x, In x l -> f x = g x) -> flat_map f l = flat_map g l.
Proof.
  induction l as [|x l IH]; intros H; simpl; [reflexivity|].
  rewrite (H x (or_introl eq_refl)), IH; [reflexivity|].
  intros y Hy. apply H. right. exact Hy.
Qed.

Lemma flat_map_nil_iff_aux {A B : Type} (f : A -> list B) (l : list A) :
  (forall x, f x = []) -> flat_map f l = [].
Proof.
  intros H. induction l as [|x l IH]; simpl; [reflexivity|].
  rewrite H, IH. reflexivity.
Qed.

Lemma indexMessages_keys (a : Analyzer) (file : FileInfo)
    (msgs : list MessageInfo) (x : string) :
  forall rec ds,
    isSome (recGet x (fst (fold_left (indexMessage a file) msgs (rec, ds))))
    = isSome (recGet x rec)
      || setHas x (map (fun m => el_id (base m)) msgs).
Proof.
  induction msgs as [|m msgs IH]; intros rec ds.
  - simpl. rewrite orb_false_r. reflexivity.
  - cbn [fold_left map]. unfold indexMessage at 2. rewrite IH, recGet_recSet.
    unfold setHas. cbn [existsb]. rewrite (String.eqb_sym x).
    destruct (String.eqb (el_id (base m)) x); simpl.
    + rewrite orb_true_r. reflexivity.
    + reflexivity.
Qed.

Lemma elem_of_fold_ids {A : Type} (key : A -> string) (l : list A)
    (x : string) :
  forall s : gset string,
    x ∈ fold_left (fun s m => {[key m]} ∪ s) l s
    <-> x ∈ s \/ setHas x (map key l) = true.
Proof.
  induction l as [|m l IH]; intros s; simpl.
  - unfold setHas. simpl. intuition discriminate.
  - rewrite IH. unfold setHas. cbn [existsb]. rewrite orb_true_iff.
    destruct (String.eqb_spec x (key m)) as [->|Hne]; [set_solver|].
    split.
    + intros [H|H]; [|tauto]. left. set_solver.
    + intros [H|[H|H]]; [left; set_solver | discriminate | tauto].
Qed.

(** X17. When the comparison of a file with its source file, both in the
    same bundle, returns, its [missing-message] warnings are those of the
    source messages whose identifier no message of the file carries (one
    per such source message that requires translation, unless the file
    ignores the code); and its [unknown-message] warnings are those of the
    messages of the file whose identifier no source message carries,
    repeated messages included. *)
Theorem compareFiles_missing_and_unknown_messages (h : Host) (a : Analyzer)
    (file srcFile : FileInfo) (loc : string) (ds : list DiagnosticInfo) :
  bundle file = bundle srcFile ->
  compareFiles h a (Some file) srcFile loc = Completed ds ->
  List.filter (hasCode "missing-message") ds
  = flat_map
      (fun src => if setHas (el_id (base src)) (messageIds file) then []
                  else addMissingMessageWarning file src)
      (messages srcFile)
  /\ List.filter (hasCode "unknown-message") ds
     = flat_map
         (fun msg => if setHas (el_id (base msg)) (messageIds srcFile) then []
                     else addEntryWarning a file (OfMessage msg) UnknownMessage
                            [el_id (base msg)])
         (messages file).
Proof.
  intros Hbundle. unfold compareFiles.
  rewrite (bool_decide_eq_true_2 _ Hbundle). cbn [negb].
  pose proof (compareTerms_on a file srcFile) as Hterms.
  pose proof (indexMessages_on a file) as Hidx.
  assert (Hkeys : forall x,
             isSome (recGet x (fst (indexMessages a file)))
             = setHas x (messageIds file)).
  { intros x. unfold indexMessages. rewrite indexMessages_keys. reflexivity. }
  destruct (indexMessages a file) as [messageById dupDs].
  cbn [fst snd] in *.
  assert (Hset : forall x,
             bool_decide
               (x ∈ fold_left (fun (s : gset string) (m : MessageInfo) =>
                                 {[el_id (base m)]} ∪ s)
                    (messages srcFile) ∅)
             = setHas x (messageIds srcFile)).
  { intros x. destruct (setHas x (messageIds srcFile)) eqn:Hx.
    - apply bool_decide_eq_true.
      apply (elem_of_fold_ids (fun m : MessageInfo => el_id (base m))).
      right. exact Hx.
    - apply bool_decide_eq_false. intros Hin.
      apply (elem_of_fold_ids (fun m : MessageInfo => el_id (base m))) in Hin
        as [Hin|Hin]; [set_solver|].
      unfold messageIds in Hx. congruence. }
  intros Hds. apply andThen_Completed in Hds.
  destruct Hds as (termDs & d2 & H1 & H2 & ->).
  apply andThen_Completed in H2. destruct H2 as (d3 & d4 & H3 & H4 & ->).
  apply andThen_Completed in H4. destruct H4 as (d5 & d6 & H5 & H6 & ->).
  apply Completed_inj in H3. apply Completed_inj in H6. subst d3 d6.
  rewrite H1 in Hterms. cbn [pushed] in Hterms.
  apply forEach_Completed in H5. destruct H5 as [-> Hall].
  split.
  - rewrite !List.filter_app.
    rewrite (filter_code_none "missing-message" entryCodes _ termDs eq_refl
               Hterms).
    rewrite (filter_code_none "missing-message" entryCodes _ dupDs eq_refl
               Hidx).
    rewrite !filter_flat_map. cbn [app].
    match goal with
    | |- _ ++ ?u = _ => assert (Hu : u = []); [|rewrite Hu, app_nil_r]
    end.
    { apply flat_map_nil_iff_aux. intros msg.
      destruct (negb _); [|reflexivity].
      apply (filter_code_none _ ["unknown-message"] (warnsOn file));
        [reflexivity|]. apply addEntryWarning_on. reflexivity. }
    apply flat_map_ext_in. intros src Hsrc. specialize (Hall src Hsrc).
    revert Hall. unfold compareSourceMessage, objGet.
    rewrite <- Hkeys.
    destruct (recGet (el_id (base src)) messageById) as [msg|]; cbn [isSome].
    + intros _.
      apply (filter_code_none _ entryCodes (warnsOn file)); [reflexivity|].
      apply compareMessages_on.
    + destruct (protoMember _); [discriminate|]. intros _. cbn [pushed].
      apply filter_all. unfold addMissingMessageWarning, addWarning.
      destruct (fileIgnores _ _); [constructor|].
      destruct (negb _); repeat constructor.
  - rewrite !List.filter_app.
    rewrite (filter_code_none "unknown-message" entryCodes _ termDs eq_refl
               Hterms).
    rewrite (filter_code_none "unknown-message" entryCodes _ dupDs eq_refl
               Hidx).
    rewrite !filter_flat_map. cbn [app].
    match goal with
    | |- ?u ++ _ = _ => assert (Hu : u = []); [|rewrite Hu]
    end.
    { apply flat_map_nil_iff_aux. intros src. unfold compareSourceMessage.
      destruct (objGet _ _).
      - apply (filter_code_none _ entryCodes (warnsOn file)); [reflexivity|].
        apply compareMessages_on.
      - reflexivity.
      - apply (filter_code_none _ ["missing-message"] (warnsOn file));
          [reflexivity|]. cbn [pushed].
        unfold addMissingMessageWarning.
        destruct (fileIgnores _ _); [constructor|].
        destruct (negb _); [constructor|].
        apply addWarning_on. reflexivity. }
    cbn [app]. apply flat_map_ext_in. intros msg _. rewrite Hset.
    destruct (setHas _ _); cbn [negb]; [reflexivity|].
    apply filter_all.
    eapply List.Forall_impl;
      [|apply (addEntryWarning_code a file (OfMessage msg) UnknownMessage)].
    intros d Hd. unfold hasCode. rewrite Hd. reflexivity.
Qed.

(** X18. For a term, the comparison of attributes pushes one
    [do-not-translate] warning for each attribute of the term whose source
    attribute is marked as not to be translated, and nothing else: no
    attribute is reported missing, unknown, identical or different, and
    neither the ignore annotations of the term nor the ignore list of the
    analyzer suppress the warnings. *)
Theorem compareAttributes_of_term (a : Analyzer) (file : FileInfo)
    (entry : MessageInfo) (srcAttributes : Rec AttributeInfo) :
  isTerm entry = true ->
  compareAttributes a file entry srcAttributes
  = map (fun attr => entryDiagnostic file (OfAttribute attr) DoNotTranslate
                       ["Attribute"; el_name attr])
      (List.filter
         (fun attr => match recGet (el_id attr) srcAttributes with
                      | Some srcAttr =>
                          TranslateType_eqb (el_translate srcAttr) Disallowed
                      | None => false
                      end)
         (recValues (attributes entry))).
Proof.
  intros Hterm. unfold compareAttributes. rewrite Hterm.
  induction (recValues (attributes entry)) as [|attr attrs IH];
    [reflexivity|].
  cbn [flat_map List.filter]. rewrite IH.
  unfold compareTermAttribute, objGet.
  destruct (recGet (el_id attr) srcAttributes) as [srcAttr|];
    [|destruct (protoMember _); reflexivity].
  destruct (TranslateType_eqb (el_translate srcAttr) Disallowed); reflexivity.
Qed.

(** ** Files missing from a group, and files unknown to the source *)






(** ** Parameter checks in the source locale *)

Lemma recSet_fresh {T : Type} (k : string) (v : T) (r : Rec T) :
  recGet k r = None -> recSet k v r = r ++ [(k, v)].
Proof.
  induction r as [|[k' v'] r IH]; simpl; intros H; [reflexivity|].
  destruct (String.eqb k' k); [discriminate|]. rewrite IH; [reflexivity|].
  exact H.
Qed.

Lemma recGet_app_None {T : Type} (k : string) (r1 r2 : Rec T) :
  recGet k (r1 ++ r2) = None <-> recGet k r1 = None /\ recGet k r2 = None.
Proof.
  induction r1 as [|[k' v'] r1 IH]; simpl; [tauto|].
  destruct (String.eqb k' k); [|exact IH].
  split; [discriminate | intros [H _]; discriminate].
Qed.

Lemma overlay_own_params (a : Analyzer) (file : FileInfo) (entry : EntryInfo)
    (isAttr : bool) (r : Rec ParamInfo) :
  forall acc ds,
    Forall (fun kp => param_id (snd kp) = fst kp) r ->
    NoDup (map fst r) ->
    (forall k, In k (map fst r) -> recGet k acc = None) ->
    fold_left (overlayParam a file entry isAttr) (recValues r) (acc, ds)
    = (acc ++ r,
       ds ++ flat_map
               (fun p =>
                  if protoMember (param_id p) && isSome (param_type p)
                  then addEntryWarning a file entry AnnotationTypeMismatch
                         [paramLabel isAttr entry (param_id p);
                          if isAttr then "attribute" else "message";
                          entry_name entry]
                  else [])
               (recValues r)).
Proof.
  unfold recValues.
  induction r as [|[k p] r IH]; intros acc ds Hkeyed Hnd Hfresh; simpl.
  - rewrite !app_nil_r. reflexivity.
  - apply Forall_cons in Hkeyed as [Hk Hkeyed]. simpl in Hk. subst k.
    apply NoDup_cons in Hnd as [Hp Hnd].
    unfold objGet. rewrite (Hfresh (param_id p) (or_introl eq_refl)).
    rewrite recSet_fresh by (apply Hfresh; left; reflexivity).
    rewrite IH; [|exact Hkeyed|exact Hnd|].
    + rewrite <- !app_assoc. simpl. f_equal. f_equal. f_equal.
      destruct (protoMember (param_id p)); reflexivity.
    + intros k Hin. apply recGet_app_None. split.
      * apply Hfresh. right. exact Hin.
      * simpl. destruct (String.eqb_spec (param_id p) k) as [<-|_];
          [|reflexivity].
        exfalso. apply Hp, list_elem_of_In, Hin.
Qed.

(** X28. In the check of the source locale, an entry whose parameters are
    recorded once each under their own names gets exactly these warnings:
    [annotation-type-mismatch] for each declared parameter that has a type
    and whose name is the name of a member of [Object.prototype];
    then [annotation-missing] for each referenced variable that is neither
    declared nor named like such a member, in the order of the references;
    then [missing-required-variable] for each declared required parameter
    the entry does not reference. *)
Theorem checkParams_of_source_entry (a : Analyzer) (file : FileInfo)
    (entry : EntryInfo) (isAttr : bool) :
  paramsKeyed (entry_params entry) ->
  checkParams a file entry None true isAttr
  = flat_map
      (fun p =>
         if protoMember (param_id p) && isSome (param_type p)
         then addEntryWarning a file entry AnnotationTypeMismatch
                [paramLabel isAttr entry (param_id p);
                 if isAttr then "attribute" else "message";
                 entry_name entry]
         else [])
      (recValues (entry_params entry))
    ++ flat_map
         (fun v =>
            if isSome (recGet v (entry_params entry)) || protoMember v then []
            else addEntryWarning a file entry AnnotationMissing
                   [paramLabel isAttr entry v;
                    if isAttr then "attribute" else "message";
                    entry_name entry])
         (entry_variables entry)
    ++ flat_map (checkRequired a file entry isAttr)
         (recValues (entry_params entry)).
Proof.
  intros [Hkeyed Hnd]. unfold checkParams.
  rewrite (overlay_own_params a file entry isAttr (entry_params entry) [] []
             Hkeyed Hnd (fun k _ => eq_refl)).
  cbn [app]. f_equal. f_equal. apply flat_map_ext. intros v.
  unfold checkVariable. rewrite app_nil_r, objHas_recGet. cbn [andb].
  destruct (isSome (recGet v (entry_params entry)) || protoMember v);
    reflexivity.
Qed.

(** ** Analysis keeps the discovered structure *)

Lemma read_keeps (h : Host) (a : Analyzer) (file : FileInfo) :
  settings (fst (outcome (read h a file))) = settings a
  /\ fileShape (snd (outcome (read h a file))) = fileShape file.
Proof.
  unfold read, parse.
  destruct (readFile h (path_uri (file_path file))) as [text|];
    [|split; reflexivity].
  match goal with
  | |- context [readEntries h ?a0 ?es ?st ?f0 ?ds0] =>
      destruct (readEntries_file h a0 es st f0 ds0)
        as ((Hn & Hp & _) & _);
      destruct (readEntries h a0 es st f0 ds0)
        as [[[state f] ds]|why [[state f] ds]]
  end; cbv zeta in *; simpl in *.
  - destruct (finishRead_keeps state f) as (K1 & K2 & _).
    split; [reflexivity|]. unfold fileShape. rewrite K1, K2, Hn, Hp.
    reflexivity.
  - split; [reflexivity|]. unfold fileShape. rewrite Hn, Hp. reflexivity.
Qed.

Lemma readFiles_keeps (h : Host) (todo : Rec FileInfo) :
  forall a done,
    settings (fst (outcome (readFiles h a done todo))) = settings a
    /\ map (fun kf => (fst kf, fileShape (snd kf)))
         (snd (outcome (readFiles h a done todo)))
       = map (fun kf => (fst kf, fileShape (snd kf))) (done ++ todo).
Proof.
  induction todo as [|[k file] todo IH]; intros a done; simpl.
  - rewrite app_nil_r. split; reflexivity.
  - destruct (read_keeps h a file) as [Hs Hf].
    destruct (read h a file) as [[a' file']|why [a' file']]; simpl in *.
    + destruct (IH a' (done ++ [(k, file')])) as [H1 H2].
      rewrite H1, H2, Hs, <- app_assoc, !map_app. simpl. rewrite Hf.
      split; reflexivity.
    + rewrite !map_app. simpl. rewrite Hf. split; [exact Hs | reflexivity].
Qed.

Lemma readGroup_keeps (h : Host) (a : Analyzer) (g : FileGroup) :
  settings (fst (outcome (readGroup h a g))) = settings a
  /\ groupShape (snd (outcome (readGroup h a g))) = groupShape g.
Proof.
  unfold readGroup.
  pose proof (readFiles_keeps h (files g) a []) as [H1 H2].
  destruct (readFiles h a [] (files g)) as [[a' fs]|why [a' fs]]; simpl in *;
    (split; [exact H1|]); unfold groupShape; simpl; rewrite H2; reflexivity.
Qed.

Lemma readGroups_keeps (h : Host) (todo : Rec FileGroup) :
  forall a done,
    settings (fst (outcome (readGroups h a done todo))) = settings a
    /\ map (fun kg => (fst kg, groupShape (snd kg)))
         (snd (outcome (readGroups h a done todo)))
       = map (fun kg => (fst kg, groupShape (snd kg))) (done ++ todo).
Proof.
  induction todo as [|[k g] todo IH]; intros a done; simpl.
  - rewrite app_nil_r. split; reflexivity.
  - destruct (readGroup_keeps h a g) as [Hs Hg].
    destruct (readGroup h a g) as [[a' g']|why [a' g']]; simpl in *.
    + destruct (IH a' (done ++ [(k, g')])) as [H1 H2].
      rewrite H1, H2, Hs, <- app_assoc, !map_app. simpl. rewrite Hg.
      split; reflexivity.
    + rewrite !map_app. simpl. rewrite Hg. split; [exact Hs | reflexivity].
Qed.

Lemma settle_keeps {S : Type} (r : Run) (a : Analyzer) (s : S) :
  settings (fst (outcome (settle r a s))) = settings a
  /\ snd (outcome (settle r a s)) = s.
Proof.
  destruct r as [ds|ds [u|]]; simpl; try (split; reflexivity).
  unfold fetchList. destruct (recGet u _); split; reflexivity.
Qed.

Lemma processCollection_keeps (h : Host) (a : Analyzer) (c : FileCollection) :
  settings (fst (outcome (processCollection h a c))) = settings a
  /\ collectionShape (snd (outcome (processCollection h a c)))
     = collectionShape c.
Proof.
  unfold processCollection.
  pose proof (readGroups_keeps h (groups c) a []) as [H1 H2].
  destruct (readGroups h a [] (groups c)) as [[a' gs]|why [a' gs]]; simpl in *.
  - destruct (recGet (sourceLocale a') gs) as [srcGroup|]; simpl.
    + destruct (settle_keeps (compareCollection h a' srcGroup gs) a'
                  (mkCollection (coll_path c) gs)) as [K1 K2].
      rewrite K1, K2. split; [exact H1|].
      unfold collectionShape. simpl. rewrite H2. reflexivity.
    + split; [exact H1|]. unfold collectionShape. simpl. rewrite H2.
      reflexivity.
  - split; [exact H1|]. unfold collectionShape. simpl. rewrite H2.
    reflexivity.
Qed.

Lemma processCollections_keeps (h : Host) (todo : list FileCollection) :
  forall a done,
    settings (fst (outcome (processCollections h a done todo))) = settings a
    /\ map collectionShape (snd (outcome (processCollections h a done todo)))
       = map collectionShape (done ++ todo).
Proof.
  induction todo as [|c todo IH]; intros a done; simpl.
  - rewrite app_nil_r. split; reflexivity.
  - destruct (processCollection_keeps h a c) as [Hs Hc].
    destruct (processCollection h a c) as [[a' c']|why [a' c']]; simpl in *.
    + destruct (IH a' (done ++ [c'])) as [H1 H2].
      rewrite H1, H2, Hs, <- app_assoc, !map_app. simpl. rewrite Hc.
      split; reflexivity.
    + rewrite !map_app. simpl. rewrite Hc. split; [exact Hs | reflexivity].
Qed.

(** X19. Analysis of a discovery result, whether it completes or stops on
    the way, leaves the settings of the
    analyzer as they were and keeps the discovered structure: the same
    collections in the same order, under the same paths, with the same
    locale keys, and in every group the same files under the same keys, each
    with its name and path; the same holds of the ungrouped files. *)
Theorem processDiscoveredFiles_keeps_structure (h : Host) (a : Analyzer)
    (cs : list FileCollection) (ug : FileGroup) :
  settings (fst (outcome (processDiscoveredFiles h a cs ug))) = settings a
  /\ map collectionShape
       (fst (snd (outcome (processDiscoveredFiles h a cs ug))))
     = map collectionShape cs
  /\ groupShape (snd (snd (outcome (processDiscoveredFiles h a cs ug))))
     = groupShape ug.
Proof.
  unfold processDiscoveredFiles.
  pose proof (processCollections_keeps h cs a []) as [H1 H2].
  destruct (processCollections h a [] cs) as [[a' cs']|why [a' cs']];
    simpl in *; [|repeat split; assumption].
  destruct (readGroup_keeps h a' ug) as [H3 H4].
  destruct (readGroup h a' ug) as [[a'' g]|why [a'' g]]; simpl in *.
  - destruct (settle_keeps (checkSourceGroup a'' g) a'' (cs', g)) as [K1 K2].
    rewrite K1, K2. simpl.
    split; [rewrite <- H1; exact H3|]. split; assumption.
  - split; [rewrite <- H1; exact H3|]. split; assumption.
Qed.

(** ** The variables of a pattern *)

Lemma NoDup_setAdd (y : string) (vars : list string) :
  NoDup vars -> NoDup (setAdd y vars).
Proof.
  intros Hnd. unfold setAdd.
  destruct (existsb (String.eqb y) vars) eqn:Hy; [exact Hnd|].
  apply NoDup_app. split; [exact Hnd|]. split.
  - intros x Hx Hx'. apply list_elem_of_In in Hx.
    apply list_elem_of_singleton in Hx'. subst x.
    assert (Hex : existsb (String.eqb y) vars = true).
    { apply existsb_exists. exists y. split; [exact Hx|].
      apply String.eqb_refl. }
    congruence.
  - apply NoDup_singleton.
Qed.

Lemma collectLoop_NoDup (fuel : nat) :
  forall stack vars result,
    NoDup vars -> collectLoop fuel stack vars = Some result -> NoDup result.
Proof.
  induction fuel as [|fuel IH]; intros [|el rest] vars result Hnd Hrun;
    simpl in Hrun; try discriminate.
  - injection Hrun as <-. exact Hnd.
  - injection Hrun as <-. exact Hnd.
  - destruct (collectStep el rest vars) as [stack' vars'] eqn:Hstep.
    apply (IH stack' vars' result); [|exact Hrun].
    destruct el; simpl in Hstep; injection Hstep as <- <-;
      try exact Hnd.
    apply NoDup_setAdd, Hnd.
Qed.

(** X25. [collectVariables] returns nothing for a missing pattern, and for
    a pattern a list without repetitions whose members are exactly the
    identifiers the walk reaches (through placeables, positional arguments
    of function references and selectors); every identifier it returns is
    the identifier of a variable reference of the pattern. *)
Theorem collectVariables_characterised (p : Pattern) :
  collectVariables Undefined = []
  /\ collectVariables Null = []
  /\ NoDup (collectVariables (Present p))
  /\ (forall x, In x (collectVariables (Present p))
                <-> In x (flat_map walkedVars (pat_elements p)))
  /\ (forall x, In x (collectVariables (Present p)) ->
                occursInPattern x p = true).
Proof.
  split; [reflexivity|]. split; [reflexivity|]. split; [|split].
  - unfold collectVariables.
    destruct (collectLoop _ _ _) as [vars|] eqn:Hrun; [|constructor].
    eapply collectLoop_NoDup; [|exact Hrun]. constructor.
  - intros x. apply collectVariables_walk.
  - intros x. apply collectVariables_sound.
Qed.

(** ** Annotations of the resource and of entries *)

Lemma handleResourceAnnotation_global (state : AnnotationState)
    (annot : AnnotationItem) :
  (annot_name annot = "@global" \/ st_global state = Some true) ->
  st_global (handleResourceAnnotation state annot) = Some true.
Proof.
  unfold handleResourceAnnotation. intros [Hname|Hstate].
  - rewrite Hname. reflexivity.
  - cbv zeta.
    destruct (String.eqb (annot_name annot) "@diagnostic").
    { destruct (handleDiagnosticAnnotation _ annot). exact Hstate. }
    repeat (match goal with
            | |- context [if ?b then _ else _] => destruct b
            end; try exact Hstate; try reflexivity).
Qed.

Lemma handleResourceAnnotations_global (annots : list AnnotationItem) :
  forall state,
    ((exists annot, In annot annots /\ annot_name annot = "@global")
     \/ st_global state = Some true) ->
    st_global (handleResourceAnnotations state annots) = Some true.
Proof.
  unfold handleResourceAnnotations.
  induction annots as [|annot annots IH]; intros state H; simpl.
  - destruct H as [(annot & [] & _)|H]; exact H.
  - apply IH. destruct H as [(annot' & [<-|Hin] & Hname)|H].
    + right. apply handleResourceAnnotation_global. left. exact Hname.
    + left. exists annot'. split; assumption.
    + right. apply handleResourceAnnotation_global. right. exact H.
Qed.

Lemma readEntries_global (h : Host) (a : Analyzer) (entries : list Entry) :
  forall state file ds,
    match readEntries h a entries state file ds with
    | Normal (state', file', _) =>
        bundle file' = bundle file
        /\ (((exists text annot,
                 In (ResourceCommentEntry text) entries
                 /\ In annot (ex_annotations (readAnnots text))
                 /\ annot_name annot = "@global")
             \/ st_global state = Some true) ->
            st_global state' = Some true)
    | Stopped _ (_, file', _) => bundle file' = bundle file
    end.
Proof.
  induction entries as [|e entries IH]; intros state file ds.
  - simpl. split; [reflexivity|].
    intros [(text & annot & [] & _)|H]; exact H.
  - assert (Hrest :
              forall state1 file1 ds1,
                bundle file1 = bundle file ->
                (((exists text annot,
                      In (ResourceCommentEntry text) (e :: entries)
                      /\ In annot (ex_annotations (readAnnots text))
                      /\ annot_name annot = "@global")
                  \/ st_global state = Some true) ->
                 (exists text annot,
                     In (ResourceCommentEntry text) entries
                     /\ In annot (ex_annotations (readAnnots text))
                     /\ annot_name annot = "@global")
                 \/ st_global state1 = Some true) ->
                match readEntries h a entries state1 file1 ds1 with
                | Normal (state', file', _) =>
                    bundle file' = bundle file
                    /\ (((exists text annot,
                             In (ResourceCommentEntry text) (e :: entries)
                             /\ In annot (ex_annotations (readAnnots text))
                             /\ annot_name annot = "@global")
                         \/ st_global state = Some true) ->
                        st_global state' = Some true)
                | Stopped _ (_, file', _) => bundle file' = bundle file
                end).
    { intros state1 file1 ds1 Hb Hg. specialize (IH state1 file1 ds1).
      destruct (readEntries h a entries state1 file1 ds1)
        as [[[s' f'] d']|why [[s' f'] d']].
      - destruct IH as [IHb IHg]. split; [congruence|].
        intros H. apply IHg, Hg, H.
      - congruence. }
    assert (Hother :
              (forall text, e <> ResourceCommentEntry text) ->
              ((exists text annot,
                   In (ResourceCommentEntry text) (e :: entries)
                   /\ In annot (ex_annotations (readAnnots text))
                   /\ annot_name annot = "@global")
               \/ st_global state = Some true) ->
              (exists text annot,
                  In (ResourceCommentEntry text) entries
                  /\ In annot (ex_annotations (readAnnots text))
                  /\ annot_name annot = "@global")
              \/ st_global state = Some true).
    { intros Hne [(text & annot & [Hin|Hin] & H)|H].
      - exfalso. exact (Hne text Hin).
      - left. exists text, annot. split; [exact Hin | exact H].
      - right. exact H. }
    destruct e as [n|n|text|annotations|text]; cbn [readEntries].
    + destruct (convertMessage h a file n state false) as [ws [m|why m]];
        [|reflexivity].
      apply Hrest; [reflexivity|]. apply Hother. discriminate.
    + destruct (convertMessage h a file n state true) as [ws [t|why t]];
        [|reflexivity].
      apply Hrest; [reflexivity|]. apply Hother. discriminate.
    + apply Hrest; [reflexivity|].
      intros [(text' & annot & [Hin|Hin] & Hannot & Hname)|H].
      * injection Hin as <-. right.
        apply handleResourceAnnotations_global. left.
        exists annot. split; assumption.
      * left. exists text', annot. repeat split; assumption.
      * right. apply handleResourceAnnotations_global. right. exact H.
    + apply Hrest; [reflexivity|]. apply Hother. discriminate.
    + apply Hrest; [reflexivity|]. apply Hother. discriminate.
Qed.

(** X26. When [read] returns, a resource one of whose resource comments
    carries a [@global] annotation is in the global bundle, whatever other
    annotations the resource comments carry and whichever comes first: a
    [@bundle] annotation before or after it is without effect.  When
    [read] throws on the way, the bundle of the record is left as it was. *)
Theorem global_annotation_wins (h : Host) (a : Analyzer) (file : FileInfo)
    (text comment : string) (annot : AnnotationItem) :
  readFile h (path_uri (file_path file)) = Some text ->
  In (ResourceCommentEntry comment) (parseResource h text) ->
  In annot (ex_annotations (readAnnots comment)) ->
  annot_name annot = "@global" ->
  match read h a file with
  | Normal (_, file') => bundle file' = Some EmptyString
  | Stopped Exception (_, file') => bundle file' = bundle file
  | Stopped PrototypeWrite _ => True
  end.
Proof.
  intros Hread Hin Hannot Hname. unfold read, parse. rewrite Hread.
  match goal with
  | |- context [readEntries h ?a0 ?es ?st ?f ?d] =>
      pose proof (readEntries_global h a0 es st f d) as H;
      destruct (readEntries h a0 es st f d)
        as [[[state' file'] ds]|why [[state' file'] ds]]
  end.
  - destruct H as [_ Hglobal].
    assert (Hg : st_global state' = Some true).
    { apply Hglobal. left. exists comment, annot. repeat split; assumption. }
    unfold finishRead. rewrite Hg. cbn [isTrue].
    destruct (_ || _); destruct (_ || _); reflexivity.
  - destruct why; [exact H | exact I].
Qed.

Lemma targetedProp_known (name : string) :
  String.eqb name "@expect-identical"
  || (String.eqb name "@translate" || String.eqb name "@do-not-translate"
      || String.eqb name "@translate-optional") = true ->
  exists prop, targetedProp name = Some prop.
Proof.
  unfold targetedProp. intros H.
  destruct (String.eqb name "@expect-identical"); [eauto|].
  destruct (String.eqb name "@translate"); [eauto|].
  destruct (String.eqb name "@do-not-translate"); [eauto|].
  destruct (String.eqb name "@translate-optional"); [eauto|].
  discriminate.
Qed.

(** A targeted annotation with a known name stops only to write to a member
    of [Object.prototype]. *)
Lemma handleTargetedAnnotation_known (info info' : MessageInfo)
    (annot : AnnotationItem) (why : Reason) :
  String.eqb (annot_name annot) "@expect-identical"
  || (String.eqb (annot_name annot) "@translate"
      || String.eqb (annot_name annot) "@do-not-translate"
      || String.eqb (annot_name annot) "@translate-optional") = true ->
  handleTargetedAnnotation info annot = Stopped why info' ->
  why = PrototypeWrite
  /\ protoMember (targetOf annot) = true
  /\ recGet (targetOf annot) (attributes info) = None.
Proof.
  intros H. destruct (targetedProp_known _ H) as [prop Hprop].
  unfold handleTargetedAnnotation. rewrite Hprop. cbv zeta.
  fold (targetOf annot).
  destruct (String.eqb _ EmptyString); [discriminate|].
  destruct (String.eqb _ "*"); [discriminate|].
  unfold objGet. destruct (recGet _ _); [discriminate|].
  destruct (protoMember _); [|discriminate].
  intros Hstop. injection Hstop as <- _. repeat split.
Qed.

(** Whether a key is an own property depends on the keys alone. *)
Lemma recGet_None_core (k : string) (info info' : MessageInfo) :
  entryCore info' = entryCore info ->
  recGet k (attributes info') = None -> recGet k (attributes info) = None.
Proof.
  intros Hcore. apply recGet_keys.
  apply (f_equal snd) in Hcore. unfold entryCore in Hcore. simpl in Hcore.
  apply (f_equal (map fst)) in Hcore. rewrite !map_map in Hcore.
  exact Hcore.
Qed.

(** X27. The handling of the annotations of an entry throws in two cases
    only: a [@param] or [@param-attribute] annotation that matches the
    parameter syntax without a type, and a [@param-attribute] annotation
    with a type whose attribute name is no attribute of the entry but the
    name of a member of [Object.prototype].  The [Bad argument] error of
    [handleTargetedAnnotation] is never raised from here, and annotations
    with other names are passed over.  The handling stops for a write to a
    member of [Object.prototype] in one case only: a targeted annotation
    whose target is no attribute of the entry but the name of such a
    member. *)
Theorem handleEntryAnnotations_throws (h : Host)
    (annots : list AnnotationItem) :
  forall info why info',
    handleEntryAnnotations h info annots = Stopped why info' ->
    exists annot,
      In annot annots
      /\ match why with
         | Exception =>
             (annot_name annot = "@param"
              \/ annot_name annot = "@param-attribute")
             /\ exists m,
                  matchParam h (String.eqb (annot_name annot) "@param-attribute")
                    (annot_value annot) = Some m
                  /\ (pm_type m = None
                      \/ (annot_name annot = "@param-attribute"
                          /\ protoMember (pm_attr m) = true
                          /\ recGet (pm_attr m) (attributes info) = None))
         | PrototypeWrite =>
             (exists prop, targetedProp (annot_name annot) = Some prop)
             /\ protoMember (targetOf annot) = true
             /\ recGet (targetOf annot) (attributes info) = None
         end.
Proof.
  induction annots as [|annot annots IH]; intros info why info' Hrun;
    simpl in Hrun; [discriminate|].
  pose proof (handleEntryAnnotation_core h info annot) as Hcore.
  destruct (handleEntryAnnotation h info annot) as [info1|why1 info1] eqn:Hone.
  - simpl in Hcore. destruct (IH info1 why info' Hrun) as (annot' & Hin & H).
    exists annot'. split; [right; exact Hin|].
    destruct why.
    + destruct H as (Hname & m & Hm & [Hty|(Hn & Hp & Hget)]).
      * split; [exact Hname|]. exists m. split; [exact Hm|]. left. exact Hty.
      * split; [exact Hname|]. exists m. split; [exact Hm|]. right.
        repeat split; try assumption.
        exact (recGet_None_core _ _ _ Hcore Hget).
    + destruct H as (Hprop & Hp & Hget). repeat split; try assumption.
      exact (recGet_None_core _ _ _ Hcore Hget).
  - injection Hrun as <- <-. clear IH Hcore. exists annot.
    split; [left; reflexivity|].
    unfold handleEntryAnnotation in Hone. cbv zeta in Hone.
    destruct (String.eqb (annot_name annot) "@diagnostic").
    { destruct (handleDiagnosticAnnotation _ annot). discriminate. }
    destruct (String.eqb (annot_name annot) "@param"
              || String.eqb (annot_name annot) "@param-attribute") eqn:Hparam.
    + assert (Hname : annot_name annot = "@param"
                      \/ annot_name annot = "@param-attribute").
      { apply orb_true_iff in Hparam as [Hp|Hp]; apply String.eqb_eq in Hp;
          auto. }
      unfold handleParamAnnotation in Hone. cbv zeta in Hone.
      destruct (matchParam h _ (annot_value annot)) as [m|] eqn:Hmatch;
        [|discriminate].
      destruct (pm_type m) as [ty|] eqn:Hty.
      * revert Hone.
        destruct (String.eqb (annot_name annot) "@param-attribute") eqn:Hattr;
          cbn [negb orb]; [|discriminate].
        destruct (negb (Js.truthy (pm_attr m))); [discriminate|].
        unfold objGet.
        destruct (recGet (pm_attr m) (attributes info)) eqn:Hget;
          [discriminate|].
        destruct (protoMember (pm_attr m)) eqn:Hp; [|discriminate].
        intros Hstop. injection Hstop as <- _.
        split; [exact Hname|]. exists m. split; [reflexivity|]. right.
        apply String.eqb_eq in Hattr. repeat split; assumption.
      * injection Hone as <- _.
        split; [exact Hname|]. exists m. split; [reflexivity|]. left.
        exact Hty.
    + assert (Hknown :
                String.eqb (annot_name annot) "@expect-identical"
                || (String.eqb (annot_name annot) "@translate"
                    || String.eqb (annot_name annot) "@do-not-translate"
                    || String.eqb (annot_name annot) "@translate-optional")
                = true).
      { destruct (String.eqb (annot_name annot) "@expect-identical");
          [reflexivity|].
        destruct (String.eqb (annot_name annot) "@translate"
                  || String.eqb (annot_name annot) "@do-not-translate"
                  || String.eqb (annot_name annot) "@translate-optional");
          [reflexivity|discriminate]. }
      assert (Htargeted : handleTargetedAnnotation info annot
                          = Stopped why1 info1).
      { destruct (String.eqb (annot_name annot) "@expect-identical");
          [exact Hone|].
        destruct (String.eqb (annot_name annot) "@translate"
                  || String.eqb (annot_name annot) "@do-not-translate"
                  || String.eqb (annot_name annot) "@translate-optional");
          [exact Hone|discriminate]. }
      destruct (handleTargetedAnnotation_known _ _ _ _ Hknown Htargeted)
        as (-> & Hp & Hget).
      split; [apply targetedProp_known, Hknown|]. split; assumption.
Qed.

(** ** Reports and the exit code *)

Lemma splitDiagnostics_fold (wae : bool) (ds : list DiagnosticInfo) :
  forall es ws,
    fold_left
      (fun acc diag =>
         let '(errors, warnings) := acc in
         if wae || isError diag then (errors ++ [diag], warnings)
         else (errors, warnings ++ [diag]))
      ds (es, ws)
    = (es ++ List.filter (fun d => wae || isError d) ds,
       ws ++ List.filter (fun d => negb (wae || isError d)) ds).
Proof.
  induction ds as [|d ds IH]; intros es ws; simpl.
  - rewrite !app_nil_r. reflexivity.
  - destruct (wae || isError d); simpl; rewrite IH, <- ?app_assoc; reflexivity.
Qed.

Lemma ltb_length_filter {A : Type} (p : A -> bool) (l : list A) :
  Nat.ltb 0 (length (List.filter p l)) = existsb p l.
Proof.
  induction l as [|x l IH]; simpl; [reflexivity|].
  destruct (p x); simpl; [reflexivity | exact IH].
Qed.

Lemma getReport_flags (ds : list DiagnosticInfo) (wae : bool) :
  hasErrors (getReport ds wae) = existsb (fun d => wae || isError d) ds
  /\ hasWarnings (getReport ds wae)
     = existsb (fun d => negb (wae || isError d)) ds.
Proof.
  unfold getReport, splitDiagnostics. rewrite splitDiagnostics_fold. simpl.
  rewrite !ltb_length_filter. split; reflexivity.
Qed.

(** X20. [getReport] puts every diagnostic in exactly one of its two lists,
    keeping the order: under [warningsAsErrors] all of them are errors, else
    the errors are the diagnostics of severity Error and the warnings are
    the others.  The flags of the result say whether the lists are
    non-empty, so under [warningsAsErrors] the result never has warnings. *)
Theorem getReport_split (ds : list DiagnosticInfo) (wae : bool) :
  splitDiagnostics wae ds
  = (if wae then ds else List.filter isError ds,
     if wae then [] else List.filter (fun d => negb (isError d)) ds)
  /\ hasErrors (getReport ds wae)
     = (if wae then negb (Nat.eqb (length ds) 0) else existsb isError ds)
  /\ hasWarnings (getReport ds wae)
     = (if wae then false else existsb (fun d => negb (isError d)) ds).
Proof.
  destruct (getReport_flags ds wae) as [He Hw]. rewrite He, Hw. clear He Hw.
  unfold splitDiagnostics. rewrite splitDiagnostics_fold.
  destruct wae; simpl.
  - rewrite filter_all, filter_none;
      try (apply List.Forall_forall; intros; reflexivity).
    split; [reflexivity|]. split; [destruct ds; reflexivity|].
    induction ds as [|d ds IH]; [reflexivity | simpl; exact IH].
  - repeat split; reflexivity.
Qed.

(** X21. Once files were found and analysed, whether the command sets a
    failing exit code does not depend on the output format: with [--strict]
    it does as soon as there is any diagnostic, without it only when a
    diagnostic is an error. *)
Theorem exit_code_rule (format : OutputFormat) (strict : bool)
    (ds : list DiagnosticInfo) :
  setsExitCode format strict ds
  = if strict then negb (Nat.eqb (length ds) 0) else existsb isError ds.
Proof.
  unfold setsExitCode.
  destruct (getReport_flags ds
              ((match format with GitHub => true | _ => false end) && strict))
    as [He Hw].
  rewrite He, Hw. clear He Hw.
  destruct strict.
  - rewrite andb_true_r. simpl.
    destruct (match format with GitHub => true | _ => false end); simpl.
    + induction ds as [|d ds IH]; [reflexivity|]. simpl. reflexivity.
    + induction ds as [|d ds IH]; [reflexivity|]. simpl.
      destruct (isError d); simpl; [reflexivity|].
      rewrite !orb_true_r. reflexivity.
  - rewrite andb_false_r. simpl. rewrite orb_false_r. reflexivity.
Qed.

(** ** Which folders are collections *)

Module DiscoveryMore.
Import Discovery DiscoveryFacts.

Lemma recGet_notin {T : Type} (k : string) (r : Rec T) :
  ~ In k (map fst r) -> recGet k r = None.
Proof.
  induction r as [|[k' v] r IH]; simpl; intros H; [reflexivity|].
  destruct (String.eqb_spec k' k) as [->|Hne]; [tauto|].
  apply IH. tauto.
Qed.

Lemma recGet_None_notin {T : Type} (k : string) (r : Rec T) :
  recGet k r = None -> ~ In k (map fst r).
Proof.
  induction r as [|[k' v] r IH]; simpl; intros H; [tauto|].
  destruct (String.eqb_spec k' k) as [->|Hne]; [discriminate|].
  intros [Hk|Hin]; [contradiction | exact (IH H Hin)].
Qed.

Lemma addLocaleFiles_accepts (dirPath : Path) (loc : string)
    (es : list (string * FsNode)) :
  forall gs,
    match addLocaleFiles dirPath loc es gs with
    | Some gs' =>
        forallb resourceEntry es = true
        /\ map fst gs'
           = match es with
             | [] => map fst gs
             | _ => if isSome (recGet loc gs) then map fst gs
                    else map fst gs ++ [loc]
             end
    | None => forallb resourceEntry es = false
    end.
Proof.
  induction es as [|[name n] es IH]; intros gs; cbn [addLocaleFiles forallb].
  - split; reflexivity.
  - unfold resourceEntry at 1 3. cbn [fst snd].
    destruct (isFile n); cbn [negb orb andb]; [|reflexivity].
    destruct (isFtl name); cbn [negb andb]; [|reflexivity].
    match goal with
    | |- context [addLocaleFiles _ _ _ ?gs1] => specialize (IH gs1)
    end.
    destruct (addLocaleFiles dirPath loc es _) as [gs'|]; [|exact IH].
    destruct IH as [Hall Hkeys]. split; [exact Hall|].
    rewrite Hkeys, recGet_recSet, String.eqb_refl. cbn [isSome].
    destruct es; apply recSet_keys.
Qed.

Lemma addLocales_accepts (root : FsNode) (dir : Path)
    (entries : list (string * FsNode)) :
  lookupNode root dir = Some (FsDir entries) ->
  NoDup (map fst entries) ->
  forall l gs,
    (forall e, In e l -> In e entries) ->
    NoDup (map fst l) ->
    forallb (fun e => isDirectory (snd e)) l = true ->
    (forall e, In e l -> recGet (fst e) gs = None) ->
    match addLocales root dir (map fst l) gs with
    | Ok (Some gs') =>
        forallb localeFolder l = true
        /\ map fst gs' = map fst gs ++ map fst (List.filter nonEmptyFolder l)
    | Ok None => forallb localeFolder l = false
    | Fatal => False
    end.
Proof.
  intros Hdir Hnd. induction l as [|[loc n] l IH];
    intros gs Hsub Hndl Hdirs Hfresh.
  - simpl. rewrite app_nil_r. split; reflexivity.
  - cbn [map fst addLocales forallb List.filter] in *.
    apply andb_true_iff in Hdirs as [Hn Hdirs].
    destruct n as [|es|]; try discriminate.
    assert (Hread : readdir root (dir ++ [loc]) = Some es).
    { apply readdir_lookup. rewrite lookupNode_snoc, Hdir.
      apply assoc_In; [exact Hnd|]. apply Hsub. left. reflexivity. }
    rewrite Hread.
    pose proof (addLocaleFiles_accepts (dir ++ [loc]) loc es gs) as Hfiles.
    unfold localeFolder at 1 3. cbn [snd].
    destruct (addLocaleFiles (dir ++ [loc]) loc es gs) as [gs1|];
      [|rewrite Hfiles; reflexivity].
    destruct Hfiles as [Hall Hkeys]. rewrite Hall. cbn [andb].
    pose proof (Hfresh (loc, FsDir es) (or_introl eq_refl)) as Hloc0.
    cbn [fst] in Hloc0. rewrite Hloc0 in Hkeys. cbn [isSome] in Hkeys.
    apply NoDup_cons in Hndl as [Hloc Hndl].
    assert (Hfresh1 : forall e, In e l -> recGet (fst e) gs1 = None).
    { intros e He. apply recGet_notin. rewrite Hkeys.
      pose proof (recGet_None_notin _ _ (Hfresh e (or_intror He))) as Hgs.
      assert (Hne : loc <> fst e).
      { intros ->. apply Hloc, list_elem_of_In, in_map, He. }
      destruct es; [exact Hgs|].
      rewrite in_app_iff. simpl. tauto. }
    specialize (IH gs1 (fun e He => Hsub e (or_intror He)) Hndl Hdirs Hfresh1).
    destruct (addLocales root dir (map fst l) gs1) as [[gs'|]|];
      [|exact IH|exact IH].
    destruct IH as [Hrest Hk]. split; [exact Hrest|].
    rewrite Hk, Hkeys. unfold nonEmptyFolder at 2. cbn [snd].
    destruct es; cbn [map fst]; rewrite <- ?app_assoc; reflexivity.
Qed.

(** X23. Whether a folder of the snapshot is a collection: it is one
    exactly when each of its entries is a folder that holds nothing but
    resource files (a folder without entries, or with empty folders only, is
    one too).  The collection then is rooted at the folder and has one group
    per non-empty locale folder, in the order of the directory listing;
    otherwise [getCollection] returns nothing.  It never fails on a folder
    of the snapshot. *)
Theorem getCollection_accepts (root : FsNode) (dir : Path)
    (entries : list (string * FsNode)) :
  wellFormed root ->
  lookupNode root dir = Some (FsDir entries) ->
  if forallb localeFolder entries
  then exists c,
         getCollection root dir = Ok (Some c)
         /\ coll_dir c = dir
         /\ map fst (coll_groups c)
            = map fst (List.filter nonEmptyFolder entries)
  else getCollection root dir = Ok None.
Proof.
  intros Hwf Hdir.
  destruct (wellFormed_dir entries (wellFormed_lookup dir root _ Hwf Hdir))
    as [Hnd _].
  unfold getCollection.
  rewrite (proj2 (readdir_lookup root dir entries) Hdir).
  destruct (forallb (fun e => isDirectory (snd e)) entries) eqn:Hdirs;
    cbn [negb].
  - pose proof (addLocales_accepts root dir entries Hdir Hnd entries []
                  (fun e He => He) Hnd Hdirs (fun e _ => eq_refl)) as Hacc.
    destruct (addLocales root dir (map fst entries) []) as [[gs|]|].
    + destruct Hacc as [Hall Hkeys]. rewrite Hall.
      exists (mkColl dir gs). repeat split. exact Hkeys.
    + rewrite Hacc. reflexivity.
    + contradiction.
  - assert (Hall : forallb localeFolder entries = false).
    { apply not_true_is_false. intros Hall.
      rewrite forallb_forall in Hall.
      assert (Hd : forallb (fun e => isDirectory (snd e)) entries = true).
      { apply forallb_forall. intros e He. specialize (Hall e He).
        unfold localeFolder in Hall. destruct (snd e); try discriminate.
        reflexivity. }
      congruence. }
    rewrite Hall. reflexivity.
Qed.

(** X24. No collection of a discovery result is rooted at the base folder:
    a file of a collection lies two levels below the folder of its
    collection, which itself lies below the base, so every discovered file
    at depth one or two (a file of the base folder or of one of its
    subfolders) is ungrouped. *)
Theorem collections_lie_below_base (root : FsNode) (r : DiscoveryResult) :
  wellFormed root ->
  discover root = Ok r ->
  (forall c f, c ∈ collections r -> f ∈ collectionFiles c ->
               coll_dir c <> []
               /\ exists loc name, f = coll_dir c ++ [loc; name])
  /\ (forall f, f ∈ allFiles r -> length f <= 2 -> f ∈ ungrouped r).
Proof.
  intros Hwf Hrun.
  assert (Hinv : Invariant root r).
  { unfold discover in Hrun. destruct root as [|es0|]; try discriminate.
    destruct (discoverInternal_spec (FsDir es0) Hwf (FsDir es0) [] es0
                emptyResult eq_refl eq_refl (Invariant_empty _))
      as (r' & Hrun' & Hinv & _).
    rewrite Hrun in Hrun'. injection Hrun' as <-. exact Hinv. }
  assert (Hcoll : forall c f, c ∈ collections r -> f ∈ collectionFiles c ->
                    coll_dir c <> []
                    /\ exists loc name, f = coll_dir c ++ [loc; name]).
  { intros c f Hc Hf.
    pose proof (inv_collections root r Hinv c Hc f Hf) as Hclass.
    unfold classOf, findCollection in Hclass.
    destruct (parentOf (removelast f)) as [g|] eqn:Hparent; [|discriminate].
    destruct (isPathInside (Some g)) eqn:Hinside; [|discriminate].
    destruct (getCollection_readdir root g c Hclass) as [entries Hdir].
    destruct (getCollection_spec root g entries Hdir) as (r0 & Hr0 & Hspec).
    rewrite Hclass in Hr0. injection Hr0 as <-.
    destruct (Hspec c eq_refl) as (Hcdir & _ & _ & Hfiles).
    destruct (Hfiles f Hf) as (loc & es & name & _ & _ & _ & ->).
    rewrite Hcdir. split.
    - intros ->. discriminate.
    - exists loc, name. rewrite <- app_assoc. reflexivity. }
  split; [exact Hcoll|].
  intros f Hf Hlen. apply elem_of_allFiles in Hf as [(c & Hc & Hcf)|Hu];
    [|exact Hu].
  destruct (Hcoll c f Hc Hcf) as (Hne & loc & name & ->).
  rewrite length_app in Hlen. simpl in Hlen.
  destruct (coll_dir c); [contradiction | simpl in Hlen; lia].
Qed.

End DiscoveryMore.

(** ** The properties above at sample inputs *)

Lemma compareFiles_missing_and_unknown_messages_witness :
  bundle emptyTarget = bundle twiceFile
  /\ compareFiles frOnlyHost analyzer0 (Some emptyTarget) twiceFile "fr"
     = Completed
         (pushed (compareFiles frOnlyHost analyzer0 (Some emptyTarget)
                    twiceFile "fr"))
  /\ (List.filter (hasCode "missing-message")
        (pushed (compareFiles frOnlyHost analyzer0 (Some emptyTarget)
                   twiceFile "fr"))
      = flat_map
          (fun src => if setHas (el_id (base src)) (messageIds emptyTarget)
                      then []
                      else addMissingMessageWarning emptyTarget src)
          (messages twiceFile)
      /\ List.filter (hasCode "unknown-message")
           (pushed (compareFiles frOnlyHost analyzer0 (Some emptyTarget)
                      twiceFile "fr"))
         = flat_map
             (fun msg => if setHas (el_id (base msg)) (messageIds twiceFile)
                         then []
                         else addEntryWarning analyzer0 emptyTarget
                                (OfMessage msg) UnknownMessage
                                [el_id (base msg)])
             (messages emptyTarget)).
Proof.
  split; [reflexivity|]. split; [reflexivity|].
  apply (compareFiles_missing_and_unknown_messages frOnlyHost analyzer0
           emptyTarget twiceFile "fr"); reflexivity.
Defined.

Lemma compareAttributes_of_term_witness :
  isTerm sampleTerm = true
  /\ compareAttributes analyzer0 twiceFile sampleTerm protectedLabel
     = map (fun attr => entryDiagnostic twiceFile (OfAttribute attr)
                          DoNotTranslate ["Attribute"; el_name attr])
         (List.filter
            (fun attr => match recGet (el_id attr) protectedLabel with
                         | Some srcAttr =>
                             TranslateType_eqb (el_translate srcAttr)
                               Disallowed
                         | None => false
                         end)
            (recValues (attributes sampleTerm))).
Proof.
  split; [reflexivity|].
  apply (compareAttributes_of_term analyzer0 twiceFile sampleTerm
           protectedLabel).
  reflexivity.
Defined.

Lemma global_annotation_wins_witness :
  readFile (greetHost "@global")
    (path_uri (file_path (discovered "en" "greet")))
  = Some (greetContent "@global")
  /\ In (ResourceCommentEntry "@global")
       (parseResource (greetHost "@global") (greetContent "@global"))
  /\ In (mkAnnot "@global" EmptyString)
       (ex_annotations (readAnnots "@global"))
  /\ match read (greetHost "@global") analyzer0 (discovered "en" "greet") with
     | Normal (_, file') => bundle file' = Some EmptyString
     | Stopped Exception (_, file') =>
         bundle file' = bundle (discovered "en" "greet")
     | Stopped PrototypeWrite _ => True
     end.
Proof.
  split; [reflexivity|]. split; [left; reflexivity|].
  split; [left; reflexivity|].
  apply (global_annotation_wins (greetHost "@global") analyzer0
           (discovered "en" "greet") (greetContent "@global") "@global"
           (mkAnnot "@global" EmptyString)).
  - reflexivity.
  - left. reflexivity.
  - left. reflexivity.
  - reflexivity.
Defined.

Lemma handleEntryAnnotations_throws_witness :
  handleEntryAnnotations untypedParamHost firstMsg [mkAnnot "@param" "$name"]
  = Stopped Exception firstMsg
  /\ exists annot,
       In annot [mkAnnot "@param" "$name"]
       /\ (annot_name annot = "@param"
           \/ annot_name annot = "@param-attribute")
       /\ exists m,
            matchParam untypedParamHost
              (String.eqb (annot_name annot) "@param-attribute")
              (annot_value annot) = Some m
            /\ (pm_type m = None
                \/ (annot_name annot = "@param-attribute"
                    /\ protoMember (pm_attr m) = true
                    /\ recGet (pm_attr m) (attributes firstMsg) = None)).
Proof.
  split; [reflexivity|].
  apply (handleEntryAnnotations_throws untypedParamHost
           [mkAnnot "@param" "$name"] firstMsg Exception firstMsg).
  reflexivity.
Defined.

Lemma checkParams_of_source_entry_witness :
  paramsKeyed (entry_params (OfMessage declaringMessage))
  /\ checkParams analyzer0 twiceFile (OfMessage declaringMessage) None true
       false
     = flat_map
         (fun p =>
            if protoMember (param_id p) && isSome (param_type p)
            then addEntryWarning analyzer0 twiceFile
                   (OfMessage declaringMessage) AnnotationTypeMismatch
                   [paramLabel false (OfMessage declaringMessage) (param_id p);
                    if false then "attribute" else "message";
                    entry_name (OfMessage declaringMessage)]
            else [])
         (recValues (entry_params (OfMessage declaringMessage)))
       ++ flat_map
            (fun v =>
               if isSome (recGet v (entry_params (OfMessage declaringMessage)))
                  || protoMember v
               then []
               else addEntryWarning analyzer0 twiceFile
                      (OfMessage declaringMessage) AnnotationMissing
                      [paramLabel false (OfMessage declaringMessage) v;
                       if false then "attribute" else "message";
                       entry_name (OfMessage declaringMessage)])
            (entry_variables (OfMessage declaringMessage))
       ++ flat_map
            (checkRequired analyzer0 twiceFile (OfMessage declaringMessage)
               false)
            (recValues (entry_params (OfMessage declaringMessage))).
Proof.
  assert (H : paramsKeyed (entry_params (OfMessage declaringMessage))).
  { split; simpl; [repeat constructor | apply NoDup_singleton]. }
  split; [exact H|].
  apply (checkParams_of_source_entry analyzer0 twiceFile
           (OfMessage declaringMessage) false).
  exact H.
Defined.

Lemma getCollection_accepts_witness :
  Discovery.wellFormed sampleTree
  /\ Discovery.lookupNode sampleTree ["strings"]
     = Some (Discovery.FsDir stringsEntries)
  /\ (if forallb localeFolder stringsEntries
      then exists c,
             Discovery.getCollection sampleTree ["strings"]
             = Discovery.Ok (Some c)
             /\ Discovery.coll_dir c = ["strings"]
             /\ map fst (Discovery.coll_groups c)
                = map fst (List.filter nonEmptyFolder stringsEntries)
      else Discovery.getCollection sampleTree ["strings"]
           = Discovery.Ok None).
Proof.
  split; [exact sampleTree_wellFormed|]. split; [reflexivity|].
  apply (DiscoveryMore.getCollection_accepts sampleTree ["strings"]
           stringsEntries).
  - exact sampleTree_wellFormed.
  - reflexivity.
Defined.

Lemma collections_lie_below_base_witness :
  Discovery.wellFormed sampleTree
  /\ Discovery.discover sampleTree = Discovery.Ok sampleResult
  /\ (forall c f,
         c ∈ Discovery.collections sampleResult ->
         f ∈ Discovery.collectionFiles c ->
         Discovery.coll_dir c <> []
         /\ exists loc name, f = Discovery.coll_dir c ++ [loc; name])
  /\ (forall f, f ∈ Discovery.allFiles sampleResult -> length f <= 2 ->
                f ∈ Discovery.ungrouped sampleResult).
Proof.
  split; [exact sampleTree_wellFormed|].
  split; [vm_compute; reflexivity|].
  apply (DiscoveryMore.collections_lie_below_base sampleTree sampleResult).
  - exact sampleTree_wellFormed.
  - vm_compute. reflexivity.
Defined.
